(** * Namster backend (server.js): name extraction, batch windows,
      artifact naming, session cleanup and the render handlers.

    A shallow embedding of [server.js].

    - Strings.  JavaScript strings are sequences of UTF-16 code units; the
      embedding keeps the code units below 256, one [ascii] each, and every
      function on strings ([trim], [toLowerCase], [split], [replace]) is
      exact on texts of that range.
    - Numbers.  [Number(offset)], [Number(limit)] and [Number(fontSize)]
      are [jsnum]s: NaN, an infinity or a finite value in [Q].  Additions
      and subtractions round to the nearest double ([roundDouble]);
      [Math.max] and [Math.min] return one of their arguments.  The loop
      counter [idx] is stepped exactly: it stays below the length of an
      array, hence below 2^32.  A number is printed as Number::toString
      prints it ([showNumber]).
    - State.  The session map is a [gmap] from identifiers to sessions and
      the disk a [gmap] from paths to nodes; a handler takes the state and
      gives the state it leaves and its response.
    - Failures.  Calls into sharp, xlsx, mammoth, pdf-parse, archiver and fs
      can throw; what they answer is a parameter ([listFile], [libs]), and a
      computation on the disk that may throw is an [io]. *)

From Stdlib Require Import ZArith QArith Qminmax Qround Lqa Ascii String List Lia Bool.
From Stdlib Require Import DecimalString DecimalPos.
From stdpp Require Import base option list gmap strings.

Local Open Scope Z_scope.

(** ** JavaScript string primitives *)

Module JsString.

Definition LF : ascii := "010"%char.
Definition CR : ascii := "013"%char.

Definition code (c : ascii) : N := N_of_ascii c.

Definition between (lo hi : N) (c : ascii) : bool :=
  ((lo <=? code c) && (code c <=? hi))%N.

(** [\s] and [trim]: WhiteSpace and LineTerminator, i.e. TAB, LF, VT, FF,
    CR, SPACE and NBSP among the code units below 256. *)
Definition isWhiteSpace (c : ascii) : bool :=
  between 9 13 c || (code c =? 32)%N || (code c =? 160)%N.

Definition isEmpty (s : string) : bool :=
  match s with EmptyString => true | String _ _ => false end.

Fixpoint trimStart (s : string) : string :=
  match s with
  | EmptyString => EmptyString
  | String c s' => if isWhiteSpace c then trimStart s' else s
  end.

Fixpoint trimEnd (s : string) : string :=
  match s with
  | EmptyString => EmptyString
  | String c s' =>
      let r := trimEnd s' in
      if isWhiteSpace c && isEmpty r then EmptyString else String c r
  end.

(** [s.trim()] *)
Definition trim (s : string) : string := trimEnd (trimStart s).

(** [s.toLowerCase()], one code unit at a time: A-Z and the Latin-1
    capitals (all of 192..222 but the multiplication sign 215). *)
Definition lowerChar (c : ascii) : ascii :=
  if between 65 90 c || (between 192 222 c && negb (code c =? 215)%N)
  then ascii_of_N (code c + 32) else c.

Fixpoint toLowerCase (s : string) : string :=
  match s with
  | EmptyString => EmptyString
  | String c s' => String (lowerChar c) (toLowerCase s')
  end.

(** [s.replace(/\s+/g, '')] *)
Fixpoint removeWhiteSpace (s : string) : string :=
  match s with
  | EmptyString => EmptyString
  | String c s' =>
      if isWhiteSpace c then removeWhiteSpace s' else String c (removeWhiteSpace s')
  end.

(** Puts [c] in front of the first piece of a split. *)
Definition consHead (c : ascii) (l : list string) : list string :=
  match l with
  | [] => [String c EmptyString]
  | t :: r => String c t :: r
  end.

Definition isListSep (c : ascii) : bool :=
  Ascii.eqb c LF || Ascii.eqb c ";" || Ascii.eqb c ",".

(** [s.split(/\r?\n|;|,/)]: a separator is CR LF, LF, [;] or [,]; a CR that
    no LF follows is an ordinary character. *)
Fixpoint splitList (s : string) : list string :=
  match s with
  | EmptyString => [EmptyString]
  | String c rest =>
      if isListSep c then EmptyString :: splitList rest
      else match rest with
           | String c2 rest2 =>
               if Ascii.eqb c CR && Ascii.eqb c2 LF
               then EmptyString :: splitList rest2
               else consHead c (splitList rest)
           | EmptyString => consHead c (splitList rest)
           end
  end.

(** [[^a-z0-9_-]] under the [i] flag matches every code unit outside
    [A-Za-z0-9_-]. *)
Definition isSlugChar (c : ascii) : bool :=
  between 97 122 c || between 65 90 c || between 48 57 c
  || Ascii.eqb c "_" || Ascii.eqb c "-".

(** [s.replace(/[^a-z0-9_-]+/gi, '_')]: [inRun] tells that the match in
    progress has already put its underscore. *)
Fixpoint replaceRuns (inRun : bool) (s : string) : string :=
  match s with
  | EmptyString => EmptyString
  | String c s' =>
      if isSlugChar c then String c (replaceRuns false s')
      else if inRun then replaceRuns true s'
      else String "_" (replaceRuns true s')
  end.

Definition sanitize (s : string) : string := replaceRuns false s.

(** [String(n)] for an integer [n] *)
Definition ofInt (n : Z) : string := NilEmpty.string_of_int (Z.to_int n).

Fixpoint repeat0 (k : nat) : string :=
  match k with O => EmptyString | S k' => String "0" (repeat0 k') end.

(** [s.padStart(w, '0')] *)
Definition padStart0 (w : nat) (s : string) : string :=
  repeat0 (w - String.length s) +:+ s.

End JsString.

Import JsString.

(** ** Name extraction *)

(** The header filter of [parseNamesFromText]:
    [t.toLowerCase().replace(/\s+/g, '') === 'liste']. *)
Definition isHeader (t : string) : bool :=
  String.eqb (removeWhiteSpace (toLowerCase t)) "liste".

Definition parseNamesFromText (text : string) : list string :=
  let raw := List.filter (fun t => negb (isEmpty t)) (map trim (splitList text)) in
  let cleaned := List.filter (fun t => negb (isHeader t)) raw in
  cleaned.

(** *** [extractNamesFromFile]

    What the call finds on disk and what the document libraries answer.
    [None] stands for a call that throws. *)
Record listFile := {
  fileExt : string;                 (* path.extname(filePath).toLowerCase() *)
  fileContent : option string;      (* fs.readFileSync(filePath[, 'utf8']) *)
  sheetCells : string -> option (list (list (option string)));
                                    (* xlsx: rows of the first sheet, a cell
                                       is null/undefined or its String(c) *)
  rawText : string -> option (option string);
                                    (* mammoth.extractRawText: value *)
  pdfImport : bool;                 (* await import('pdf-parse') resolves *)
  pdfText : string -> option (option string)
                                    (* pdfParse(dataBuffer): data.text *)
}.

Inductive failure := ReadFailure | ParseFailure.

Inductive outcome (A : Type) :=
| Returned (a : A)
| Thrown (e : failure).
Arguments Returned {A} a.
Arguments Thrown {A} e.

(** [value || ''] *)
Definition orEmpty (v : option string) : string := default EmptyString v.

(** The result together with the lines sent to [console.warn]. *)
Definition extractNamesFromFile (f : listFile) : outcome (list string) * list string :=
  let ext := fileExt f in
  if String.eqb ext ".csv" then
    match fileContent f with
    | None => (Thrown ReadFailure, [])
    | Some content => (Returned (parseNamesFromText content), [])
    end
  else if String.eqb ext ".xlsx" || String.eqb ext ".xls" then
    match fileContent f with
    | None => (Thrown ReadFailure, [])
    | Some content =>
        match sheetCells f content with
        | None => (Thrown ParseFailure, [])
        | Some rows =>
            let cells := omap id (concat rows) in
            (Returned (List.filter (fun s => negb (isEmpty s)) (map trim cells)), [])
        end
    end
  else if String.eqb ext ".docx" then
    match fileContent f with
    | None => (Thrown ReadFailure, [])
    | Some content =>
        match rawText f content with
        | None => (Thrown ParseFailure, [])
        | Some value => (Returned (parseNamesFromText (orEmpty value)), [])
        end
    end
  else if String.eqb ext ".pdf" then
    let warned := (Returned [], ["PDF parsing failed, continuing without PDF support:"]) in
    match fileContent f with
    | None => warned
    | Some dataBuffer =>
        if pdfImport f then
          match pdfText f dataBuffer with
          | None => warned
          | Some text => (Returned (parseNamesFromText (orEmpty text)), [])
          end
        else warned
    end
  else
    match fileContent f with
    | None => (Returned [], [])
    | Some content => (Returned (parseNamesFromText content), [])
    end.

(** ** Numbers *)

(** A JavaScript number: the value of [Number(v)]. *)
Inductive jsnum := NaN | PosInf | NegInf | Fin (q : Q).

(** *** Rounding to a double

    Nearest integer to [a / b] for [0 < b], a tie going to the even one. *)
Definition roundHalfEven (a b : Z) : Z :=
  let k := a / b in
  let r := a mod b in
  if 2 * r <? b then k
  else if b <? 2 * r then k + 1
  else if Z.even k then k else k + 1.

(** The binary exponent of [n / d] for positive [n] and [d]: the [e] with
    [2^e <= n / d < 2^(e+1)]. *)
Definition binade (n d : Z) : Z :=
  let c := Z.log2 n - Z.log2 d in
  if (if 0 <=? c then d * 2 ^ c <=? n else d <=? n * 2 ^ (- c)) then c else c - 1.

(** The double nearest to [n / d]: 53 significant bits, the last place no
    finer than [2^-1074]. *)
Definition roundPos (n d : Z) : Q :=
  let s := Z.max (binade n d - 52) (-1074) in
  if 0 <=? s then inject_Z (roundHalfEven n (d * 2 ^ s) * 2 ^ s)
  else roundHalfEven (n * 2 ^ (- s)) d # Z.to_pos (2 ^ (- s)).

(** The result of an arithmetic operation whose exact value is [q], in lowest
    terms.  (Values past the largest double do not arise here: a sum
    [start + batchSize] adds at most 50 to a double.) *)
Definition roundDouble (q : Q) : Q :=
  Qred match Qnum q with
       | 0 => 0
       | Zpos n => roundPos (Zpos n) (Zpos (Qden q))
       | Zneg n => - roundPos (Zpos n) (Zpos (Qden q))
       end.

(** The integer a number is, when it is one. *)
Definition asInteger (q : Q) : option Z :=
  if Qeq_bool q (inject_Z (Qfloor q)) then Some (Qfloor q) else None.

(** *** Number::toString *)

Definition pow10 (n : Z) : Q :=
  if 0 <=? n then inject_Z (10 ^ n) else 1 # Z.to_pos (10 ^ (- n)).

Fixpoint leadingZeros (fuel : nat) (q : Q) : Z :=
  match fuel with
  | O => 0
  | S fuel' => if Qle_bool 1 (q * 10)%Q then 0 else 1 + leadingZeros fuel' (q * 10)%Q
  end.

(** The [n] with [10^(n-1) <= q < 10^n], for a positive double [q]. *)
Definition decimalExponent (q : Q) : Z :=
  if Qle_bool 1 q then Z.of_nat (String.length (ofInt (Qfloor q)))
  else - leadingZeros 400 q.

(** The decimal [s] of [k] digits for which [s * 10^(n-k)] reads back as [q],
    if there is one: the closer of the two next to [q], the even one on a
    tie. *)
Definition decimalOf (q : Q) (n k : Z) : option Z :=
  let scale := pow10 (k - n) in
  let lo := Qfloor (q * scale)%Q in
  let hi := lo + 1 in
  let readsBack s := Qeq_bool (roundDouble (inject_Z s / scale)%Q) q in
  match readsBack lo, readsBack hi with
  | true, true =>
      match (q * scale - inject_Z lo ?= inject_Z hi - q * scale)%Q with
      | Lt => Some lo
      | Gt => Some hi
      | Eq => Some (if Z.even lo then lo else hi)
      end
  | true, false => Some lo
  | false, true => Some hi
  | false, false => None
  end.

(** The shortest such decimal and its number of digits; a double needs at
    most 17. *)
Fixpoint shortestDecimal (q : Q) (n : Z) (ks : list Z) : Z * Z :=
  match ks with
  | [] => (Qfloor (q * pow10 (17 - n))%Q, 17)
  | k :: ks' =>
      match decimalOf q n k with
      | Some s => (s, k)
      | None => shortestDecimal q n ks'
      end
  end.

Fixpoint stripZeros (s : string) : string :=
  match s with
  | EmptyString => EmptyString
  | String c s' =>
      match stripZeros s' with
      | EmptyString => if Ascii.eqb c "0" then EmptyString else String c EmptyString
      | t => String c t
      end
  end.

(** Number::toString on a positive finite number: digits [digits], [k] of
    them, and the decimal point after the [n]-th. *)
Definition showPositive (q : Q) : string :=
  let n0 := decimalExponent q in
  let '(s, k0) := shortestDecimal q n0 (seqZ 1 17) in
  let all := ofInt s in
  let n := n0 + (Z.of_nat (String.length all) - k0) in
  let digits := stripZeros all in
  let k := Z.of_nat (String.length digits) in
  if (k <=? n) && (n <=? 21) then digits +:+ repeat0 (Z.to_nat (n - k))
  else if (0 <? n) && (n <=? 21) then
    String.substring 0 (Z.to_nat n) digits +:+ "." +:+
    String.substring (Z.to_nat n) (Z.to_nat (k - n)) digits
  else if (-6 <? n) && (n <=? 0) then "0." +:+ repeat0 (Z.to_nat (- n)) +:+ digits
  else
    let e := n - 1 in
    (if k =? 1 then digits
     else String.substring 0 1 digits +:+ "." +:+
          String.substring 1 (Z.to_nat (k - 1)) digits)
    +:+ "e" +:+ (if 0 <=? e then "+" else "-") +:+ ofInt (Z.abs e).

(** [String(n)], as a template literal prints a number. *)
Definition showNumber (n : jsnum) : string :=
  match n with
  | NaN => "NaN"
  | PosInf => "Infinity"
  | NegInf => "-Infinity"
  | Fin q =>
      match Qnum q with
      | 0 => "0"
      | Zpos _ => showPositive q
      | Zneg _ => "-" +:+ showPositive (- q)%Q
      end
  end.

(** ** The text layer *)

(** ToBoolean on a number: false on NaN and on zero. *)
Definition numTruthy (n : jsnum) : bool :=
  match n with
  | NaN => false
  | Fin q => negb (Qeq_bool q 0)
  | PosInf | NegInf => true
  end.

Definition isPositive (n : jsnum) : Prop :=
  match n with
  | Fin q => (0 < q)%Q
  | PosInf => True
  | NaN | NegInf => False
  end.

(** [v || d] on a string that may be absent: the empty string is falsy. *)
Definition strOr (v : option string) (d : string) : string :=
  match v with
  | Some s => if isEmpty s then d else s
  | None => d
  end.

(** [s.replace(/c/g, r)] for a single character [c]. *)
Fixpoint replaceChar (c : ascii) (r : string) (s : string) : string :=
  match s with
  | EmptyString => EmptyString
  | String a s' =>
      if Ascii.eqb a c then r +:+ replaceChar c r s' else String a (replaceChar c r s')
  end.

Record overlay := {
  ovText : option string;
  ovX : string;                 (* x and y as the template literal prints them *)
  ovY : string;
  ovFontFamily : option string;
  ovFontSize : jsnum;           (* Number(fontSize) *)
  ovColor : option string;
}.

(** What [buildSVGText] returns: the SVG source [svgSource], kept together
    with the values that the template literal splices into it. *)
Record textLayer := {
  svgSource : string;
  svgWidth : Z;
  svgHeight : Z;
  svgFontFamily : string;
  svgFontSize : jsnum;
  svgFill : string;
  svgX : string;
  svgY : string;
  svgText : string;
}.

Definition escapeText (text : option string) : string :=
  replaceChar ">" "&gt;" (replaceChar "<" "&lt;" (replaceChar "&" "&amp;" (orEmpty text))).

Definition dquote : ascii := "034"%char.

(** [s] between double quotes. *)
Definition quoted (s : string) : string :=
  String dquote (s +:+ String dquote EmptyString).

Definition newline : string := String LF EmptyString.

(** The template literal of [buildSVGText], every hole spliced as it is. *)
Definition svgTemplate (width height ff fsPx fill x y safeText : string) : string :=
  "<?xml version=" +:+ quoted "1.0" +:+ " encoding=" +:+ quoted "UTF-8" +:+ "?>"
  +:+ newline +:+
  "<svg width=" +:+ quoted width +:+ " height=" +:+ quoted height +:+
  " viewBox=" +:+ quoted ("0 0 " +:+ width +:+ " " +:+ height) +:+
  " xmlns=" +:+ quoted "http://www.w3.org/2000/svg" +:+ ">"
  +:+ newline +:+
  "  <style>"
  +:+ newline +:+
  "    .t { font-family: '" +:+ ff +:+ "'; font-size: " +:+ fsPx +:+
  "px; fill: " +:+ fill +:+ "; dominant-baseline: hanging; }"
  +:+ newline +:+
  "  </style>"
  +:+ newline +:+
  "  <text x=" +:+ quoted x +:+ " y=" +:+ quoted y +:+ " class=" +:+ quoted "t" +:+
  ">" +:+ safeText +:+ "</text>"
  +:+ newline +:+
  "</svg>".

Definition buildSVGText (o : overlay) (width height : Z) : textLayer :=
  let safeText := escapeText (ovText o) in
  let ff := strOr (ovFontFamily o) "Arial" in
  let fsPx := if numTruthy (ovFontSize o) then ovFontSize o else Fin 48 in
  let fill := strOr (ovColor o) "#000000" in
  {| svgSource := svgTemplate (ofInt width) (ofInt height) ff (showNumber fsPx) fill
                    (ovX o) (ovY o) safeText;
     svgWidth := width; svgHeight := height; svgFontFamily := ff;
     svgFontSize := fsPx; svgFill := fill; svgX := ovX o; svgY := ovY o;
     svgText := safeText |}.

(** ** Sessions and the disk *)

Record session := {
  sessId : string;
  createdAt : Z;
  modelPath : option string;
  listPath : option string;
  names : list string;
  cleanup : list string;
}.

(** What a path of the disk holds. *)
#[warnings="-register-all"]
Inductive content :=
| Uploaded (data : string)
| Png (template : string) (layer : textLayer)      (* composite(...).png() *)
| Jpeg (quality : Z) (source : content)            (* sharp(p).jpeg({quality}) *)
| Zip (level : Z) (entries : gmap string content). (* archiver('zip', ...) *)

Inductive node :=
| Dir
| File (c : content).

Record server := {
  sessions : gmap string session;
  disk : gmap string node;
}.

(** What the libraries answer during a request; [None] or [false] is a call
    that throws or rejects. *)
Record libs := {
  workDir : string;                      (* path.join(__dirname, 'work') *)
  sharpMeta : string -> option (Z * Z);  (* sharp(modelPath).metadata(): width and
                                            height, 0 for a missing value *)
  compositeOk : string -> string -> bool;
                                         (* sharp(modelPath).composite([{input: svg}])
                                            .png().toBuffer() *)
  jpegOk : string -> bool;               (* sharp(tmpPng).jpeg(...).toBuffer() *)
  writeOk : string -> bool;              (* fs.promises.writeFile(path, ...) *)
  unlinkOk : string -> bool;             (* fs.unlinkSync(path) *)
  rmOk : string -> bool;                 (* fs.rmSync(path, {recursive, force}) *)
  zipOk : string -> bool;                (* the archive stream closes without error *)
}.

(** *** The disk *)

(** [path.join(a, b)] for a segment [b] without separators. *)
Definition pathJoin (a b : string) : string := a +:+ "/" +:+ b.

Definition existsSync (d : gmap string node) (p : string) : bool :=
  bool_decide (is_Some (d !! p)).

(** [p] itself or a path below the directory [p]. *)
Definition under (p k : string) : bool :=
  String.eqb k p || String.prefix (p +:+ "/") k.

(** The directories above [p], outermost first; [seen] is the part of the
    path already read, reversed. *)
Fixpoint parentDirs (seen p : string) : list string :=
  match p with
  | EmptyString => []
  | String c p' =>
      (if Ascii.eqb c "/" && negb (isEmpty seen) then [String.rev seen] else [])
      ++ parentDirs (String c seen) p'
  end.

Definition mkdirOne (d : gmap string node) (p : string) : gmap string node :=
  match d !! p with
  | Some _ => d
  | None => <[p := Dir]> d
  end.

(** [fs.mkdirSync(p, { recursive: true })] *)
Definition mkdirSync (d : gmap string node) (p : string) : gmap string node :=
  foldl mkdirOne d (parentDirs EmptyString p ++ [p]).

(** [if (!fs.existsSync(p)) fs.mkdirSync(p, { recursive: true })] *)
Definition ensureDir (d : gmap string node) (p : string) : gmap string node :=
  if existsSync d p then d else mkdirSync d p.

(** [fs.rmSync(p, { recursive: true, force: true })] when it succeeds. *)
Definition rmSync (d : gmap string node) (p : string) : gmap string node :=
  filter (fun kv => under p kv.1 = false) d.

(** *** Requests that throw

    A computation on the disk that may throw: the disk it leaves and, unless
    it threw, its value. *)
Definition io (A : Type) : Type := gmap string node -> gmap string node * option A.

Definition ioRet {A} (a : A) : io A := fun d => (d, Some a).
Definition ioThrow {A} : io A := fun d => (d, None).
Definition ioBind {A B} (m : io A) (k : A -> io B) : io B :=
  fun d => match m d with
           | (d', Some a) => k a d'
           | (d', None) => (d', None)
           end.

Notation "'let*' x := m 'in' k" := (ioBind m (fun x => k))
  (at level 10, x name, m at level 200, k at level 200).

Definition ioGuard (b : bool) : io unit := if b then ioRet tt else ioThrow.
Definition ioModify (f : gmap string node -> gmap string node) : io unit :=
  fun d => (f d, Some tt).

(** [array[idx]] followed by a method call: throws on [undefined]. *)
Definition ioSome {A} (o : option A) : io A :=
  match o with Some a => ioRet a | None => ioThrow end.

(** [await fs.promises.writeFile(p, c)] *)
Definition writeFile (L : libs) (p : string) (c : content) : io unit :=
  let* _ := ioGuard (writeOk L p) in
  ioModify (insert p (File c)).

(** Reading a file back ([sharp(p)], [fs.readFileSync(p)]). *)
Definition readFile (p : string) : io content :=
  fun d => match d !! p with
           | Some (File c) => (d, Some c)
           | _ => (d, None)
           end.

(** [fs.unlinkSync(p)] *)
Definition unlinkSync (L : libs) (p : string) : io unit :=
  let* _ := ioGuard (unlinkOk L p) in
  ioModify (delete p).

(** [meta.width || 2000] *)
Definition orDim (v fallback : Z) : Z := if v =? 0 then fallback else v.

Definition composeImageWithText (L : libs) (modelPath outPath : string) (o : overlay)
  : io unit :=
  let* meta := ioSome (sharpMeta L modelPath) in
  let width := orDim meta.1 2000 in
  let height := orDim meta.2 1000 in
  let svg := buildSVGText o width height in
  let* _ := ioGuard (compositeOk L modelPath (svgSource svg)) in
  writeFile L outPath (Png modelPath svg).

(** ** The session store *)

(** [newSession()], with the identifier [crypto.randomUUID()] gave and the
    time [Date.now()] gave. *)
Definition newSession (id : string) (now : Z) (s : server) : server :=
  {| sessions := <[id := {| sessId := id; createdAt := now; modelPath := None;
                            listPath := None; names := []; cleanup := [] |}]> (sessions s);
     disk := disk s |}.

(** One turn of the loop of [cleanupSession]:
    [try { if (p && fs.existsSync(p)) fs.rmSync(p, ...) } catch {}] *)
Definition removePath (L : libs) (d : gmap string node) (p : string) : gmap string node :=
  if negb (isEmpty p) && existsSync d p
  then (if rmOk L p then rmSync d p else d)
  else d.

Definition cleanupSession (L : libs) (id : string) (s : server) : server :=
  match sessions s !! id with
  | None => s
  | Some sess =>
      {| sessions := delete id (sessions s);
         disk := foldl (removePath L) (disk s) (cleanup sess) |}
  end.

(** ** The handlers *)

(** The style fields of a request body. *)
Record style := {
  stX : string;
  stY : string;
  stFontFamily : option string;
  stFontSize : jsnum;
  stColor : option string;
}.

Definition overlayOf (st : style) (text : string) : overlay :=
  {| ovText := Some text; ovX := stX st; ovY := stY st;
     ovFontFamily := stFontFamily st; ovFontSize := stFontSize st;
     ovColor := stColor st |}.

Inductive response :=
| Status (code : Z) (error : string)
| PreviewJson (preview : content)
| GenerateJson (downloadUrl : string) (processed offset : Q) (total : Z)
| Download (sent : option content).    (* None: the transfer failed *)

(** [!s.modelPath || !s.names?.length] is false: the template path. *)
Definition usableModel (sess : session) : option string :=
  match modelPath sess with
  | Some m => if isEmpty m || bool_decide (names sess = []) then None else Some m
  | None => None
  end.

Definition pushCleanup (sess : session) (p : string) : session :=
  {| sessId := sessId sess; createdAt := createdAt sess; modelPath := modelPath sess;
     listPath := listPath sess; names := names sess; cleanup := cleanup sess ++ [p] |}.

(** *** POST /api/test *)

Record testRequest := {
  tSessionId : string;
  tStyle : style;
}.

Definition testHandler (L : libs) (req : testRequest) (s : server) : server * response :=
  let sessionId := tSessionId req in
  match sessions s !! sessionId with
  | None => (s, Status 400 "Invalid session")
  | Some sess =>
      match usableModel sess, names sess with
      | Some m, firstName :: _ =>
          let outDir := pathJoin (workDir L) sessionId in
          let outPath := pathJoin outDir "test.png" in
          let render :=
            composeImageWithText L m outPath (overlayOf (tStyle req) firstName) in
          match render (ensureDir (disk s) outDir) with
          | (d, Some _) =>
              let s' := {| sessions := <[sessionId := pushCleanup sess outDir]> (sessions s);
                           disk := d |} in
              match readFile outPath d with
              | (_, Some data) => (s', PreviewJson data)
              | (_, None) => (s', Status 500 "Test render failed.")
              end
          | (d, None) =>
              ({| sessions := sessions s; disk := d |}, Status 500 "Test render failed.")
          end
      | _, _ => (s, Status 400 "Missing model or names")
      end
  end.

(** *** POST /api/generate *)

Record generateRequest := {
  gSessionId : string;
  gStyle : style;
  gFormat : option string;
  gOffset : jsnum;       (* Number(offset) *)
  gLimit : jsnum;        (* Number(limit) *)
}.

Definition maxBatch : Z := 50.

(** [Number.isFinite(n) ? n : d] *)
Definition finiteOr (n : jsnum) (d : Q) : Q :=
  match n with
  | Fin q => q
  | NaN | PosInf | NegInf => d
  end.

(** [Math.max(0, Number.isFinite(Number(offset)) ? Number(offset) : 0)] *)
Definition windowStart (offset : jsnum) : Q := Qmax 0 (finiteOr offset 0).

(** [requested ? Math.max(1, Math.min(maxBatch, requested)) : undefined],
    where [requested] is [undefined] unless [Number(limit)] is finite. *)
Definition batchSize (limit : jsnum) : option Q :=
  match limit with
  | Fin requested =>
      if Qeq_bool requested 0 then None
      else Some (Qmax 1 (Qmin (inject_Z maxBatch) requested))
  | NaN | PosInf | NegInf => None
  end.

(** [batchSize ? Math.min(total, start + batchSize) : total] *)
Definition endExclusive (total : Z) (start : Q) (size : option Q) : Q :=
  match size with
  | Some b =>
      if Qeq_bool b 0 then inject_Z total
      else Qmin (inject_Z total) (roundDouble (start + b))
  | None => inject_Z total
  end.

(** Whether [idx < endExclusive] holds. *)
Definition lessThan (idx stop : Q) : bool := negb (Qle_bool stop idx).

(** [for (let idx = start; idx < endExclusive; idx++) body]: when [start] is
    an integer, [idx] takes the integers from [start] up to the last one
    below [endExclusive]; when it is not, the first turn, if there is one,
    reads [s.names[idx]] at an index that is no integer, gets [undefined],
    and [name.replace] throws. *)
Definition loopTurns (start stop : Q) : option (list Z) :=
  match asInteger start with
  | Some z => Some (seqZ z (Qceiling stop - z))
  | None => if lessThan start stop then None else Some []
  end.

(** The indices for which the loop derives a name and makes an artifact. *)
Definition windowIndices (total : Z) (offset limit : jsnum) : list Z :=
  let start := windowStart offset in
  default [] (loopTurns start (endExclusive total start (batchSize limit))).

Definition outputExt (format : option string) : string :=
  match format with
  | Some f => if String.eqb f "jpg" || String.eqb f "jpeg" then "jpg" else "png"
  | None => "png"
  end.

(** The template literal that names an artifact. *)
Definition artifactName (idx : Z) (name ext : string) : string :=
  padStart0 3 (ofInt (idx + 1)) +:+ "-" +:+ sanitize name +:+ "." +:+ ext.

(** [p.replace(/\.jpg$/, '.png')] *)
Fixpoint jpgToPng (p : string) : string :=
  match p with
  | EmptyString => EmptyString
  | String c p' => if String.eqb p ".jpg" then ".png" else String c (jpgToPng p')
  end.

(** [names[idx]] *)
Definition nameAt (l : list string) (idx : Z) : option string :=
  if idx <? 0 then None else l !! Z.to_nat idx.

Fixpoint forEach {A} (body : A -> io unit) (l : list A) : io unit :=
  match l with
  | [] => ioRet tt
  | a :: l' => let* _ := body a in forEach body l'
  end.

Definition generateOne (L : libs) (sess : session) (m outDir ext : string) (st : style)
    (idx : Z) : io unit :=
  let* name := ioSome (nameAt (names sess) idx) in
  let filename := artifactName idx name ext in
  let outPath := pathJoin outDir filename in
  if String.eqb ext "png" then
    composeImageWithText L m outPath (overlayOf st name)
  else
    let tmpPng := jpgToPng outPath in
    let* _ := composeImageWithText L m tmpPng (overlayOf st name) in
    let* _ := ioGuard (jpegOk L tmpPng) in
    let* png := readFile tmpPng in
    let* _ := writeFile L outPath (Jpeg 90 png) in
    unlinkSync L tmpPng.

Fixpoint dropChars (n : nat) (s : string) : string :=
  match n, s with
  | S n', String _ s' => dropChars n' s'
  | _, _ => s
  end.

(** [archive.directory(outDir, false)]: every file below [dir], under its path
    relative to [dir]. *)
Definition archiveEntries (d : gmap string node) (dir : string) : gmap string content :=
  let below := filter (fun kv => String.prefix (dir +:+ "/") kv.1 = true) d in
  list_to_map
    (omap (fun kv => match kv.2 with
                     | File c => Some (dropChars (S (String.length dir)) kv.1, c)
                     | Dir => None
                     end)
          (map_to_list below)).

Definition zipDirectory (L : libs) (outDir zipPath : string) : io unit :=
  let* _ := ioGuard (zipOk L zipPath) in
  ioModify (fun d => <[zipPath := File (Zip 9 (archiveEntries d outDir))]> d).

Definition generateHandler (L : libs) (req : generateRequest) (s : server)
  : server * response :=
  let sessionId := gSessionId req in
  match sessions s !! sessionId with
  | None => (s, Status 400 "Invalid session")
  | Some sess =>
      match usableModel sess with
      | None => (s, Status 400 "Missing model or names")
      | Some m =>
          let sessDir := pathJoin (workDir L) sessionId in
          let outDir := pathJoin sessDir "all" in
          let ext := outputExt (gFormat req) in
          let total := Z.of_nat (length (names sess)) in
          let start := windowStart (gOffset req) in
          let stop := endExclusive total start (batchSize (gLimit req)) in
          let zipPath := pathJoin sessDir "invitations.zip" in
          let run :=
            let* turns := ioSome (loopTurns start stop) in
            let* _ := forEach (generateOne L sess m outDir ext (gStyle req)) turns in
            zipDirectory L outDir zipPath in
          match run (ensureDir (disk s) outDir) with
          | (d, Some _) =>
              ({| sessions := <[sessionId := pushCleanup sess sessDir]> (sessions s);
                  disk := d |},
               GenerateJson ("/api/download/" +:+ sessionId) (roundDouble (stop - start))
                                                              start total)
          | (d, None) =>
              ({| sessions := sessions s; disk := d |}, Status 500 "Generation failed.")
          end
      end
  end.

(** *** GET /api/download/:sid

    The callback of [res.download] runs [cleanupSession] once the transfer has
    ended, whether it succeeded or not. *)
Definition downloadHandler (L : libs) (sid : string) (s : server) : server * response :=
  match sessions s !! sid with
  | None => (s, Status 400 "Invalid session")
  | Some _ =>
      let zipPath := pathJoin (pathJoin (workDir L) sid) "invitations.zip" in
      match disk s !! zipPath with
      | None => (s, Status 404 "ZIP not found")
      | Some (File c) => (cleanupSession L sid s, Download (Some c))
      | Some Dir => (cleanupSession L sid s, Download None)
      end
  end.

(** ** The specification's wording, for comparison with the code *)

Module Spec.

(** Split on newline, semicolon or comma, one character at a time. *)
Fixpoint splitOn (sep : ascii -> bool) (s : string) : list string :=
  match s with
  | EmptyString => [EmptyString]
  | String c s' =>
      if sep c then EmptyString :: splitOn sep s' else consHead c (splitOn sep s')
  end.

(** Split, trim, drop empties. *)
Definition tokens (text : string) : list string :=
  List.filter (fun t => negb (isEmpty t)) (map trim (splitOn isListSep text)).

(** A case-insensitive match against the denylist. *)
Definition deniedIgnoringCase (t : string) : bool :=
  String.eqb (toLowerCase t) "liste".

Definition names (text : string) : list string :=
  List.filter (fun t => negb (deniedIgnoringCase t)) (tokens text).

(** Every character outside [A-Za-z0-9_-] replaced by an underscore. *)
Fixpoint underscoreEach (s : string) : string :=
  match s with
  | EmptyString => EmptyString
  | String c s' => String (if isSlugChar c then c else "_"%char) (underscoreEach s')
  end.

Definition artifactName (idx : Z) (name ext : string) : string :=
  padStart0 3 (ofInt (idx + 1)) +:+ "-" +:+ underscoreEach name +:+ "." +:+ ext.

(** Runs of characters outside [A-Za-z0-9_-], marked and then squeezed:
    a character is kept ([Some c]) or belongs to a run ([None]). *)
Definition mark (s : string) : list (option ascii) :=
  map (fun c => if isSlugChar c then Some c else None) (list_ascii_of_string s).

Fixpoint squeeze (l : list (option ascii)) : list (option ascii) :=
  match l with
  | None :: (None :: _) as l' => squeeze l'
  | x :: l' => x :: squeeze l'
  | [] => []
  end.

Definition printMarks (l : list (option ascii)) : string :=
  string_of_list_ascii (map (default "_"%char) l).

Definition underscoreRuns (s : string) : string := printMarks (squeeze (mark s)).

(** The window of the data model:
    [[start, min(total, start + min(requested, cap)))]. *)
Definition windowLength (total start requested : Z) : Z :=
  Z.max 0 (Z.min total (start + Z.min requested maxBatch) - start).

End Spec.


(** ** Measures and sample inputs used by the properties *)

Definition windowLength (total : Z) (offset limit : jsnum) : Z :=
  Z.of_nat (length (windowIndices total offset limit)).

Definition isNegative (n : jsnum) : Prop :=
  match n with
  | Fin q => (q < 0)%Q
  | NegInf => True
  | NaN | PosInf => False
  end.

Definition sampleStyle (size : jsnum) : style :=
  {| stX := "100"; stY := "200"; stFontFamily := None; stFontSize := size;
     stColor := None |}.

Definition unreadable (ext : string) : listFile :=
  {| fileExt := ext; fileContent := None;
     sheetCells := fun _ => None; rawText := fun _ => None;
     pdfImport := true; pdfText := fun _ => None |}.

Definition pdfWarning : list string :=
  ["PDF parsing failed, continuing without PDF support:"].


(** A session whose template cannot be removed (the removal throws). *)
Definition lockedLibs : libs :=
  {| workDir := "/srv/work"; sharpMeta := fun _ => Some (800, 600);
     compositeOk := fun _ _ => true;
     jpegOk := fun _ => true; writeOk := fun _ => true; unlinkOk := fun _ => true;
     rmOk := fun p => negb (String.eqb p "/srv/uploads/1-model.png");
     zipOk := fun _ => true |}.

Definition sampleSession (id : string) (ns : list string) : session :=
  {| sessId := id; createdAt := 0; modelPath := Some "/srv/uploads/1-model.png";
     listPath := Some "/srv/uploads/1-list.csv"; names := ns;
     cleanup := ["/srv/uploads/1-model.png"; "/srv/uploads/1-list.csv"] |}.

Definition sampleServer (ns : list string) : server :=
  {| sessions := {[ "s1" := sampleSession "s1" ns ]};
     disk := {[ "/srv/uploads/1-model.png" := File (Uploaded "template");
                "/srv/uploads/1-list.csv" := File (Uploaded "list") ]} |}.

(** A list whose second line reads as the header once its blank is removed. *)
Definition spacedHeaderList : string := "Alice" +:+ String LF "Li ste".

Definition scenario1 : string :=
  "Alice" +:+ String LF ("Bob" +:+ String LF (",  ," +:+ String LF "Liste")).

(** The number a string of decimal digits reads as. *)
Definition decimalValue (s : string) : option N :=
  option_map N.of_uint (NilEmpty.uint_of_string s).

Fixpoint allChars (p : ascii -> bool) (s : string) : bool :=
  match s with
  | EmptyString => true
  | String c s' => p c && allChars p s'
  end.

Definition isDigit (c : ascii) : bool := between 48 57 c.

(** No two neighbouring characters are both outside [A-Za-z0-9_-]. *)
Fixpoint noBadPair (s : string) : bool :=
  match s with
  | String c ((String c2 _) as s') =>
      (isSlugChar c || isSlugChar c2) && noBadPair s'
  | _ => true
  end.

(** *** Reading an SVG source

    The text elements of an SVG source as a renderer finds them: for every
    [<text ...>] tag, its attributes and the characters up to [</text>]. *)
Inductive scanState :=
| Outside
| InTag (seen : string)              (* the tag so far, reversed *)
| InText (tag seen : string).        (* the content so far, reversed *)

Fixpoint scanText (st : scanState) (s : string) : list (string * string) :=
  match s with
  | EmptyString => []
  | String c s' =>
      match st with
      | Outside =>
          if String.prefix "<text" s then scanText (InTag EmptyString) s'
          else scanText Outside s'
      | InTag seen =>
          if Ascii.eqb c ">" then scanText (InText seen EmptyString) s'
          else scanText (InTag (String c seen)) s'
      | InText tag seen =>
          if String.prefix "</text>" s
          then (dropChars 4 (String.rev tag), String.rev seen) :: scanText Outside s'
          else scanText (InText tag (String c seen)) s'
      end
  end.

Definition textElements (svg : string) : list (string * string) :=
  scanText Outside svg.

(** A [y] that closes its attribute and the element, adds an element of its
    own and opens the next one:
    [20" class="t">Bob</text><text display="none" y="0]. *)
Definition hidingStyle : style :=
  {| stX := "100";
     stY := "20" +:+ String dquote
            (" class=" +:+ quoted "t" +:+ ">Bob</text><text display=" +:+ quoted "none"
             +:+ " y=" +:+ String dquote "0");
     stFontFamily := None; stFontSize := Fin 48; stColor := None |}.

(** *** Writes and removals

    A successful turn of the generation loop comes down to a list of writes
    and removals that does not depend on the disk it starts from. *)
Inductive diskOp :=
| Put (p : string) (c : content)
| Remove (p : string).

Definition opKey (op : diskOp) : string :=
  match op with Put p _ => p | Remove p => p end.

Definition applyOp (d : gmap string node) (op : diskOp) : gmap string node :=
  match op with
  | Put p c => <[p := File c]> d
  | Remove p => delete p d
  end.

Definition applyOps (d : gmap string node) (ops : list diskOp) : gmap string node :=
  foldl applyOp d ops.

(** What the operations make of the node at [k]. *)
Definition opEffect (k : string) (x : option node) (op : diskOp) : option node :=
  match op with
  | Put p c => if String.eqb p k then Some (File c) else x
  | Remove p => if String.eqb p k then None else x
  end.

Definition opsEffect (k : string) (x : option node) (ops : list diskOp) : option node :=
  foldl (opEffect k) x ops.

(** A computation that either throws on every disk or, on every disk, applies
    one fixed list of operations whose paths all satisfy [K]. *)
Definition uniformOn (K : string -> Prop) (m : io unit) : Prop :=
  (forall d, (m d).2 = None) \/
  (exists ops, Forall (fun op => K (opKey op)) ops /\
               forall d, m d = (applyOps d ops, Some tt)).

(** Libraries that all succeed, and libraries whose JPEG conversion throws. *)
Definition workingLibs : libs :=
  {| workDir := "/srv/work"; sharpMeta := fun _ => Some (800, 600);
     compositeOk := fun _ _ => true;
     jpegOk := fun _ => true; writeOk := fun _ => true; unlinkOk := fun _ => true;
     rmOk := fun _ => true; zipOk := fun _ => true |}.

Definition failingJpegLibs : libs :=
  {| workDir := "/srv/work"; sharpMeta := fun _ => Some (800, 600);
     compositeOk := fun _ _ => true;
     jpegOk := fun _ => false; writeOk := fun _ => true; unlinkOk := fun _ => true;
     rmOk := fun _ => true; zipOk := fun _ => true |}.

Definition sampleRequest (format : string) : generateRequest :=
  {| gSessionId := "s1"; gStyle := sampleStyle (Fin 48); gFormat := Some format;
     gOffset := NaN; gLimit := NaN |}.

(** The cleanup registry of a session, empty when there is no such session. *)
Definition registryOf (s : server) (id : string) : list string :=
  match sessions s !! id with
  | Some sess => cleanup sess
  | None => []
  end.

(** A piece of the source's split is the piece of the one-character split,
    less the CR that a CR LF separator swallowed. *)
Inductive sameButCR : string -> string -> Prop :=
| same_piece a : sameButCR a a
| lost_CR a : sameButCR a (a +:+ String CR EmptyString).


(** A computation that, when it succeeds, leaves nothing at [k]; and one that
    puts nothing at [k] where nothing was. *)
Definition clears (k : string) (m : io unit) : Prop :=
  forall d, (m d).2 = Some tt -> (m d).1 !! k = None.

Definition keepsAbsent (k : string) (m : io unit) : Prop :=
  forall d, d !! k = None -> (m d).2 = Some tt -> (m d).1 !! k = None.

(** ** The rest of the server *)

(** *** The stored name of an upload (multer's [filename] callback)

    [s.replace(/\s+/g, '_')]: [inRun] tells that the run of white space in
    progress has already put its underscore. *)
Fixpoint replaceSpaceRuns (inRun : bool) (s : string) : string :=
  match s with
  | EmptyString => EmptyString
  | String c s' =>
      if isWhiteSpace c
      then (if inRun then replaceSpaceRuns true s' else String "_" (replaceSpaceRuns true s'))
      else String c (replaceSpaceRuns false s')
  end.

(** [Date.now() + '-' + Math.round(Math.random() * 1e9) + '-' +
    file.originalname.replace(/\s+/g, '_')], with the two numbers given. *)
Definition storageFilename (now rnd : Z) (originalname : string) : string :=
  ofInt now +:+ "-" +:+ ofInt rnd +:+ "-" +:+ replaceSpaceRuns false originalname.

(** *** POST /api/upload *)

Record uploadRequest := {
  upFiles : bool;            (* req.files is defined *)
  upModel : option string;   (* req.files['model']?.[0], its path *)
  upList : option string;    (* req.files['list']?.[0], its path *)
  upListFile : listFile;     (* what extractNamesFromFile finds at the list's path *)
}.

Inductive uploadResponse :=
| UploadStatus (code : Z) (error : string)
| UploadJson (sessionId : string) (namesPreview : list string) (namesTotal : Z).

(** The handler, with the identifier and the time [newSession] draws. *)
Definition uploadHandler (id : string) (now : Z) (req : uploadRequest) (s : server)
  : server * uploadResponse :=
  let s0 := newSession id now s in
  if upFiles req then
    match upModel req, upList req with
    | Some model, Some listed =>
        let registered (ns : list string) :=
          {| sessions := <[id := {| sessId := id; createdAt := now;
                                    modelPath := Some model; listPath := Some listed;
                                    names := ns; cleanup := [model; listed] |}]> (sessions s0);
             disk := disk s0 |} in
        match (extractNamesFromFile (upListFile req)).1 with
        | Returned ns =>
            (registered ns, UploadJson id (take 50 ns) (Z.of_nat (length ns)))
        | Thrown _ => (registered [], UploadStatus 500 "Upload failed.")
        end
    | _, _ => (s0, UploadStatus 400 "Model image and list file are required.")
    end
  else (s0, UploadStatus 500 "Upload failed.").

(** ** Devices of the further properties *)

(** The names written one per line. *)
Fixpoint joinLines (l : list string) : string :=
  match l with
  | [] => EmptyString
  | [n] => n
  | n :: l' => n +:+ String LF (joinLines l')
  end.

Definition notListSep (c : ascii) : bool := negb (isListSep c).

(** The last character is white space. *)
Fixpoint lastSpace (s : string) : bool :=
  match s with
  | EmptyString => false
  | String c s' => if isEmpty s' then isWhiteSpace c else lastSpace s'
  end.

(** A name as the text formats give it: not empty, trimmed, free of
    separators and not the header. *)
Definition cleanName (t : string) : bool :=
  negb (isEmpty t) && String.eqb (trim t) t && allChars notListSep t && negb (isHeader t).

(** The escaping of one character of the text. *)
Definition escapeChar (c : ascii) : string :=
  if Ascii.eqb c "&" then "&amp;"
  else if Ascii.eqb c "<" then "&lt;"
  else if Ascii.eqb c ">" then "&gt;"
  else String c EmptyString.

Fixpoint escapeEach (s : string) : string :=
  match s with
  | EmptyString => EmptyString
  | String c s' => escapeChar c +:+ escapeEach s'
  end.

Definition notAngle (c : ascii) : bool := negb (Ascii.eqb c "<" || Ascii.eqb c ">").

(** A computation that, whether it succeeds or throws, changes the disk only
    at paths that satisfy [P]. *)
Definition touchesOnly (P : string -> bool) (m : io unit) : Prop :=
  forall d k, P k = false -> (m d).1 !! k = d !! k.

(** A computation that, whether it succeeds or throws, leaves a file wherever
    there was one. *)
Definition keepsFiles (m : io unit) : Prop :=
  forall d k c, d !! k = Some (File c) -> exists c', (m d).1 !! k = Some (File c').

(** A computation that, when it succeeds, leaves [n] at [k]; and one that,
    when it succeeds, leaves [n] at [k] if it was there. *)
Definition puts (k : string) (n : node) (m : io unit) : Prop :=
  forall d, (m d).2 = Some tt -> (m d).1 !! k = Some n.

Definition keepsNode (k : string) (n : node) (m : io unit) : Prop :=
  forall d, d !! k = Some n -> (m d).2 = Some tt -> (m d).1 !! k = Some n.

(** The image the generation makes of one name. *)
Definition artifactImage (m ext : string) (st : style) (wh : Z * Z) (name : string)
  : content :=
  let png := Png m (buildSVGText (overlayOf st name) (orDim wh.1 2000) (orDim wh.2 1000)) in
  if String.eqb ext "png" then png else Jpeg 90 png.

(** The path is below the directory [dir]. *)
Definition below (dir k : string) : bool := String.prefix (dir +:+ "/") k.

Definition notSpace (c : ascii) : bool := negb (isWhiteSpace c).

(** A list file whose extraction returns [ns] (a .csv made of these lines). *)
Definition csvOf (content : string) : listFile :=
  {| fileExt := ".csv"; fileContent := Some content;
     sheetCells := fun _ => None; rawText := fun _ => None;
     pdfImport := false; pdfText := fun _ => None |}.

Definition sampleUpload (f : listFile) : uploadRequest :=
  {| upFiles := true; upModel := Some "/srv/uploads/1-model.png";
     upList := Some "/srv/uploads/1-list.csv"; upListFile := f |}.

Definition uploadedDisk : server :=
  {| sessions := ∅;
     disk := {[ "/srv/uploads/1-model.png" := File (Uploaded "template");
                "/srv/uploads/1-list.csv" := File (Uploaded "list") ]} |}.

Definition slugOrDot (c : ascii) : bool := isSlugChar c || Ascii.eqb c ".".

(** No [<] of [s] can open a text element: each is followed, inside [s], by a
    character other than [t]. *)
Fixpoint opensNoText (s : string) : bool :=
  match s with
  | EmptyString => true
  | String c s' =>
      (if Ascii.eqb c "<"
       then match s' with
            | String c' _ => negb (Ascii.eqb c' "t")
            | EmptyString => false
            end
       else true) && opensNoText s'
  end.

(** The style fields that are spliced into the SVG source hold no angle bracket. *)
Definition plainStyle (st : style) : bool :=
  allChars notAngle (stX st) && allChars notAngle (stY st) &&
  allChars notAngle (orEmpty (stFontFamily st)) &&
  allChars notAngle (orEmpty (stColor st)).

(** Four names, and a request for a batch of two and a half names. *)
Definition fourNames : list string := ["Alice"; "Bob"; "Chloe"; "Dan"].

Definition windowRequest (offset limit : jsnum) : generateRequest :=
  {| gSessionId := "s1"; gStyle := sampleStyle (Fin 48); gFormat := None;
     gOffset := offset; gLimit := limit |}.
(** * Properties *)

(** ** Numbers *)

Lemma roundHalfEven_le a b K : 0 < b -> a <= K * b -> roundHalfEven a b <= K.
Proof.
  intros Hb Ha. unfold roundHalfEven.
  pose proof (Z.div_mod a b ltac:(lia)) as Hdm.
  pose proof (Z.mod_pos_bound a b Hb) as Hr.
  assert (a / b <= K) by nia.
  assert (a / b = K -> a mod b = 0) by nia.
  repeat case_match; lia.
Qed.

Lemma roundHalfEven_ge a b K : 0 < b -> K * b <= a -> K <= roundHalfEven a b.
Proof.
  intros Hb Ha. unfold roundHalfEven.
  pose proof (Z.div_mod a b ltac:(lia)) as Hdm.
  pose proof (Z.mod_pos_bound a b Hb) as Hr.
  assert (K <= a / b) by nia.
  repeat case_match; lia.
Qed.

Lemma binade_lower n d :
  0 < n -> 0 < d ->
  (0 <= binade n d -> d * 2 ^ binade n d <= n) /\
  (binade n d < 0 -> d <= n * 2 ^ (- binade n d)).
Proof.
  intros Hn Hd. unfold binade.
  destruct (Z.log2_spec n Hn) as [Hn1 _]. destruct (Z.log2_spec d Hd) as [_ Hd2].
  pose proof (Z.log2_nonneg n) as Ha. pose proof (Z.log2_nonneg d) as Hb.
  set (a := Z.log2 n) in *. set (b := Z.log2 d) in *.
  destruct (0 <=? a - b) eqn:Hc.
  - apply Z.leb_le in Hc. destruct (d * 2 ^ (a - b) <=? n) eqn:Ht.
    + apply Z.leb_le in Ht. split; [tauto | lia].
    + split.
      * intros He.
        assert (Hp : 2 ^ (Z.succ b) * 2 ^ (a - b - 1) = 2 ^ a).
        { rewrite <- Z.pow_add_r by lia. f_equal. lia. }
        assert (0 < 2 ^ (a - b - 1)) by (apply Z.pow_pos_nonneg; lia).
        nia.
      * intros He. assert (a - b = 0) as Hz by lia.
        replace (- (a - b - 1)) with 1 by lia.
        assert (a = b) as -> by lia. rewrite Z.pow_succ_r in Hd2 by lia. lia.
  - apply Z.leb_gt in Hc. destruct (d <=? n * 2 ^ (- (a - b))) eqn:Ht.
    + apply Z.leb_le in Ht. split; [lia | tauto].
    + split; [lia |]. intros _.
      assert (Hp : 2 ^ a * 2 ^ (- (a - b - 1)) = 2 ^ (Z.succ b)).
      { rewrite <- Z.pow_add_r by lia. f_equal. lia. }
      assert (0 < 2 ^ (- (a - b - 1))) by (apply Z.pow_pos_nonneg; lia).
      nia.
Qed.

(** Below [2^53] the last place is no coarser than the units. *)
Lemma binade_small n d : 0 < n -> 0 < d -> n < 2 ^ 53 * d -> binade n d <= 52.
Proof.
  intros Hn Hd Hlt. destruct (binade_lower n d Hn Hd) as [H1 _].
  destruct (Z_le_gt_dec (binade n d) 52) as [|Hgt]; [assumption | exfalso].
  specialize (H1 ltac:(lia)).
  assert (2 ^ 53 <= 2 ^ binade n d) by (apply Z.pow_le_mono_r; lia).
  nia.
Qed.

Lemma roundPos_le n d N :
  0 < n -> 0 < d -> n < 2 ^ 53 * d -> n <= N * d -> (roundPos n d <= inject_Z N)%Q.
Proof.
  intros Hn Hd Hlt Hle. unfold roundPos.
  pose proof (binade_small n d Hn Hd Hlt) as He.
  set (s := Z.max (binade n d - 52) (-1074)).
  assert (Hs : s <= 0) by lia.
  destruct (0 <=? s) eqn:H0.
  - apply Z.leb_le in H0. assert (s = 0) as -> by lia.
    rewrite Z.pow_0_r, !Z.mul_1_r. rewrite <- Zle_Qle.
    apply roundHalfEven_le; lia.
  - assert (Hp : 0 < 2 ^ (- s)) by (apply Z.pow_pos_nonneg; lia).
    unfold Qle; cbn [Qnum Qden inject_Z]. rewrite Z2Pos.id by lia.
    rewrite Z.mul_1_r. apply roundHalfEven_le; [lia | nia].
Qed.

Lemma roundPos_ge n d N :
  0 < n -> 0 < d -> n < 2 ^ 53 * d -> N * d <= n -> (inject_Z N <= roundPos n d)%Q.
Proof.
  intros Hn Hd Hlt Hle. unfold roundPos.
  pose proof (binade_small n d Hn Hd Hlt) as He.
  set (s := Z.max (binade n d - 52) (-1074)).
  assert (Hs : s <= 0) by lia.
  destruct (0 <=? s) eqn:H0.
  - apply Z.leb_le in H0. assert (s = 0) as -> by lia.
    rewrite Z.pow_0_r, !Z.mul_1_r. rewrite <- Zle_Qle.
    apply roundHalfEven_ge; lia.
  - assert (Hp : 0 < 2 ^ (- s)) by (apply Z.pow_pos_nonneg; lia).
    unfold Qle; cbn [Qnum Qden inject_Z]. rewrite Z2Pos.id by lia.
    rewrite Z.mul_1_r. apply roundHalfEven_ge; [lia | nia].
Qed.

(** Rounding does not cross an integer, below [2^53]. *)
Lemma roundDouble_le q N :
  (0 < q)%Q -> (q < inject_Z (2 ^ 53))%Q -> (q <= inject_Z N)%Q ->
  (roundDouble q <= inject_Z N)%Q.
Proof.
  intros Hq Hlt Hle. unfold roundDouble. rewrite Qred_correct.
  destruct q as [n d]. unfold Qlt, Qle in *; cbn [Qnum Qden inject_Z] in *.
  destruct n as [|n|n]; try lia.
  apply roundPos_le; lia.
Qed.

Lemma roundDouble_ge q N :
  (0 < q)%Q -> (q < inject_Z (2 ^ 53))%Q -> (inject_Z N <= q)%Q ->
  (inject_Z N <= roundDouble q)%Q.
Proof.
  intros Hq Hlt Hle. unfold roundDouble. rewrite Qred_correct.
  destruct q as [n d]. unfold Qlt, Qle in *; cbn [Qnum Qden inject_Z] in *.
  destruct n as [|n|n]; try lia.
  apply roundPos_ge; lia.
Qed.


Lemma Qred_inject_Z z : Qred (inject_Z z) = inject_Z z.
Proof.
  unfold Qred, inject_Z; cbn [Qnum Qden].
  pose proof (Z.ggcd_gcd z 1) as Hg. pose proof (Z.ggcd_correct_divisors z 1) as Hd.
  destruct (Z.ggcd z 1) as [g [a b]]. cbn [fst snd] in *.
  rewrite Z.gcd_1_r in Hg. subst g. destruct Hd as [Ha Hb].
  replace a with z by lia. replace b with 1 by lia. reflexivity.
Qed.

Lemma roundDouble_integer q z :
  (q == inject_Z z)%Q -> Z.abs z < 2 ^ 53 -> roundDouble q = inject_Z z.
Proof.
  intros Hq Hz.
  assert (Hred : forall x, (x == inject_Z z)%Q -> Qred x = inject_Z z).
  { intros x Hx. rewrite (Qred_complete _ _ Hx). apply Qred_inject_Z. }
  unfold roundDouble. apply Hred.
  destruct q as [n d]. unfold Qeq in Hq; cbn [Qnum Qden inject_Z] in *.
  rewrite Z.mul_1_r in Hq.
  assert (Hd : 0 < Z.pos d) by lia.
  destruct n as [|n|n].
  - unfold Qeq; cbn. nia.
  - apply Qle_antisym.
    + apply roundPos_le; nia.
    + apply roundPos_ge; nia.
  - assert (roundPos (Z.pos n) (Z.pos d) == inject_Z (- z))%Q as ->.
    { apply Qle_antisym; [apply roundPos_le | apply roundPos_ge]; nia. }
    unfold Qeq; cbn. lia.
Qed.

(** ** The batch window *)

Lemma asInteger_Some q z : asInteger q = Some z <-> (q == inject_Z z)%Q.
Proof.
  unfold asInteger. split.
  - destruct (Qeq_bool q (inject_Z (Qfloor q))) eqn:E; [|discriminate].
    intros [= <-]. apply Qeq_bool_eq, E.
  - intros H. rewrite (Qfloor_comp _ _ H), Qfloor_Z.
    rewrite (proj2 (Qeq_bool_iff _ _) H). reflexivity.
Qed.

Lemma windowStart_nonneg offset : (0 <= windowStart offset)%Q.
Proof. apply Q.le_max_l. Qed.

Lemma batchSize_range limit b :
  batchSize limit = Some b -> (1 <= b <= inject_Z maxBatch)%Q.
Proof.
  unfold batchSize. destruct limit as [| | |r]; try discriminate.
  destruct (Qeq_bool r 0); [discriminate|]. intros [= <-]. split.
  - apply Q.le_max_l.
  - apply Q.max_lub; [unfold maxBatch, Qle; cbn; lia | apply Q.le_min_l].
Qed.

Lemma batchSize_Some r :
  ~ (r == 0)%Q -> batchSize (Fin r) = Some (Qmax 1 (Qmin (inject_Z maxBatch) r)).
Proof.
  intros Hr. unfold batchSize. destruct (Qeq_bool r 0) eqn:E; [|reflexivity].
  apply Qeq_bool_eq in E. contradiction.
Qed.

Lemma endExclusive_le total start size :
  (endExclusive total start size <= inject_Z total)%Q.
Proof.
  unfold endExclusive. destruct size as [b|]; [|apply Qle_refl].
  destruct (Qeq_bool b 0); [apply Qle_refl | apply Q.le_min_l].
Qed.

Lemma endExclusive_Some total start b :
  (1 <= b)%Q ->
  endExclusive total start (Some b) = Qmin (inject_Z total) (roundDouble (start + b)).
Proof.
  intros Hb. unfold endExclusive. destruct (Qeq_bool b 0) eqn:E; [|reflexivity].
  apply Qeq_bool_eq in E. lra.
Qed.

Lemma Qceiling_le_Z q n : (q <= inject_Z n)%Q -> Qceiling q <= n.
Proof. intros H. rewrite <- (Qceiling_Z n). apply Qceiling_resp_le, H. Qed.

Lemma Qceiling_gt q n : (inject_Z n < q)%Q -> n < Qceiling q.
Proof.
  intros H. pose proof (Qle_ceiling q) as Hc.
  rewrite Zlt_Qlt. lra.
Qed.

Lemma windowIndices_integer total offset limit z :
  (windowStart offset == inject_Z z)%Q ->
  windowIndices total offset limit =
  seqZ z (Qceiling (endExclusive total (windowStart offset) (batchSize limit)) - z).
Proof.
  intros Hz. unfold windowIndices, loopTurns.
  rewrite (proj2 (asInteger_Some _ _) Hz). reflexivity.
Qed.

Lemma windowIndices_fraction total offset limit :
  asInteger (windowStart offset) = None -> windowIndices total offset limit = [].
Proof.
  intros Hz. unfold windowIndices, loopTurns. rewrite Hz.
  destruct (lessThan _ _); reflexivity.
Qed.

(** Every index of the window is an index of the list, and the offset is an
    integer when there is one. *)
Lemma windowIndices_lookup total offset limit k idx :
  windowIndices total offset limit !! k = Some idx ->
  (inject_Z idx == windowStart offset + inject_Z (Z.of_nat k))%Q /\ 0 <= idx < total.
Proof.
  intros Hk. destruct (asInteger (windowStart offset)) as [z|] eqn:Hz.
  - apply asInteger_Some in Hz.
    rewrite (windowIndices_integer _ _ _ z Hz) in Hk.
    apply lookup_seqZ in Hk as [-> Hlt].
    pose proof (windowStart_nonneg offset) as H0.
    pose proof (endExclusive_le total (windowStart offset) (batchSize limit)) as Hle.
    apply Qceiling_le_Z in Hle.
    assert (0 <= z) by (rewrite Zle_Qle; change (inject_Z 0) with 0%Q; lra).
    split; [rewrite inject_Z_plus, Hz; reflexivity | lia].
  - rewrite windowIndices_fraction in Hk by assumption. discriminate.
Qed.

Lemma windowIndices_elem total offset limit idx :
  idx ∈ windowIndices total offset limit -> 0 <= idx < total.
Proof.
  intros Hin. apply list_elem_of_lookup in Hin as [k Hk].
  apply windowIndices_lookup in Hk. tauto.
Qed.

Lemma windowLength_integer total offset limit z :
  (windowStart offset == inject_Z z)%Q ->
  windowLength total offset limit =
  Z.max 0 (Qceiling (endExclusive total (windowStart offset) (batchSize limit)) - z).
Proof.
  intros Hz. unfold windowLength. rewrite (windowIndices_integer _ _ _ z Hz), length_seqZ.
  lia.
Qed.

(** With a batch size, the window ends no later than [start + ceil(batchSize)]. *)
Lemma endExclusive_batch total offset b z :
  0 <= total < 2 ^ 32 ->
  (windowStart offset == inject_Z z)%Q -> z < total -> (1 <= b <= inject_Z maxBatch)%Q ->
  Qceiling (endExclusive total (windowStart offset) (Some b)) <= z + Qceiling b.
Proof.
  intros Ht Hz Hlt [Hb1 Hb2]. rewrite endExclusive_Some by assumption.
  pose proof (windowStart_nonneg offset) as H0.
  pose proof (Qle_ceiling b) as Hc.
  assert (Hzt : (inject_Z z < inject_Z total)%Q) by (rewrite <- Zlt_Qlt; lia).
  assert (H32 : (inject_Z total < inject_Z (2 ^ 32))%Q) by (rewrite <- Zlt_Qlt; lia).
  apply Qceiling_le_Z. eapply Qle_trans; [apply Q.le_min_r|].
  apply roundDouble_le.
  - lra.
  - unfold maxBatch in Hb2. change (inject_Z (2 ^ 32)) with (4294967296 # 1)%Q in H32.
    change (inject_Z (2 ^ 53)) with (9007199254740992 # 1)%Q.
    change (inject_Z 50) with (50 # 1)%Q in Hb2. lra.
  - rewrite inject_Z_plus. lra.
Qed.

Lemma Qmin_inject a b : (Qmin (inject_Z a) (inject_Z b) == inject_Z (Z.min a b))%Q.
Proof.
  destruct (Z.min_spec a b) as [[Hlt ->]|[Hle ->]].
  - apply Q.min_l. rewrite <- Zle_Qle. lia.
  - apply Q.min_r. rewrite <- Zle_Qle. lia.
Qed.

Lemma Qmax_inject a b : (Qmax (inject_Z a) (inject_Z b) == inject_Z (Z.max a b))%Q.
Proof.
  destruct (Z.max_spec a b) as [[Hlt ->]|[Hle ->]].
  - apply Q.max_r. rewrite <- Zle_Qle. lia.
  - apply Q.max_l. rewrite <- Zle_Qle. lia.
Qed.

Ltac literals :=
  unfold maxBatch in *;
  change (inject_Z 0) with 0%Q in *;
  change (inject_Z 1) with 1%Q in *;
  change (inject_Z 50) with (50 # 1)%Q in *;
  change (inject_Z (2 ^ 32)) with (4294967296 # 1)%Q in *;
  change (inject_Z (2 ^ 53)) with (9007199254740992 # 1)%Q in *.

(** An offset inside the list lies before the end of the window. *)
Lemma start_before_stop total offset limit :
  0 <= total < 2 ^ 32 ->
  (windowStart offset < inject_Z total)%Q ->
  (windowStart offset < endExclusive total (windowStart offset) (batchSize limit))%Q.
Proof.
  intros Ht Hlt. pose proof (windowStart_nonneg offset) as H0.
  set (start := windowStart offset) in *.
  destruct (batchSize limit) as [b|] eqn:Hb; [|exact Hlt].
  apply batchSize_range in Hb as [Hb1 Hb2].
  rewrite endExclusive_Some by assumption.
  apply Q.min_glb_lt; [exact Hlt|].
  assert (H32 : (inject_Z total < inject_Z (2 ^ 32))%Q) by (rewrite <- Zlt_Qlt; lia).
  pose proof (Qlt_floor start) as Hf. pose proof (Qfloor_le start) as Hf'.
  rewrite inject_Z_plus in Hf.
  eapply Qlt_le_trans; [exact Hf|]. rewrite <- inject_Z_plus.
  apply roundDouble_ge; [| |rewrite inject_Z_plus]; literals; lra.
Qed.

(** An offset that is not an integer and lies inside the list: the first turn
    of the loop throws. *)
Lemma loopTurns_fraction total offset limit :
  0 <= total < 2 ^ 32 ->
  asInteger (windowStart offset) = None ->
  (windowStart offset < inject_Z total)%Q ->
  loopTurns (windowStart offset)
            (endExclusive total (windowStart offset) (batchSize limit)) = None.
Proof.
  intros Ht Hz Hlt. unfold loopTurns. rewrite Hz. unfold lessThan.
  pose proof (start_before_stop total offset limit Ht Hlt) as Hss.
  destruct (Qle_bool _ _) eqn:E; [|reflexivity].
  apply Qle_bool_iff in E. lra.
Qed.

(** The end of the window for an integer offset below 2^52 and an integer
    limit that is not zero. *)
Lemma endExclusive_integers total offset requested o l :
  0 <= o < 2 ^ 52 -> l <> 0 ->
  (windowStart offset == inject_Z o)%Q -> (requested == inject_Z l)%Q ->
  (endExclusive total (windowStart offset) (batchSize (Fin requested))
   == inject_Z (Z.min total (o + Z.max 1 (Z.min maxBatch l))))%Q.
Proof.
  intros Ho Hl Hz Hr.
  assert (Hne : ~ (requested == 0)%Q).
  { rewrite Hr. intros E. apply (inject_Z_injective l 0) in E. contradiction. }
  rewrite (batchSize_Some _ Hne).
  pose proof (batchSize_range _ _ (batchSize_Some _ Hne)) as Hrange.
  set (b := Qmax 1 (Qmin (inject_Z maxBatch) requested)) in *.
  assert (Hbz : (b == inject_Z (Z.max 1 (Z.min maxBatch l)))%Q).
  { subst b. rewrite Hr, Qmin_inject. change 1%Q with (inject_Z 1).
    apply Qmax_inject. }
  rewrite endExclusive_Some by apply Hrange.
  rewrite (roundDouble_integer _ (o + Z.max 1 (Z.min maxBatch l))).
  - apply Qmin_inject.
  - rewrite inject_Z_plus, Hz, Hbz. reflexivity.
  - unfold maxBatch. lia.
Qed.

(** C2, as the claim states it, fails: without a limit the whole list is
    processed, here 120 names against the cap of 50. *)
Lemma window_unbounded_without_limit :
  ~ (windowLength 120 NaN NaN <= maxBatch).
Proof. vm_compute. intros H. apply H. reflexivity. Qed.

(** C2 (amended): for a list of fewer than 2^32 names, the window (the names
    for which the loop makes an artifact) never holds more names than the
    list has and is empty when the offset is at or past the end of the list.
    When a limit is supplied and is not zero, the window holds at most 50
    names, at most max(1, limit) names rounded up to an integer (a limit of
    2.5 gives 3) and at most the names left after the offset; for an integer
    offset and an integer limit of at least 1 its length is the data model's
    [min(total, start + min(limit, 50)) - start], hence at most
    min(limit, 50, names left).  Without a limit (absent, not finite or zero)
    the window runs from an integer offset to the end of the list and no cap
    applies.  When the offset is not an integer no artifact is made, and the
    first turn of the loop throws whenever the offset lies inside the list. *)
Theorem window_bounds (total : Z) (offset limit : jsnum) :
  0 <= total < 2 ^ 32 ->
  let start := windowStart offset in
  let stop := endExclusive total start (batchSize limit) in
  let len := windowLength total offset limit in
  0 <= len <= total /\
  ((inject_Z total <= start)%Q -> len = 0) /\
  (forall requested, limit = Fin requested -> ~ (requested == 0)%Q ->
     len <= maxBatch /\ len <= Qceiling (Qmax 1 requested) /\
     (inject_Z len <= Qmax 0 (inject_Z total - start))%Q) /\
  (forall o requested r,
     (start == inject_Z o)%Q -> limit = Fin requested ->
     (requested == inject_Z r)%Q -> 1 <= r ->
     len = Spec.windowLength total o r /\
     len <= Z.min r (Z.min maxBatch (Z.max 0 (total - o)))) /\
  (forall o, (start == inject_Z o)%Q -> batchSize limit = None ->
     len = Z.max 0 (total - o)) /\
  (asInteger start = None ->
     len = 0 /\ ((start < inject_Z total)%Q -> loopTurns start stop = None)).
Proof.
  intros Ht start stop len.
  pose proof (windowStart_nonneg offset) as H0. fold start in H0.
  pose proof (endExclusive_le total start (batchSize limit)) as Hstop. fold stop in Hstop.
  assert (Hceil : Qceiling stop <= total) by (apply Qceiling_le_Z, Hstop).
  assert (Hlen : forall z, (start == inject_Z z)%Q ->
            0 <= z /\ len = Z.max 0 (Qceiling stop - z)).
  { intros z Hz. split; [rewrite Zle_Qle; literals; lra|].
    apply windowLength_integer, Hz. }
  assert (Hnone : asInteger start = None -> len = 0).
  { intros Hz. unfold len, windowLength.
    rewrite windowIndices_fraction by exact Hz. reflexivity. }
  assert (Hcases : (exists z, (start == inject_Z z)%Q) \/ asInteger start = None).
  { destruct (asInteger start) as [z|] eqn:Hz; [left|right; reflexivity].
    exists z. apply asInteger_Some, Hz. }
  split; [|split; [|split; [|split; [|split]]]].
  - destruct Hcases as [[z Hz]|Hz].
    + destruct (Hlen z Hz) as [Hz0 ->]. lia.
    + rewrite (Hnone Hz). lia.
  - intros Hge. destruct Hcases as [[z Hz]|Hz]; [|exact (Hnone Hz)].
    destruct (Hlen z Hz) as [Hz0 ->].
    assert (total <= z) by (rewrite Zle_Qle; lra). lia.
  - intros r -> Hr.
    assert (Hb : batchSize (Fin r) = Some (Qmax 1 (Qmin (inject_Z maxBatch) r)))
      by (apply batchSize_Some, Hr).
    pose proof (batchSize_range _ _ Hb) as Hrange.
    set (b := Qmax 1 (Qmin (inject_Z maxBatch) r)) in *.
    assert (Hcb : 1 <= Qceiling b <= maxBatch).
    { split.
      - assert (0 < Qceiling b) by (apply Qceiling_gt; literals; lra). lia.
      - apply Qceiling_le_Z, Hrange. }
    assert (Hcr : Qceiling b <= Qceiling (Qmax 1 r)).
    { apply Qceiling_resp_le. subst b.
      apply Q.max_le_compat_l, Q.le_min_r. }
    destruct Hcases as [[z Hz]|Hz].
    + destruct (Hlen z Hz) as [Hz0 Hl].
      assert (Hleft : (inject_Z len <= Qmax 0 (inject_Z total - start))%Q).
      { rewrite Hz. unfold Qminus. rewrite <- inject_Z_opp, <- inject_Z_plus.
        change 0%Q with (inject_Z 0). rewrite Qmax_inject, <- Zle_Qle. lia. }
      destruct (Z_lt_le_dec z total) as [Hin|Hout]; [|repeat split; [lia..|exact Hleft]].
      pose proof (endExclusive_batch total offset b z Ht Hz Hin Hrange) as Hend.
      unfold stop in Hl. rewrite Hb in Hl. fold start in Hend.
      repeat split; [lia..|exact Hleft].
    + rewrite (Hnone Hz). repeat split; [unfold maxBatch; lia | lia |].
      apply Q.le_max_l.
  - intros o requested r Hz -> Hr H1.
    destruct (Hlen o Hz) as [Hz0 Hl]. unfold Spec.windowLength.
    assert (Hne : ~ (requested == 0)%Q).
    { rewrite Hr. intros E. apply (inject_Z_injective r 0) in E. lia. }
    assert (Hb : batchSize (Fin requested)
                 = Some (Qmax 1 (Qmin (inject_Z maxBatch) requested)))
      by (apply batchSize_Some, Hne).
    pose proof (batchSize_range _ _ Hb) as Hrange.
    set (b := Qmax 1 (Qmin (inject_Z maxBatch) requested)) in *.
    assert (Hbz : (b == inject_Z (Z.min r maxBatch))%Q).
    { subst b. rewrite Hr, Qmin_inject. change 1%Q with (inject_Z 1).
      rewrite Qmax_inject. f_equiv. unfold maxBatch. lia. }
    destruct (Z_lt_le_dec o total) as [Hin|Hout]; [|unfold maxBatch; lia].
    assert (Hend : (stop == inject_Z (Z.min total (o + Z.min r maxBatch)))%Q).
    { unfold stop. rewrite Hb, endExclusive_Some by apply Hrange.
      rewrite (roundDouble_integer _ (o + Z.min r maxBatch)).
      - apply Qmin_inject.
      - rewrite inject_Z_plus, Hz, Hbz. reflexivity.
      - unfold maxBatch. lia. }
    rewrite (Qceiling_comp _ _ Hend), Qceiling_Z in Hl.
    unfold maxBatch in *. lia.
  - intros o Hz Hb. destruct (Hlen o Hz) as [Hz0 Hl].
    unfold stop in Hl. rewrite Hb in Hl. cbn [endExclusive] in Hl.
    rewrite Qceiling_Z in Hl. exact Hl.
  - intros Hz. split; [exact (Hnone Hz)|]. intros Hlt.
    unfold loopTurns. rewrite Hz. unfold lessThan.
    pose proof (start_before_stop total offset limit Ht Hlt) as Hss. fold start stop in Hss.
    destruct (Qle_bool stop start) eqn:E; [|reflexivity].
    apply Qle_bool_iff in E. lra.
Qed.

Lemma window_bounds_witness :
  windowLength 120 (Fin 50) (Fin 10) = Spec.windowLength 120 50 10 /\
  windowLength 120 (Fin 50) (Fin 10)
    <= Z.min 10 (Z.min maxBatch (Z.max 0 (120 - 50))).
Proof.
  assert (Hrange : 0 <= 120 < 2 ^ 32) by (split; [discriminate | reflexivity]).
  pose proof (window_bounds 120 (Fin 50) (Fin 10) Hrange) as H.
  cbv zeta in H. destruct H as (_ & _ & _ & H & _).
  apply (H 50 10%Q 10); [reflexivity | reflexivity | reflexivity | lia].
Defined.

(** ** The text layer *)

(** C9, as the claim states it, fails: a font size of -12 is not replaced by
    the default and the text layer carries it as it is. *)
Lemma negative_font_size_kept :
  let layer := buildSVGText (overlayOf (sampleStyle (Fin (-12 # 1))) "Alice") 2000 1000 in
  svgFontSize layer = Fin (-12 # 1) /\ ~ isPositive (svgFontSize layer).
Proof.
  split; [reflexivity|]. simpl. intros H. apply Qlt_not_le in H. apply H.
  discriminate.
Qed.

Lemma numTruthy_sign (n : jsnum) :
  numTruthy n = true -> isPositive n \/ isNegative n.
Proof.
  destruct n as [| | |q]; simpl; try discriminate; auto.
  intros H. apply negb_true_iff in H.
  destruct (Q_dec q 0) as [[Hlt|Hgt]|Heq]; auto.
  apply Qeq_bool_iff in Heq. congruence.
Qed.

Lemma positive_not_negative (n : jsnum) : isPositive n -> ~ isNegative n.
Proof.
  destruct n as [| | |q]; simpl; auto.
  intros Hp Hn. exact (Qlt_irrefl 0 (Qlt_trans _ _ _ Hp Hn)).
Qed.

(** C9 (amended): the default size 48 is applied exactly when
    [Number(fontSize)] is NaN (absent, not a number) or zero; every other
    number, a negative one included, is carried as it is.  So the text layer's
    font size is never NaN or zero, and it is positive exactly when the
    supplied size is not negative.  An absent or empty color gives the default
    [#000000], any other color is kept. *)
Theorem font_size_and_color_defaults (o : overlay) (w h : Z) :
  let layer := buildSVGText o w h in
  (numTruthy (ovFontSize o) = false -> svgFontSize layer = Fin 48) /\
  (numTruthy (ovFontSize o) = true -> svgFontSize layer = ovFontSize o) /\
  numTruthy (svgFontSize layer) = true /\
  (isPositive (svgFontSize layer) <-> ~ isNegative (ovFontSize o)) /\
  (ovColor o = None \/ ovColor o = Some EmptyString -> svgFill layer = "#000000") /\
  (forall c, ovColor o = Some c -> c <> EmptyString -> svgFill layer = c).
Proof.
  simpl. destruct (numTruthy (ovFontSize o)) eqn:Ht.
  - repeat split; try congruence.
    + apply positive_not_negative.
    + intros Hn. destruct (numTruthy_sign _ Ht); [assumption|contradiction].
    + intros [-> | ->]; reflexivity.
    + intros c -> Hc. destruct c; [contradiction|reflexivity].
  - repeat split; try congruence; try reflexivity.
    + intros _. destruct (ovFontSize o) as [| | |q]; simpl in *; try discriminate; auto.
      apply negb_false_iff, Qeq_bool_iff in Ht. intros Hq.
      rewrite Ht in Hq. exact (Qlt_irrefl 0 Hq).
    + intros [-> | ->]; reflexivity.
    + intros c -> Hc. destruct c; [contradiction|reflexivity].
Qed.

Lemma font_size_and_color_defaults_witness :
  svgFontSize (buildSVGText (overlayOf (sampleStyle NaN) "Alice") 2000 1000) = Fin 48 /\
  svgFill (buildSVGText (overlayOf (sampleStyle NaN) "Alice") 2000 1000) = "#000000".
Proof.
  pose proof (font_size_and_color_defaults
                (overlayOf (sampleStyle NaN) "Alice") 2000 1000) as H.
  destruct H as (H1 & _ & _ & _ & H5 & _).
  split; [apply H1; reflexivity | apply H5; left; reflexivity].
Defined.

(** ** Failures of the extraction *)

(** C5, as the claim states it, fails: a PDF that cannot be read at all does
    not surface an error, the extraction returns no names and a warning. *)
Lemma unreadable_pdf_swallowed :
  extractNamesFromFile (unreadable ".pdf") = (Returned [], pdfWarning) /\
  ~ (exists e log, extractNamesFromFile (unreadable ".pdf") = (Thrown e, log)).
Proof.
  split; [reflexivity|]. intros (e & log & H). discriminate H.
Qed.

Ltac other_ext Hn s :=
  let e := fresh "e" in
  destruct (String.eqb_spec s ".csv") as [e|_];
    [exfalso; apply Hn; rewrite e; simpl; tauto|];
  destruct (String.eqb_spec s ".xlsx") as [e|_];
    [exfalso; apply Hn; rewrite e; simpl; tauto|];
  destruct (String.eqb_spec s ".xls") as [e|_];
    [exfalso; apply Hn; rewrite e; simpl; tauto|];
  destruct (String.eqb_spec s ".docx") as [e|_];
    [exfalso; apply Hn; rewrite e; simpl; tauto|];
  destruct (String.eqb_spec s ".pdf") as [e|_];
    [exfalso; apply Hn; rewrite e; simpl; tauto|].

(** C5 (amended): a file that cannot be read surfaces a read error for the
    extensions .csv, .xlsx, .xls and .docx only; for .pdf it gives the empty
    sequence with a warning and for any other extension the empty sequence
    without one.  A parsing failure is swallowed (empty sequence, warning) for
    .pdf only; for .xlsx, .xls and .docx it is thrown to the caller. *)
Theorem extract_failure_modes (f : listFile) :
  let ext := fileExt f in
  let fatal := [".csv"; ".xlsx"; ".xls"; ".docx"] in
  (fileContent f = None ->
     (In ext fatal -> extractNamesFromFile f = (Thrown ReadFailure, [])) /\
     (ext = ".pdf" -> extractNamesFromFile f = (Returned [], pdfWarning)) /\
     (~ In ext (".pdf" :: fatal) -> extractNamesFromFile f = (Returned [], []))) /\
  (forall content, fileContent f = Some content ->
     (ext = ".pdf" -> pdfImport f = false \/ pdfText f content = None ->
        extractNamesFromFile f = (Returned [], pdfWarning)) /\
     (ext = ".xlsx" \/ ext = ".xls" -> sheetCells f content = None ->
        extractNamesFromFile f = (Thrown ParseFailure, [])) /\
     (ext = ".docx" -> rawText f content = None ->
        extractNamesFromFile f = (Thrown ParseFailure, []))).
Proof.
  simpl. unfold extractNamesFromFile, pdfWarning. split.
  - intros ->. repeat split.
    + intros [<-|[<-|[<-|[<-|[]]]]]; reflexivity.
    + intros ->; reflexivity.
    + intros Hn. other_ext Hn (fileExt f). reflexivity.
  - intros content ->. repeat split.
    + intros -> [Hi|Hp]; simpl; [rewrite Hi; reflexivity|].
      rewrite Hp. destruct (pdfImport f); reflexivity.
    + intros [-> | ->] ->; reflexivity.
    + intros -> ->; reflexivity.
Qed.

Lemma extract_failure_modes_witness :
  extractNamesFromFile (unreadable ".csv") = (Thrown ReadFailure, []) /\
  extractNamesFromFile (unreadable ".txt") = (Returned [], []).
Proof.
  split.
  - apply (extract_failure_modes (unreadable ".csv")); [reflexivity|].
    simpl. left. reflexivity.
  - apply (extract_failure_modes (unreadable ".txt")); [reflexivity|].
    simpl. intros H. repeat (destruct H as [H|H]; [discriminate H|]). exact H.
Defined.

(** ** Session destruction *)

Lemma removePath_lookup L d p k :
  removePath L d p !! k = d !! k \/ removePath L d p !! k = None.
Proof.
  unfold removePath.
  destruct (negb (isEmpty p) && existsSync d p); [|by left].
  destruct (rmOk L p); [|by left].
  unfold rmSync. destruct (under p k) eqn:Hu.
  - right. apply map_lookup_filter_None. right. intros x _. simpl. congruence.
  - destruct (d !! k) as [x|] eqn:Hk.
    + left. apply map_lookup_filter_Some. split; [done|]. exact Hu.
    + right. apply map_lookup_filter_None. by left.
Qed.

Lemma removePath_none L d p k : d !! k = None -> removePath L d p !! k = None.
Proof. intros H. destruct (removePath_lookup L d p k) as [-> | ->]; done. Qed.

Lemma cleanup_fold_none L l d k :
  d !! k = None -> foldl (removePath L) d l !! k = None.
Proof.
  revert d. induction l as [|p l IH]; intros d H; simpl; [done|].
  apply IH, removePath_none, H.
Qed.

Lemma under_refl p : under p p = true.
Proof. unfold under. by rewrite String.eqb_refl. Qed.

Lemma removePath_self L d p :
  p <> EmptyString -> rmOk L p = true -> removePath L d p !! p = None.
Proof.
  intros Hp Hrm. unfold removePath, existsSync.
  destruct p as [|c p]; [done|]. simpl.
  case_bool_decide as He.
  - rewrite Hrm. unfold rmSync. apply map_lookup_filter_None. right.
    intros x _. simpl. rewrite under_refl. done.
  - destruct (d !! String c p) eqn:Hd; [|done]. exfalso. apply He. eauto.
Qed.

Lemma cleanup_fold_gone L l d p :
  In p l -> p <> EmptyString -> rmOk L p = true ->
  foldl (removePath L) d l !! p = None.
Proof.
  revert d. induction l as [|q l IH]; intros d Hin Hp Hrm; simpl; [destruct Hin|].
  destruct Hin as [-> | Hin].
  - apply cleanup_fold_none, removePath_self; assumption.
  - apply IH; assumption.
Qed.

(** C6, as the claim states it, fails: a removal that throws is swallowed, so
    the session is evicted while its registered template is still on disk. *)
Lemma failed_removal_leaves_path :
  let s' := cleanupSession lockedLibs "s1" (sampleServer ["Alice"]) in
  In "/srv/uploads/1-model.png" (cleanup (sampleSession "s1" ["Alice"])) /\
  sessions s' !! "s1" = None /\
  existsSync (disk s') "/srv/uploads/1-model.png" = true.
Proof. vm_compute. repeat split; auto. Qed.

(** C6 (amended): destroying a session evicts its entry, so a later lookup of
    the identifier finds nothing, and every registered (non-empty) path whose
    removal does not throw is no longer on disk; a removal that throws is
    ignored.  Nothing is created, so a path that never existed still does not
    exist.  A download attempt on a session whose archive path exists ends in
    this destruction. *)
Theorem cleanup_removes_registered (L : libs) (id : string) (s : server) (sess : session) :
  sessions s !! id = Some sess ->
  let s' := cleanupSession L id s in
  sessions s' !! id = None /\
  (forall p, In p (cleanup sess) -> p <> EmptyString ->
     existsSync (disk s') p = false \/ rmOk L p = false) /\
  (forall p, existsSync (disk s) p = false -> existsSync (disk s') p = false) /\
  (is_Some (disk s !! pathJoin (pathJoin (workDir L) id) "invitations.zip") ->
     (downloadHandler L id s).1 = s').
Proof.
  intros Hs. unfold downloadHandler, cleanupSession. rewrite Hs. simpl.
  split; [apply lookup_delete_eq|]. split; [|split].
  - intros p Hin Hp. destruct (rmOk L p) eqn:Hrm; [left|by right].
    unfold existsSync. rewrite (cleanup_fold_gone L _ _ p Hin Hp Hrm).
    apply bool_decide_eq_false. intros [x Hx]. discriminate.
  - intros p. unfold existsSync. rewrite !bool_decide_eq_false.
    intros Hn. assert (Hd : disk s !! p = None).
    { destruct (disk s !! p) eqn:E; [|done]. exfalso. apply Hn. eauto. }
    rewrite (cleanup_fold_none L _ _ p Hd). intros [x Hx]. discriminate.
  - intros [n Hn]. rewrite Hn. destruct n; simpl; rewrite ?Hs; reflexivity.
Qed.

Lemma cleanup_removes_registered_witness :
  sessions (cleanupSession lockedLibs "s1" (sampleServer ["Alice"])) !! "s1" = None.
Proof.
  apply (cleanup_removes_registered lockedLibs "s1" (sampleServer ["Alice"])
           (sampleSession "s1" ["Alice"])).
  vm_compute. reflexivity.
Defined.

(** ** The preview *)

Lemma compose_run L m out o d :
  composeImageWithText L m out o d =
  match sharpMeta L m with
  | Some wh =>
      let svg := buildSVGText o (orDim wh.1 2000) (orDim wh.2 1000) in
      if compositeOk L m (svgSource svg)
      then if writeOk L out
           then (<[out := File (Png m svg)]> d, Some tt)
           else (d, None)
      else (d, None)
  | None => (d, None)
  end.
Proof.
  unfold composeImageWithText, writeFile, ioBind, ioSome, ioGuard, ioModify, ioRet, ioThrow.
  destruct (sharpMeta L m) as [wh|]; [|reflexivity]. cbv zeta.
  destruct (compositeOk L m _); [|reflexivity].
  destruct (writeOk L out); reflexivity.
Qed.

Lemma usableModel_Some sess m :
  usableModel sess = Some m <->
  modelPath sess = Some m /\ m <> EmptyString /\ names sess <> [].
Proof.
  unfold usableModel. destruct (modelPath sess) as [m'|].
  - destruct m' as [|c m']; simpl.
    + split; [discriminate|]. intros ([= <-] & Hne & _). contradiction.
    + case_bool_decide as Hn.
      * split; [discriminate|]. intros (_ & _ & Hne). contradiction.
      * split; [intros [= <-]; repeat split; [discriminate|exact Hn]|].
        intros ([= <-] & _). reflexivity.
  - split; [discriminate|]. intros (E & _). discriminate E.
Qed.

(** C10 fails on the style fields: the name is escaped before it is spliced
    into the SVG source, but x, y, fontFamily and color are spliced as they
    are.  A [y] that closes the attribute and the element makes the preview
    of a session whose first name is Alice hold a text element reading Bob,
    followed by the element of the first name, switched off. *)
Theorem preview_style_adds_text_element :
  exists s' layer,
    testHandler workingLibs {| tSessionId := "s1"; tStyle := hidingStyle |}
                (sampleServer ["Alice"; "Carol"])
      = (s', PreviewJson (Png "/srv/uploads/1-model.png" layer)) /\
    svgText layer = "Alice" /\
    svgSource layer
      = svgTemplate "800" "600" "Arial" "48" "#000000" "100" (stY hidingStyle) "Alice" /\
    textElements (svgSource layer) =
      [(" x=" +:+ quoted "100" +:+ " y=" +:+ quoted "20" +:+ " class=" +:+ quoted "t",
        "Bob");
       (" display=" +:+ quoted "none" +:+ " y=" +:+ quoted "0" +:+
        " class=" +:+ quoted "t", "Alice")].
Proof.
  eexists _, _. split; [vm_compute; reflexivity|].
  repeat split; vm_compute; reflexivity.
Qed.

(** ** Name extraction from delimited text *)

Lemma app_cons c (a b : string) : String c a +:+ b = String c (a +:+ b).
Proof. reflexivity. Qed.

Lemma app_empty_l (b : string) : EmptyString +:+ b = b.
Proof. reflexivity. Qed.

Section Trim.
Variable w : ascii.
Hypothesis w_space : isWhiteSpace w = true.

Lemma trimEnd_snoc a : trimEnd (a +:+ String w EmptyString) = trimEnd a.
Proof.
  induction a as [|c a IH].
  - rewrite app_empty_l. simpl. rewrite w_space. reflexivity.
  - rewrite app_cons. simpl. rewrite IH. reflexivity.
Qed.

Lemma trimStart_snoc a :
  trimStart (a +:+ String w EmptyString) =
  if isEmpty (trimStart a) then EmptyString else trimStart a +:+ String w EmptyString.
Proof.
  induction a as [|c a IH].
  - rewrite app_empty_l. simpl. rewrite w_space. reflexivity.
  - rewrite app_cons. simpl. destruct (isWhiteSpace c); [exact IH|reflexivity].
Qed.

Lemma trim_snoc a : trim (a +:+ String w EmptyString) = trim a.
Proof.
  unfold trim. rewrite trimStart_snoc.
  destruct (trimStart a) as [|c r] eqn:E; [reflexivity|].
  simpl isEmpty. cbv iota. apply trimEnd_snoc.
Qed.
End Trim.

Lemma sameButCR_cons c a b : sameButCR a b -> sameButCR (String c a) (String c b).
Proof. intros [a'|a']; [constructor|]. rewrite <- app_cons. constructor. Qed.

Lemma consHead_pieces c l1 l2 :
  Forall2 sameButCR l1 l2 -> Forall2 sameButCR (consHead c l1) (consHead c l2).
Proof.
  intros [|a b l1' l2' Hab Hl]; simpl.
  - constructor; constructor.
  - constructor; [apply sameButCR_cons, Hab|exact Hl].
Qed.

Lemma splitList_pieces_aux s :
  Forall2 sameButCR (splitList s) (Spec.splitOn isListSep s) /\
  forall c, Forall2 sameButCR (splitList (String c s)) (Spec.splitOn isListSep (String c s)).
Proof.
  induction s as [|c2 s [IH1 IH2]].
  - split; [repeat constructor|]. intros c. simpl.
    destruct (isListSep c); repeat constructor.
  - split; [apply IH2|]. intros c.
    change (splitList (String c (String c2 s))) with
      (if isListSep c then EmptyString :: splitList (String c2 s)
       else if Ascii.eqb c CR && Ascii.eqb c2 LF then EmptyString :: splitList s
       else consHead c (splitList (String c2 s))).
    change (Spec.splitOn isListSep (String c (String c2 s))) with
      (if isListSep c then EmptyString :: Spec.splitOn isListSep (String c2 s)
       else consHead c (Spec.splitOn isListSep (String c2 s))).
    destruct (isListSep c) eqn:Hc.
    + constructor; [constructor|apply IH2].
    + destruct (Ascii.eqb_spec c CR) as [->|Hcr]; simpl andb.
      * destruct (Ascii.eqb_spec c2 LF) as [->|Hlf].
        -- simpl. constructor; [apply (lost_CR EmptyString)|exact IH1].
        -- apply consHead_pieces, IH2.
      * apply consHead_pieces, IH2.
Qed.

Lemma trim_pieces l1 l2 :
  Forall2 sameButCR l1 l2 -> map trim l1 = map trim l2.
Proof.
  induction 1 as [|a b l1 l2 Hab _ IH]; [reflexivity|].
  simpl. rewrite IH. f_equal. destruct Hab as [a|a]; [reflexivity|].
  symmetry. apply trim_snoc. reflexivity.
Qed.

Lemma splitList_trimmed text :
  map trim (splitList text) = map trim (Spec.splitOn isListSep text).
Proof. apply trim_pieces, splitList_pieces_aux. Qed.

Lemma trimEnd_idem s : trimEnd (trimEnd s) = trimEnd s.
Proof.
  induction s as [|c s IH]; [reflexivity|]. simpl.
  destruct (isWhiteSpace c && isEmpty (trimEnd s)) eqn:E; [reflexivity|].
  simpl. rewrite IH, E. reflexivity.
Qed.

Lemma trimStart_head x :
  trimStart x = EmptyString \/
  exists c r, trimStart x = String c r /\ isWhiteSpace c = false.
Proof.
  induction x as [|c x IH]; [by left|]. simpl.
  destruct (isWhiteSpace c) eqn:E; [exact IH|]. right. eauto.
Qed.

Lemma trim_idem x : trim (trim x) = trim x.
Proof.
  unfold trim. destruct (trimStart_head x) as [-> | (c & r & -> & Hc)]; [reflexivity|].
  simpl. rewrite Hc. simpl. rewrite Hc. simpl.
  rewrite trimEnd_idem, Hc. reflexivity.
Qed.

Lemma denied_is_header t : Spec.deniedIgnoringCase t = true -> isHeader t = true.
Proof.
  unfold Spec.deniedIgnoringCase, isHeader. intros H.
  apply String.eqb_eq in H. rewrite H. reflexivity.
Qed.

(** C1, as the claim states it, fails: the code also drops a token that
    matches the header only after its inner blanks are removed, which a
    case-insensitive comparison keeps. *)
Lemma spaced_header_dropped :
  parseNamesFromText spacedHeaderList = ["Alice"] /\
  Spec.names spacedHeaderList = ["Alice"; "Li ste"] /\
  parseNamesFromText spacedHeaderList <> Spec.names spacedHeaderList.
Proof. vm_compute. repeat split. discriminate. Qed.

(** C1 (amended): name extraction splits the text on newline, semicolon or
    comma, trims each token, drops the empty tokens and drops every token
    that equals [liste] once lower-cased and stripped of all its white space
    (so [Liste], [LISTE] and also [Li ste]); it yields exactly the remaining
    trimmed tokens in their order.  Every case-insensitive match of the header
    is among the dropped tokens, and the list of scenario 1 yields
    [Alice; Bob]. *)
Theorem parse_names_tokens (text : string) :
  parseNamesFromText text
    = List.filter (fun t => negb (isHeader t)) (Spec.tokens text) /\
  (forall t, Spec.deniedIgnoringCase t = true -> isHeader t = true) /\
  (forall t, In t (parseNamesFromText text) ->
     t <> EmptyString /\ trim t = t /\ In t (Spec.names text)) /\
  parseNamesFromText scenario1 = ["Alice"; "Bob"].
Proof.
  assert (Hparse : parseNamesFromText text
            = List.filter (fun t => negb (isHeader t)) (Spec.tokens text)).
  { unfold parseNamesFromText, Spec.tokens. rewrite splitList_trimmed. reflexivity. }
  split; [exact Hparse|]. split; [exact denied_is_header|]. split; [|reflexivity].
  intros t Hin. rewrite Hparse in Hin. apply filter_In in Hin as [Htok Hh].
  pose proof Htok as Htok'. unfold Spec.tokens in Htok'.
  apply filter_In in Htok' as [Hmap Hne]. apply in_map_iff in Hmap as (x & <- & _).
  split; [|split].
  - intros E. rewrite E in Hne. discriminate.
  - apply trim_idem.
  - unfold Spec.names. apply filter_In. split; [exact Htok|].
    destruct (Spec.deniedIgnoringCase (trim x)) eqn:Hd; [|reflexivity].
    rewrite (denied_is_header _ Hd) in Hh. discriminate.
Qed.

Lemma parse_names_tokens_witness :
  isHeader "LISTE" = true /\ In "Bob" (Spec.names scenario1).
Proof.
  split.
  - apply (parse_names_tokens scenario1). reflexivity.
  - apply (parse_names_tokens scenario1 : _ /\ _ /\ _ /\ _).
    vm_compute. tauto.
Defined.

(** ** Artifact names *)

Lemma string_of_uint_digits d : allChars isDigit (NilEmpty.string_of_uint d) = true.
Proof. induction d; simpl; try rewrite IHd; reflexivity. Qed.

Lemma ofInt_digits n : 0 <= n -> allChars isDigit (ofInt n) = true.
Proof.
  intros Hn. unfold ofInt. destruct n as [|p|p]; [reflexivity| |lia].
  simpl. apply string_of_uint_digits.
Qed.

Lemma ofInt_value n : 0 <= n -> decimalValue (ofInt n) = Some (Z.to_N n).
Proof.
  intros Hn. unfold ofInt, decimalValue. destruct n as [|p|p]; [reflexivity| |lia].
  simpl NilEmpty.string_of_int. rewrite NilEmpty.usu. simpl.
  f_equal. apply DecimalPos.Unsigned.of_to.
Qed.

Lemma decimalValue_zero s : decimalValue (String "0" s) = decimalValue s.
Proof.
  unfold decimalValue. simpl. destruct (NilEmpty.uint_of_string s); reflexivity.
Qed.

Lemma padStart0_value w s : decimalValue (padStart0 w s) = decimalValue s.
Proof.
  unfold padStart0. induction (w - String.length s)%nat as [|k IH]; [reflexivity|].
  simpl repeat0. rewrite app_cons, decimalValue_zero. exact IH.
Qed.

Lemma allChars_app p a b : allChars p (a +:+ b) = allChars p a && allChars p b.
Proof.
  induction a as [|c a IH]; [reflexivity|].
  rewrite app_cons. simpl. rewrite IH. apply andb_assoc.
Qed.

Lemma repeat0_digits k : allChars isDigit (repeat0 k) = true.
Proof. induction k as [|k IH]; [reflexivity|]. simpl. exact IH. Qed.

Lemma padStart0_digits w s : allChars isDigit s = true -> allChars isDigit (padStart0 w s) = true.
Proof.
  intros H. unfold padStart0. rewrite allChars_app, repeat0_digits, H. reflexivity.
Qed.

Lemma app_length (a b : string) :
  String.length (a +:+ b) = (String.length a + String.length b)%nat.
Proof. induction a as [|c a IH]; [reflexivity|]. rewrite app_cons. simpl. lia. Qed.

Lemma repeat0_length k : String.length (repeat0 k) = k.
Proof. induction k as [|k IH]; [reflexivity|]. simpl. lia. Qed.

Lemma padStart0_length w s :
  String.length (padStart0 w s) = Nat.max w (String.length s).
Proof. unfold padStart0. rewrite app_length, repeat0_length. lia. Qed.

Lemma ofInt_short n : 0 <= n < 1000 -> (String.length (ofInt n) <= 3)%nat.
Proof.
  intros Hn.
  assert (Hall : forallb (fun m => (String.length (ofInt m) <=? 3)%nat) (seqZ 0 1000) = true)
    by (vm_compute; reflexivity).
  rewrite forallb_forall in Hall. apply Nat.leb_le, Hall.
  apply list_elem_of_In, elem_of_seqZ. lia.
Qed.

(** The digits before the first hyphen determine the prefix. *)
Lemma digits_before_hyphen p1 p2 r1 r2 :
  allChars isDigit p1 = true -> allChars isDigit p2 = true ->
  p1 +:+ String "-" r1 = p2 +:+ String "-" r2 -> p1 = p2.
Proof.
  revert p2. induction p1 as [|c p1 IH]; intros [|c2 p2] H1 H2 E.
  - reflexivity.
  - rewrite app_empty_l, app_cons in E. injection E as <- _. discriminate H2.
  - rewrite app_empty_l, app_cons in E. injection E as -> _. discriminate H1.
  - rewrite !app_cons in E. injection E as -> E. simpl in H1, H2.
    apply andb_true_iff in H1 as [_ H1]. apply andb_true_iff in H2 as [_ H2].
    f_equal. exact (IH p2 H1 H2 E).
Qed.

Lemma artifactName_index i j n1 n2 e1 e2 :
  0 <= i -> 0 <= j -> artifactName i n1 e1 = artifactName j n2 e2 -> i = j.
Proof.
  intros Hi Hj E. unfold artifactName in E.
  change ("-" +:+ ?r) with (String "-" r) in E.
  apply digits_before_hyphen in E;
    try (apply padStart0_digits, ofInt_digits; lia).
  apply (f_equal decimalValue) in E.
  rewrite !padStart0_value, !ofInt_value in E by lia.
  injection E as E. lia.
Qed.

Lemma squeeze_kept c l : Spec.squeeze (Some c :: l) = Some c :: Spec.squeeze l.
Proof. reflexivity. Qed.

Lemma squeeze_run l : Spec.squeeze (None :: None :: l) = Spec.squeeze (None :: l).
Proof. reflexivity. Qed.

Lemma squeeze_run_end c l :
  Spec.squeeze (None :: Some c :: l) = None :: Some c :: Spec.squeeze l.
Proof. reflexivity. Qed.

(** The one-pass replacement of the source is the squeeze of the marked
    string; inside a run, the underscore already put is the one of the run. *)
Lemma replaceRuns_squeeze s :
  replaceRuns false s = Spec.printMarks (Spec.squeeze (Spec.mark s)) /\
  String "_" (replaceRuns true s) = Spec.printMarks (Spec.squeeze (None :: Spec.mark s)).
Proof.
  induction s as [|c s [IH1 IH2]]; [split; reflexivity|].
  unfold Spec.mark in *. simpl list_ascii_of_string. simpl map.
  simpl replaceRuns. destruct (isSlugChar c) eqn:Hc.
  - rewrite squeeze_run_end, squeeze_kept. unfold Spec.printMarks in *. simpl.
    rewrite IH1. split; reflexivity.
  - rewrite squeeze_run. split; exact IH2.
Qed.

Lemma sanitize_runs name : sanitize name = Spec.underscoreRuns name.
Proof. apply replaceRuns_squeeze. Qed.

Lemma replaceRuns_slug b s : allChars isSlugChar (replaceRuns b s) = true.
Proof.
  revert b. induction s as [|c s IH]; intros b; [reflexivity|]. simpl.
  destruct (isSlugChar c) eqn:Hc; simpl; [rewrite Hc; apply IH|].
  destruct b; simpl; apply IH.
Qed.

Lemma replaceRuns_each s :
  noBadPair s = true -> replaceRuns false s = Spec.underscoreEach s.
Proof.
  induction s as [|c s IH]; [reflexivity|]. intros H.
  simpl replaceRuns. simpl Spec.underscoreEach.
  destruct s as [|c2 s]; [destruct (isSlugChar c); reflexivity|].
  change (noBadPair (String c (String c2 s)))
    with ((isSlugChar c || isSlugChar c2) && noBadPair (String c2 s)) in H.
  apply andb_true_iff in H as [Hp Hs]. specialize (IH Hs).
  destruct (isSlugChar c) eqn:Hc; [rewrite IH; reflexivity|].
  simpl in Hp. f_equal. simpl. rewrite Hp.
  simpl in IH. rewrite Hp in IH. exact IH.
Qed.

(** C3, as the claim states it, fails: two blanks in a row give one
    underscore in the file name, not one underscore each. *)
Lemma run_gives_one_underscore :
  artifactName 0 "Jean  Luc" "png" = "001-Jean_Luc.png" /\
  Spec.artifactName 0 "Jean  Luc" "png" = "001-Jean__Luc.png" /\
  artifactName 0 "Jean  Luc" "png" <> Spec.artifactName 0 "Jean  Luc" "png".
Proof. vm_compute. repeat split. discriminate. Qed.

(** C3 (amended): for the index at loop position [k] of the effective window,
    the artifact file name is the absolute 1-based index (window start + k + 1)
    in decimal, padded with zeros to at least 3 digits (exactly 3 below 1000),
    then a hyphen, then the name with every maximal run of characters outside
    [A-Za-z0-9_-] replaced by a single underscore, then a dot and the output
    extension.  The replacement is one underscore per character when no two
    such characters are adjacent. *)
Theorem artifact_name_shape (total : Z) (offset limit : jsnum) (k : nat) (idx : Z)
    (name ext : string) :
  windowIndices total offset limit !! k = Some idx ->
  let number := padStart0 3 (ofInt (idx + 1)) in
  (inject_Z idx == windowStart offset + inject_Z (Z.of_nat k))%Q /\
  artifactName idx name ext
    = number +:+ "-" +:+ Spec.underscoreRuns name +:+ "." +:+ ext /\
  (exists n, decimalValue number = Some n /\
     (inject_Z (Z.of_N n) == windowStart offset + inject_Z (Z.of_nat k) + 1)%Q) /\
  allChars isDigit number = true /\
  (3 <= String.length number)%nat /\
  (idx + 1 < 1000 -> String.length number = 3%nat) /\
  allChars isSlugChar (Spec.underscoreRuns name) = true /\
  (noBadPair name = true -> Spec.underscoreRuns name = Spec.underscoreEach name).
Proof.
  intros Hk number.
  apply windowIndices_lookup in Hk as [Hidx Hrange].
  subst number. split; [exact Hidx|]. split; [|split; [|repeat split]].
  - unfold artifactName. rewrite sanitize_runs. reflexivity.
  - exists (Z.to_N (idx + 1)). split.
    + rewrite padStart0_value. apply ofInt_value. lia.
    + rewrite Z2N.id by lia. rewrite inject_Z_plus, Hidx. reflexivity.
  - apply padStart0_digits, ofInt_digits. lia.
  - rewrite padStart0_length. lia.
  - intros Hsmall. rewrite padStart0_length.
    pose proof (ofInt_short (idx + 1)) as Hlen. lia.
  - rewrite <- sanitize_runs. apply replaceRuns_slug.
  - intros Hp. rewrite <- sanitize_runs. apply replaceRuns_each, Hp.
Qed.

Lemma artifact_name_shape_witness :
  windowIndices 120 (Fin 50) (Fin 10) !! 0%nat = Some 50 /\
  artifactName 50 "Alice" "jpg" = "051-Alice.jpg".
Proof.
  split; [reflexivity|].
  pose proof (artifact_name_shape 120 (Fin 50) (Fin 10) 0 50 "Alice" "jpg" eq_refl) as H.
  cbv zeta in H. destruct H as (_ & H & _). rewrite H. reflexivity.
Defined.

(** C7: within one generation window, two distinct indices never get the same
    artifact file name, whatever the two names (equal, or equal once
    sanitized) and whatever the extension: the digits before the first hyphen
    are those of the index. *)
Theorem artifact_names_distinct (total : Z) (offset limit : jsnum) (i j : Z)
    (name_i name_j ext : string) :
  i ∈ windowIndices total offset limit ->
  j ∈ windowIndices total offset limit ->
  i <> j ->
  artifactName i name_i ext <> artifactName j name_j ext.
Proof.
  intros Hi Hj Hne E.
  apply windowIndices_elem in Hi, Hj.
  apply Hne. apply (artifactName_index i j name_i name_j ext ext); [lia|lia|exact E].
Qed.

Lemma artifact_names_distinct_witness :
  artifactName 0 "Ana Li" "png" <> artifactName 1 "Ana_Li" "png".
Proof.
  apply (artifact_names_distinct 2 NaN NaN 0 1 "Ana Li" "Ana_Li" "png").
  - apply list_elem_of_In. vm_compute. tauto.
  - apply list_elem_of_In. vm_compute. tauto.
  - discriminate.
Defined.

(** ** Repeated generation *)

Lemma applyOp_lookup d op k : applyOp d op !! k = opEffect k (d !! k) op.
Proof.
  destruct op as [p c|p]; simpl.
  - rewrite lookup_insert. destruct (String.eqb_spec p k); case_decide; congruence.
  - rewrite lookup_delete. destruct (String.eqb_spec p k); case_decide; congruence.
Qed.

Lemma applyOps_lookup ops d k : applyOps d ops !! k = opsEffect k (d !! k) ops.
Proof.
  unfold applyOps, opsEffect. revert d.
  induction ops as [|op ops IH]; intros d; simpl; [reflexivity|].
  rewrite IH, applyOp_lookup. reflexivity.
Qed.

(** Either no operation touches [k], or the last one that does decides. *)
Lemma opsEffect_cases ops k :
  (forall x, opsEffect k x ops = x) \/ (exists v, forall x, opsEffect k x ops = v).
Proof.
  unfold opsEffect. induction ops as [|op ops [IH|[v IH]]]; simpl.
  - by left.
  - destruct op as [p c|p]; simpl; destruct (String.eqb p k).
    + right. exists (Some (File c)). intros x. apply IH.
    + left. intros x. apply IH.
    + right. exists None. intros x. apply IH.
    + left. intros x. apply IH.
  - right. exists v. intros x. apply IH.
Qed.

Lemma opsEffect_idem ops k x : opsEffect k (opsEffect k x ops) ops = opsEffect k x ops.
Proof. destruct (opsEffect_cases ops k) as [H|[v H]]; rewrite !H; reflexivity. Qed.

Lemma opsEffect_untouched ops k x :
  Forall (fun op => opKey op <> k) ops -> opsEffect k x ops = x.
Proof.
  unfold opsEffect. revert x. induction ops as [|op ops IH]; intros x H; [reflexivity|].
  inversion H as [|? ? Hop Hops]; subst. simpl. rewrite (IH _ Hops).
  destruct op as [p c|p]; simpl in *; destruct (String.eqb_spec p k); congruence.
Qed.

Lemma applyOps_idem ops d : applyOps (applyOps d ops) ops = applyOps d ops.
Proof. apply map_eq. intros k. rewrite !applyOps_lookup. apply opsEffect_idem. Qed.

Lemma applyOps_insert ops d k n :
  Forall (fun op => opKey op <> k) ops ->
  applyOps (<[k := n]> d) ops = <[k := n]> (applyOps d ops).
Proof.
  intros H. apply map_eq. intros k'. rewrite applyOps_lookup.
  destruct (decide (k = k')) as [<-|Hne].
  - rewrite !lookup_insert_eq. apply opsEffect_untouched, H.
  - rewrite !lookup_insert_ne by done. rewrite applyOps_lookup. reflexivity.
Qed.

Lemma applyOps_app d o1 o2 : applyOps d (o1 ++ o2) = applyOps (applyOps d o1) o2.
Proof. apply foldl_app. Qed.

Section Uniform.
Variable K : string -> Prop.

Lemma uniform_ret : uniformOn K (ioRet tt).
Proof. right. exists []. split; [constructor|reflexivity]. Qed.

Lemma uniform_throw : uniformOn K ioThrow.
Proof. left. reflexivity. Qed.

Lemma uniform_guard b : uniformOn K (ioGuard b).
Proof. destruct b; [apply uniform_ret|apply uniform_throw]. Qed.

Lemma uniform_bind (m k : io unit) :
  uniformOn K m -> uniformOn K k -> uniformOn K (let* _ := m in k).
Proof.
  intros [Hm|(o1 & K1 & Hm)] Hk.
  - left. intros d. unfold ioBind. specialize (Hm d).
    destruct (m d) as [d' [[]|]]; [discriminate|reflexivity].
  - destruct Hk as [Hk|(o2 & K2 & Hk)].
    + left. intros d. unfold ioBind. rewrite Hm. apply Hk.
    + right. exists (o1 ++ o2). split; [apply Forall_app; done|].
      intros d. unfold ioBind. rewrite Hm, Hk, applyOps_app. reflexivity.
Qed.

Lemma uniform_put L p c : K p -> uniformOn K (writeFile L p c).
Proof.
  intros Hp. unfold writeFile. apply uniform_bind; [apply uniform_guard|].
  right. exists [Put p c]. split; [repeat constructor; exact Hp|reflexivity].
Qed.

Lemma uniform_unlink L p : K p -> uniformOn K (unlinkSync L p).
Proof.
  intros Hp. unfold unlinkSync. apply uniform_bind; [apply uniform_guard|].
  right. exists [Remove p]. split; [repeat constructor; exact Hp|reflexivity].
Qed.

Lemma uniform_compose L m out o : K out -> uniformOn K (composeImageWithText L m out o).
Proof.
  intros Hp. unfold composeImageWithText, ioSome.
  destruct (sharpMeta L m) as [wh|].
  - cbv zeta. apply uniform_bind; [apply uniform_guard | apply uniform_put, Hp].
  - left. reflexivity.
Qed.

Lemma uniform_forEach {A} (body : A -> io unit) l :
  (forall a, uniformOn K (body a)) -> uniformOn K (forEach body l).
Proof.
  intros Hb. induction l as [|a l IH]; simpl; [apply uniform_ret|].
  apply uniform_bind; [apply Hb|apply IH].
Qed.
End Uniform.

Lemma app_assoc (a b c : string) : (a +:+ b) +:+ c = a +:+ (b +:+ c).
Proof. induction a as [|x a IH]; [reflexivity|]. rewrite !app_cons, IH. reflexivity. Qed.

Lemma jpgToPng_cons c p :
  jpgToPng (String c p)
  = if String.eqb (String c p) ".jpg" then ".png" else String c (jpgToPng p).
Proof. reflexivity. Qed.

Lemma jpgToPng_length p : String.length (jpgToPng p) = String.length p.
Proof.
  induction p as [|c p IH]; [reflexivity|]. rewrite jpgToPng_cons.
  destruct (String.eqb_spec (String c p) ".jpg") as [->|_]; [reflexivity|].
  simpl. rewrite IH. reflexivity.
Qed.

Lemma jpgToPng_app a b :
  (4 < String.length b)%nat -> jpgToPng (a +:+ b) = a +:+ jpgToPng b.
Proof.
  intros Hb. induction a as [|c a IH]; [reflexivity|].
  rewrite !app_cons, jpgToPng_cons.
  destruct (String.eqb_spec (String c (a +:+ b)) ".jpg") as [E|_].
  - apply (f_equal String.length) in E. simpl in E. rewrite app_length in E. lia.
  - rewrite IH. reflexivity.
Qed.

Lemma prefix_app a x y : String.prefix (a +:+ x) (a +:+ y) = String.prefix x y.
Proof.
  induction a as [|c a IH]; [reflexivity|]. rewrite !app_cons. simpl.
  destruct (ascii_dec c c); [exact IH|contradiction].
Qed.

Section Paths.
Variables (sessDir file : string).

Lemma outPath_not_outDir :
  pathJoin (pathJoin sessDir "all") file <> pathJoin sessDir "all".
Proof.
  intros E. apply (f_equal String.length) in E.
  unfold pathJoin in E. rewrite (app_length (sessDir +:+ "/" +:+ "all")) in E.
  simpl in E. lia.
Qed.

Lemma outPath_assoc :
  pathJoin (pathJoin sessDir "all") file = sessDir +:+ ("/all/" +:+ file).
Proof. unfold pathJoin. rewrite app_assoc. reflexivity. Qed.

Lemma outPath_not_zip :
  pathJoin (pathJoin sessDir "all") file <> pathJoin sessDir "invitations.zip".
Proof.
  rewrite outPath_assoc. unfold pathJoin. intros E.
  apply String.app_inj in E. discriminate E.
Qed.

Lemma tmpPng_not_outDir :
  jpgToPng (pathJoin (pathJoin sessDir "all") file) <> pathJoin sessDir "all".
Proof.
  intros E. apply (f_equal String.length) in E. rewrite jpgToPng_length in E.
  unfold pathJoin in E. rewrite (app_length (sessDir +:+ "/" +:+ "all")) in E.
  simpl in E. lia.
Qed.

Lemma tmpPng_not_zip :
  jpgToPng (pathJoin (pathJoin sessDir "all") file) <> pathJoin sessDir "invitations.zip".
Proof.
  rewrite outPath_assoc, jpgToPng_app.
  - unfold pathJoin. intros E. apply String.app_inj in E. discriminate E.
  - rewrite app_length. simpl. lia.
Qed.

Lemma zip_not_below_outDir :
  String.prefix (pathJoin sessDir "all" +:+ "/") (pathJoin sessDir "invitations.zip") = false.
Proof. unfold pathJoin. rewrite app_assoc, prefix_app. reflexivity. Qed.
End Paths.

Lemma archiveEntries_insert d dir k n :
  String.prefix (dir +:+ "/") k = false ->
  archiveEntries (<[k := n]> d) dir = archiveEntries d dir.
Proof.
  intros Hk. unfold archiveEntries.
  rewrite map_filter_insert_False by (simpl; congruence).
  rewrite map_filter_delete_not; [reflexivity|].
  intros y _. simpl. congruence.
Qed.

Lemma mkdirOne_exists d p : is_Some (mkdirOne d p !! p).
Proof.
  unfold mkdirOne. destruct (d !! p) eqn:E; [rewrite E; eauto|].
  rewrite lookup_insert_eq. eauto.
Qed.

Lemma ensureDir_exists d p : existsSync (ensureDir d p) p = true.
Proof.
  unfold ensureDir. destruct (existsSync d p) eqn:E; [exact E|].
  unfold existsSync, mkdirSync. rewrite foldl_app. simpl.
  apply bool_decide_eq_true, mkdirOne_exists.
Qed.

Lemma ensureDir_id d p : existsSync d p = true -> ensureDir d p = d.
Proof. intros E. unfold ensureDir. rewrite E. reflexivity. Qed.

(** One turn of the loop, on every disk alike. *)
Lemma generateOne_uniform L sess m sessDir ext st idx :
  let outDir := pathJoin sessDir "all" in
  let zipPath := pathJoin sessDir "invitations.zip" in
  uniformOn (fun k => k <> outDir /\ k <> zipPath)
            (generateOne L sess m outDir ext st idx).
Proof.
  intros outDir zipPath. unfold generateOne.
  destruct (nameAt (names sess) idx) as [name|]; [|left; reflexivity].
  change (ioBind (ioSome (Some name)) ?k) with (k name). cbv beta.
  set (file := artifactName idx name ext).
  destruct (String.eqb ext "png").
  - apply uniform_compose. split; [apply outPath_not_outDir|apply outPath_not_zip].
  - set (out := pathJoin outDir file). set (tmp := jpgToPng out).
    assert (Kout : out <> outDir /\ out <> zipPath)
      by (split; [apply outPath_not_outDir|apply outPath_not_zip]).
    assert (Ktmp : tmp <> outDir /\ tmp <> zipPath)
      by (split; [apply tmpPng_not_outDir|apply tmpPng_not_zip]).
    destruct (sharpMeta L m) as [wh|] eqn:Hmeta;
      [|left; intros d; unfold ioBind; rewrite compose_run, Hmeta; reflexivity].
    destruct (compositeOk L m (svgSource (buildSVGText (overlayOf st name)
                (orDim wh.1 2000) (orDim wh.2 1000)))) eqn:Hc;
      [|left; intros d; unfold ioBind; rewrite compose_run, Hmeta; cbv zeta; rewrite Hc;
        reflexivity].
    destruct (writeOk L tmp) eqn:Hw1;
      [|left; intros d; unfold ioBind; rewrite compose_run, Hmeta; cbv zeta;
        rewrite Hc, Hw1; reflexivity].
    destruct (jpegOk L tmp) eqn:Hj;
      [|left; intros d; unfold ioBind; rewrite compose_run, Hmeta; cbv zeta;
        rewrite Hc, Hw1; reflexivity].
    set (png := Png m (buildSVGText (overlayOf st name) (orDim wh.1 2000) (orDim wh.2 1000))).
    destruct (writeOk L out) eqn:Hw2.
    + destruct (unlinkOk L tmp) eqn:Hu.
      * right. exists [Put tmp png; Put out (Jpeg 90 png); Remove tmp].
        split; [repeat constructor; simpl; tauto|].
        intros d. unfold ioBind. rewrite compose_run, Hmeta; cbv zeta; rewrite Hc, Hw1. simpl.
        unfold readFile. rewrite lookup_insert_eq.
        unfold writeFile, unlinkSync, ioBind. rewrite Hw2, Hu. reflexivity.
      * left. intros d. unfold ioBind. rewrite compose_run, Hmeta; cbv zeta; rewrite Hc, Hw1. simpl.
        unfold readFile. rewrite lookup_insert_eq.
        unfold writeFile, unlinkSync, ioBind. rewrite Hw2, Hu. reflexivity.
    + left. intros d. unfold ioBind. rewrite compose_run, Hmeta; cbv zeta; rewrite Hc, Hw1. simpl.
      unfold readFile. rewrite lookup_insert_eq.
      unfold writeFile, ioBind. rewrite Hw2. reflexivity.
Qed.

(** C8: a generation call that succeeded, repeated with the same request on
    the state it left, succeeds again with the same answer (same count, offset
    and total) and leaves the disk exactly as it was: the artifacts are written
    over themselves under the same names and the archive, which lists the
    files of the output directory, is rebuilt with the same entries. *)
Theorem generate_twice_same_disk (L : libs) (req : generateRequest) (s s1 : server)
    (url : string) (processed offset : Q) (total : Z) :
  generateHandler L req s = (s1, GenerateJson url processed offset total) ->
  let sessDir := pathJoin (workDir L) (gSessionId req) in
  let outDir := pathJoin sessDir "all" in
  let zipPath := pathJoin sessDir "invitations.zip" in
  disk s1 !! zipPath = Some (File (Zip 9 (archiveEntries (disk s1) outDir))) /\
  exists s2,
    generateHandler L req s1 = (s2, GenerateJson url processed offset total) /\
    disk s2 = disk s1.
Proof.
  intros H sessDir outDir zipPath. unfold generateHandler in *.
  fold sessDir in H |- *. fold outDir in H |- *. fold zipPath in H |- *.
  destruct (sessions s !! gSessionId req) as [sess|] eqn:Hs; [|discriminate].
  destruct (usableModel sess) as [m|] eqn:Hm; [|discriminate].
  destruct (loopTurns _ _) as [idxs|] eqn:Hturns; [|discriminate H].
  change (ioBind (ioSome (Some idxs)) ?k) with (k idxs) in H. cbv beta in H.
  pose proof (uniform_forEach (fun k => k <> outDir /\ k <> zipPath)
                (generateOne L sess m outDir (outputExt (gFormat req)) (gStyle req)) idxs
                (fun idx => generateOne_uniform L sess m sessDir _ _ idx)) as Hloop.
  fold outDir in Hloop.
  set (loop := forEach (generateOne L sess m outDir (outputExt (gFormat req)) (gStyle req)) idxs) in *.
  unfold ioBind in H.
  destruct Hloop as [Hfail|(ops & Hkeys & Hops)].
  { specialize (Hfail (ensureDir (disk s) outDir)).
    destruct (loop (ensureDir (disk s) outDir)) as [d [[]|]]; simpl in Hfail;
      [discriminate Hfail|discriminate H]. }
  rewrite Hops in H. unfold zipDirectory, ioBind, ioGuard in H.
  destruct (zipOk L zipPath) eqn:Hz; [|discriminate H]. simpl in H.
  injection H as <- <- <- <- <-. simpl.
  set (d2 := applyOps (ensureDir (disk s) outDir) ops).
  assert (Hk1 : Forall (fun op => opKey op <> zipPath) ops)
    by (eapply Forall_impl; [exact Hkeys|]; simpl; tauto).
  assert (Hk2 : Forall (fun op => opKey op <> outDir) ops)
    by (eapply Forall_impl; [exact Hkeys|]; simpl; tauto).
  assert (Hentries : forall n, archiveEntries (<[zipPath := n]> d2) outDir
                               = archiveEntries d2 outDir).
  { intros n. apply archiveEntries_insert, zip_not_below_outDir. }
  split.
  { rewrite lookup_insert_eq, Hentries. reflexivity. }
  rewrite lookup_insert_eq.
  change (usableModel (pushCleanup sess sessDir)) with (usableModel sess).
  rewrite Hm.
  change (names (pushCleanup sess sessDir)) with (names sess). rewrite Hturns.
  change (ioBind (ioSome (Some idxs)) ?k) with (k idxs). cbv beta.
  change (forEach (generateOne L (pushCleanup sess sessDir) m outDir
                     (outputExt (gFormat req)) (gStyle req)) idxs) with loop.
  assert (Hexists : existsSync
            (<[zipPath := File (Zip 9 (archiveEntries d2 outDir))]> d2) outDir = true).
  { unfold existsSync. apply bool_decide_eq_true.
    assert (Hne : zipPath <> outDir).
    { unfold zipPath, outDir, pathJoin. intros E. apply String.app_inj in E. discriminate E. }
    rewrite lookup_insert_ne by exact Hne.
    unfold d2. rewrite applyOps_lookup, (opsEffect_untouched _ _ _ Hk2).
    pose proof (ensureDir_exists (disk s) outDir) as He.
    unfold existsSync in He. apply bool_decide_eq_true in He. exact He. }
  rewrite (ensureDir_id _ _ Hexists).
  unfold ioBind. rewrite Hops.
  assert (Hidem : applyOps d2 ops = d2) by apply applyOps_idem.
  rewrite (applyOps_insert ops _ zipPath _ Hk1), Hidem.
  unfold zipDirectory, ioBind, ioGuard. rewrite Hz. simpl.
  eexists. split; [reflexivity|]. simpl.
  rewrite Hentries. apply insert_insert_eq.
Qed.

Lemma generate_twice_same_disk_witness :
  let s1 := (generateHandler workingLibs (sampleRequest "jpg")
               (sampleServer ["Alice"; "Bob"])).1 in
  exists s2,
    generateHandler workingLibs (sampleRequest "jpg") s1
      = (s2, GenerateJson "/api/download/s1" 2 0 2) /\
    disk s2 = disk s1.
Proof.
  intros s1.
  refine (proj2 (generate_twice_same_disk workingLibs (sampleRequest "jpg")
                   (sampleServer ["Alice"; "Bob"]) s1
                   "/api/download/s1" 2 0 2 _)).
  vm_compute. reflexivity.
Defined.

(** ** Temporary files of the jpg branch *)

Lemma jpgToPng_suffix a : jpgToPng (a +:+ ".jpg") = a +:+ ".png".
Proof.
  induction a as [|c a IH]; [reflexivity|].
  rewrite !app_cons, jpgToPng_cons.
  destruct (String.eqb_spec (String c (a +:+ ".jpg")) ".jpg") as [E|_].
  - apply (f_equal String.length) in E. simpl in E. rewrite app_length in E.
    simpl in E. lia.
  - rewrite IH. reflexivity.
Qed.

Lemma jpg_not_png a b : a +:+ ".jpg" <> b +:+ ".png".
Proof.
  revert b. induction a as [|c a IH]; intros [|c' b] E.
  - discriminate E.
  - apply (f_equal String.length) in E. rewrite app_cons in E. simpl in E.
    rewrite app_length in E. simpl in E. lia.
  - apply (f_equal String.length) in E. rewrite app_cons in E. simpl in E.
    rewrite app_length in E. simpl in E. lia.
  - rewrite !app_cons in E. injection E as _ E. exact (IH b E).
Qed.

Lemma jpgPath_split outDir idx name :
  pathJoin outDir (artifactName idx name "jpg")
  = (outDir +:+ "/" +:+ padStart0 3 (ofInt (idx + 1)) +:+ "-" +:+ sanitize name) +:+ ".jpg".
Proof. unfold pathJoin, artifactName. rewrite !app_assoc. reflexivity. Qed.

Lemma jpgPath_not_tmp outDir i ni j nj :
  pathJoin outDir (artifactName i ni "jpg")
  <> jpgToPng (pathJoin outDir (artifactName j nj "jpg")).
Proof. rewrite !jpgPath_split, jpgToPng_suffix. apply jpg_not_png. Qed.

(** What a successful turn of the jpg branch does to the disk. *)
Lemma generateOne_jpg_run L sess m outDir st idx d d' :
  generateOne L sess m outDir "jpg" st idx d = (d', Some tt) ->
  exists name png,
    nameAt (names sess) idx = Some name /\
    d' = delete (jpgToPng (pathJoin outDir (artifactName idx name "jpg")))
           (<[pathJoin outDir (artifactName idx name "jpg") := File (Jpeg 90 png)]>
              (<[jpgToPng (pathJoin outDir (artifactName idx name "jpg")) := File png]> d)).
Proof.
  unfold generateOne. destruct (nameAt (names sess) idx) as [name|]; [|discriminate].
  change (ioBind (ioSome (Some name)) ?k) with (k name). cbv beta.
  change (String.eqb "jpg" "png") with false. cbv iota.
  set (out := pathJoin outDir (artifactName idx name "jpg")). set (tmp := jpgToPng out).
  unfold ioBind. rewrite compose_run.
  destruct (sharpMeta L m) as [wh|]; [|discriminate]. cbv zeta.
  destruct (compositeOk L m _); [|discriminate].
  destruct (writeOk L tmp); [|discriminate].
  unfold ioGuard. destruct (jpegOk L tmp); [|discriminate]. simpl.
  unfold readFile. rewrite lookup_insert_eq.
  unfold writeFile, unlinkSync, ioBind, ioGuard.
  destruct (writeOk L out); [|discriminate]. simpl.
  destruct (unlinkOk L tmp); [|discriminate]. simpl.
  intros [= <-]. eauto.
Qed.

Lemma generateOne_jpg_clears L sess m outDir st idx name :
  nameAt (names sess) idx = Some name ->
  clears (jpgToPng (pathJoin outDir (artifactName idx name "jpg")))
         (generateOne L sess m outDir "jpg" st idx).
Proof.
  intros Hn d Hok.
  destruct (generateOne L sess m outDir "jpg" st idx d) as [d' r] eqn:E.
  simpl in Hok. subst r.
  apply generateOne_jpg_run in E as (name' & png & Hn' & ->).
  rewrite Hn in Hn'. injection Hn' as <-. apply lookup_delete_eq.
Qed.

Lemma generateOne_jpg_keeps L sess m outDir st i j nj :
  keepsAbsent (jpgToPng (pathJoin outDir (artifactName j nj "jpg")))
              (generateOne L sess m outDir "jpg" st i).
Proof.
  intros d Hd Hok.
  destruct (generateOne L sess m outDir "jpg" st i d) as [d' r] eqn:E.
  simpl in Hok. subst r.
  apply generateOne_jpg_run in E as (ni & png & _ & ->). simpl.
  rewrite lookup_delete. case_decide as Hk; [reflexivity|].
  rewrite lookup_insert_ne by apply jpgPath_not_tmp.
  rewrite lookup_insert_ne by exact Hk. exact Hd.
Qed.

Lemma forEach_keeps {A} k (body : A -> io unit) l :
  (forall a, keepsAbsent k (body a)) -> keepsAbsent k (forEach body l).
Proof.
  intros Hb. induction l as [|a l IH]; intros d Hd Hok; [exact Hd|].
  simpl in *. unfold ioBind in *.
  destruct (body a d) as [d' [[]|]] eqn:E; [|discriminate Hok].
  apply IH; [|exact Hok].
  pose proof (Hb a d Hd) as H. rewrite E in H. apply H. reflexivity.
Qed.

Lemma forEach_clears {A} k (body : A -> io unit) l j :
  (forall a, keepsAbsent k (body a)) -> In j l -> clears k (body j) ->
  clears k (forEach body l).
Proof.
  intros Hb Hin Hj. induction l as [|a l IH]; [destruct Hin|].
  intros d Hok. simpl in *. unfold ioBind in *.
  destruct (body a d) as [d' [[]|]] eqn:E; [|discriminate Hok].
  destruct Hin as [-> | Hin].
  - pose proof (forEach_keeps k body l Hb d') as Hk.
    apply Hk; [|exact Hok].
    pose proof (Hj d) as H. rewrite E in H. apply H. reflexivity.
  - apply (IH Hin d' Hok).
Qed.

(** When a jpg generation succeeds, the temporary PNG of every name of the
    window is gone at the end of the call. *)
Lemma successful_jpg_leaves_no_temporary (L : libs) (req : generateRequest)
    (s s1 : server) (sess : session) (url : string) (processed offset : Q)
    (total idx : Z) (name : string) :
  generateHandler L req s = (s1, GenerateJson url processed offset total) ->
  outputExt (gFormat req) = "jpg" ->
  sessions s !! gSessionId req = Some sess ->
  In idx (windowIndices (Z.of_nat (length (names sess))) (gOffset req) (gLimit req)) ->
  nameAt (names sess) idx = Some name ->
  let outDir := pathJoin (pathJoin (workDir L) (gSessionId req)) "all" in
  disk s1 !! jpgToPng (pathJoin outDir (artifactName idx name "jpg")) = None.
Proof.
  intros H Hext Hs Hin Hn outDir. unfold generateHandler in H.
  rewrite Hs, Hext in H. fold outDir in H.
  destruct (usableModel sess) as [m|]; [|discriminate].
  unfold windowIndices in Hin.
  destruct (loopTurns _ _) as [idxs|]; [|discriminate H]. simpl in Hin.
  change (ioBind (ioSome (Some idxs)) ?k) with (k idxs) in H. cbv beta in H.
  set (tmp := jpgToPng (pathJoin outDir (artifactName idx name "jpg"))).
  pose proof (forEach_clears tmp (generateOne L sess m outDir "jpg" (gStyle req)) idxs idx
                (fun i => generateOne_jpg_keeps L sess m outDir (gStyle req) i idx name)
                Hin (generateOne_jpg_clears L sess m outDir (gStyle req) idx name Hn))
    as Hclear.
  unfold ioBind in H. specialize (Hclear (ensureDir (disk s) outDir)).
  destruct (forEach _ idxs (ensureDir (disk s) outDir)) as [d [[]|]]; [|discriminate H].
  specialize (Hclear eq_refl). simpl in Hclear.
  unfold zipDirectory, ioBind, ioGuard in H.
  destruct (zipOk L _); [|discriminate H]. simpl in H.
  injection H as <- _ _ _ _. simpl.
  rewrite lookup_insert_ne; [exact Hclear|].
  intros E. symmetry in E. revert E. apply tmpPng_not_zip.
Qed.

(** ** A conversion that fails *)

(** C4: on the request for jpg of the list [Alice; Bob], the code, when the
    JPEG conversion of the first artifact throws, answers 500 and leaves the
    temporary file [001-Alice.png] in the output directory, under no path of
    the session's cleanup registry; the claim says that a failed conversion
    leaves no temporary file.  When every step succeeds, the same request
    leaves the two jpg artifacts and no temporary PNG. *)
Theorem failed_conversion_leaves_temporary_png :
  let s := sampleServer ["Alice"; "Bob"] in
  let tmpPng := "/srv/work/s1/all/001-Alice.png" in
  let failed := generateHandler failingJpegLibs (sampleRequest "jpg") s in
  let done := generateHandler workingLibs (sampleRequest "jpg") s in
  failed.2 = Status 500 "Generation failed." /\
  existsSync (disk s) tmpPng = false /\
  existsSync (disk failed.1) tmpPng = true /\
  forallb (fun p => negb (under p tmpPng)) (registryOf failed.1 "s1") = true /\
  done.2 = GenerateJson "/api/download/s1" 2 0 2 /\
  existsSync (disk done.1) "/srv/work/s1/all/001-Alice.jpg" = true /\
  existsSync (disk done.1) "/srv/work/s1/all/002-Bob.jpg" = true /\
  existsSync (disk done.1) tmpPng = false /\
  existsSync (disk done.1) "/srv/work/s1/all/002-Bob.png" = false.
Proof. vm_compute. repeat split. Qed.

(** * Further properties *)

(** ** Names from text: what a name never holds, and re-reading them *)

Lemma allChars_consHead p c l :
  p c = true -> Forall (fun t => allChars p t = true) l ->
  Forall (fun t => allChars p t = true) (consHead c l).
Proof.
  intros Hc [|t l' Ht Hl]; simpl.
  - repeat constructor. simpl. rewrite Hc. reflexivity.
  - constructor; [simpl; rewrite Hc; exact Ht|exact Hl].
Qed.

Lemma splitOn_no_sep s :
  Forall (fun t => allChars notListSep t = true) (Spec.splitOn isListSep s).
Proof.
  induction s as [|c s IH]; simpl; [repeat constructor|].
  destruct (isListSep c) eqn:Hc.
  - constructor; [reflexivity|exact IH].
  - apply allChars_consHead; [unfold notListSep; rewrite Hc; reflexivity|exact IH].
Qed.

Lemma allChars_trimStart p s : allChars p s = true -> allChars p (trimStart s) = true.
Proof.
  induction s as [|c s IH]; [reflexivity|]. intros H. simpl.
  destruct (isWhiteSpace c); [|exact H].
  simpl in H. apply andb_true_iff in H as [_ H]. exact (IH H).
Qed.

Lemma allChars_trimEnd p s : allChars p s = true -> allChars p (trimEnd s) = true.
Proof.
  induction s as [|c s IH]; [reflexivity|]. intros H. simpl in *.
  apply andb_true_iff in H as [Hc H].
  destruct (isWhiteSpace c && isEmpty (trimEnd s)); [reflexivity|].
  simpl. rewrite Hc. exact (IH H).
Qed.

Lemma allChars_trim p s : allChars p s = true -> allChars p (trim s) = true.
Proof. intros H. apply allChars_trimEnd, allChars_trimStart, H. Qed.

Lemma parse_members text t :
  In t (parseNamesFromText text) ->
  isHeader t = false /\ t <> EmptyString /\
  exists x, In x (Spec.splitOn isListSep text) /\ t = trim x.
Proof.
  unfold parseNamesFromText. rewrite splitList_trimmed. intros H.
  apply filter_In in H as [H Hh]. apply filter_In in H as [H Hne].
  apply in_map_iff in H as (x & <- & Hx).
  split; [apply negb_true_iff, Hh|]. split; [|eauto].
  intros E. rewrite E in Hne. discriminate Hne.
Qed.

Lemma parse_clean text t :
  In t (parseNamesFromText text) -> cleanName t = true.
Proof.
  intros H. apply parse_members in H as (Hh & Hne & x & Hx & ->).
  assert (Hs : allChars notListSep (trim x) = true).
  { apply allChars_trim. pose proof (splitOn_no_sep text) as Hall.
    rewrite Forall_forall in Hall. apply Hall, list_elem_of_In, Hx. }
  unfold cleanName. rewrite Hh, Hs, trim_idem, String.eqb_refl.
  destruct (trim x); [contradiction|reflexivity].
Qed.

(** X1: every name extracted from a text satisfies [cleanName]: it is not
    empty, carries no white space at either end, holds no newline, semicolon
    or comma, and is not the header. *)
Theorem parsed_names_clean (text t : string) :
  In t (parseNamesFromText text) ->
  t <> EmptyString /\ trim t = t /\ allChars notListSep t = true /\ isHeader t = false.
Proof.
  intros H. apply parse_clean in H. unfold cleanName in H.
  apply andb_true_iff in H as [H Hh]. apply andb_true_iff in H as [H Hs].
  apply andb_true_iff in H as [Hne Ht]. apply String.eqb_eq in Ht.
  repeat split; try assumption.
  - intros ->. discriminate Hne.
  - apply negb_true_iff, Hh.
Qed.

Lemma parsed_names_clean_witness :
  trim "Bob" = "Bob" /\ isHeader "Bob" = false.
Proof.
  assert (H : In "Bob" (parseNamesFromText scenario1)) by (vm_compute; tauto).
  destruct (parsed_names_clean scenario1 "Bob" H) as (_ & Ht & _ & Hh).
  split; assumption.
Defined.

Lemma splitList_cons2 c c2 r :
  splitList (String c (String c2 r))
  = if isListSep c then EmptyString :: splitList (String c2 r)
    else if Ascii.eqb c CR && Ascii.eqb c2 LF then EmptyString :: splitList r
    else consHead c (splitList (String c2 r)).
Proof. reflexivity. Qed.

Lemma splitList_single n :
  allChars notListSep n = true -> splitList n = [n].
Proof.
  induction n as [|c n IH]; [reflexivity|]. intros H. simpl in H.
  apply andb_true_iff in H as [Hc Hn]. specialize (IH Hn).
  unfold notListSep in Hc. apply negb_true_iff in Hc.
  destruct n as [|c2 n]; [simpl; rewrite Hc; reflexivity|].
  rewrite splitList_cons2, Hc.
  simpl in Hn. apply andb_true_iff in Hn as [Hc2 _].
  assert (Hlf : Ascii.eqb c2 LF = false).
  { destruct (Ascii.eqb_spec c2 LF) as [->|]; [discriminate Hc2|reflexivity]. }
  rewrite Hlf, andb_false_r, IH. reflexivity.
Qed.

Lemma splitList_line n rest :
  allChars notListSep n = true -> lastSpace n = false ->
  splitList (n +:+ String LF rest) = n :: splitList rest.
Proof.
  induction n as [|c n IH]; intros Hall Hlast; [reflexivity|].
  simpl in Hall. apply andb_true_iff in Hall as [Hc Hn].
  unfold notListSep in Hc. apply negb_true_iff in Hc.
  destruct n as [|c2 n].
  - simpl in Hlast. rewrite app_cons, app_empty_l, splitList_cons2, Hc.
    assert (Hcr : Ascii.eqb c CR = false).
    { destruct (Ascii.eqb_spec c CR) as [->|]; [discriminate Hlast|reflexivity]. }
    rewrite Hcr. simpl. reflexivity.
  - rewrite !app_cons, splitList_cons2, Hc.
    assert (Hlf : Ascii.eqb c2 LF = false).
    { simpl in Hn. apply andb_true_iff in Hn as [Hc2 _].
      destruct (Ascii.eqb_spec c2 LF) as [->|]; [discriminate Hc2|reflexivity]. }
    rewrite Hlf, andb_false_r. rewrite <- app_cons, (IH Hn Hlast). reflexivity.
Qed.

Lemma trimEnd_lastSpace s : lastSpace (trimEnd s) = false.
Proof.
  induction s as [|c s IH]; [reflexivity|]. simpl.
  destruct (isWhiteSpace c) eqn:Hc; destruct (trimEnd s) as [|c' r] eqn:E;
    simpl; try reflexivity; try exact Hc; exact IH.
Qed.

Lemma cleanName_parts t :
  cleanName t = true ->
  t <> EmptyString /\ trim t = t /\ allChars notListSep t = true /\
  isHeader t = false /\ lastSpace t = false.
Proof.
  unfold cleanName. intros H.
  apply andb_true_iff in H as [H Hh]. apply andb_true_iff in H as [H Hs].
  apply andb_true_iff in H as [Hne Ht]. apply String.eqb_eq in Ht.
  repeat split; try assumption.
  - intros ->. discriminate Hne.
  - apply negb_true_iff, Hh.
  - rewrite <- Ht. apply trimEnd_lastSpace.
Qed.

Lemma splitList_joinLines l :
  Forall (fun t => cleanName t = true) l -> l <> [] -> splitList (joinLines l) = l.
Proof.
  induction 1 as [|t l Ht Hl IH]; intros Hne; [contradiction|].
  apply cleanName_parts in Ht as (_ & _ & Hs & _ & Hlast).
  destruct l as [|t2 l]; [apply splitList_single, Hs|].
  change (joinLines (t :: t2 :: l)) with (t +:+ String LF (joinLines (t2 :: l))).
  rewrite (splitList_line _ _ Hs Hlast), IH by discriminate. reflexivity.
Qed.

Lemma parse_joinLines l :
  Forall (fun t => cleanName t = true) l -> parseNamesFromText (joinLines l) = l.
Proof.
  intros Hl. destruct l as [|t l]; [reflexivity|].
  unfold parseNamesFromText. rewrite (splitList_joinLines _ Hl) by discriminate.
  induction Hl as [|x l' Hx _ IH]; [reflexivity|].
  apply cleanName_parts in Hx as (Hne & Ht & _ & Hh & _).
  simpl. rewrite Ht. destruct x as [|c x]; [contradiction|]. simpl.
  rewrite Hh. simpl. f_equal. exact IH.
Qed.

(** X2: the names extracted from a text, written one per line and extracted
    again, are the same names in the same order: extraction reads back its
    own result. *)
Theorem parse_joinLines_roundtrip (text : string) :
  parseNamesFromText (joinLines (parseNamesFromText text)) = parseNamesFromText text.
Proof.
  apply parse_joinLines, Forall_forall. intros t Ht.
  apply (parse_clean text), list_elem_of_In, Ht.
Qed.

(** ** Names from a file, whatever the format *)

Lemma extract_returned f ns log :
  extractNamesFromFile f = (Returned ns, log) ->
  ns = [] \/ (exists c, ns = parseNamesFromText c) \/
  (exists c rows, fileContent f = Some c /\ sheetCells f c = Some rows /\
     (fileExt f = ".xlsx" \/ fileExt f = ".xls") /\
     ns = List.filter (fun s => negb (isEmpty s)) (map trim (omap id (concat rows)))).
Proof.
  unfold extractNamesFromFile.
  destruct (String.eqb_spec (fileExt f) ".csv") as [_|_].
  { destruct (fileContent f); intros [= <- _]; eauto. }
  destruct (String.eqb_spec (fileExt f) ".xlsx") as [Hx|_];
    [|destruct (String.eqb_spec (fileExt f) ".xls") as [Hx|_]]; simpl.
  1,2: destruct (fileContent f) as [c|]; [|discriminate];
       destruct (sheetCells f c) as [rows|] eqn:Hr; [|discriminate];
       intros [= <- _]; right; right; exists c, rows; tauto.
  destruct (String.eqb_spec (fileExt f) ".docx") as [_|_].
  { destruct (fileContent f) as [c|]; [|discriminate].
    destruct (rawText f c); [|discriminate]. intros [= <- _]; eauto. }
  destruct (String.eqb_spec (fileExt f) ".pdf") as [_|_].
  { destruct (fileContent f) as [c|]; [|intros [= <- _]; eauto].
    destruct (pdfImport f); [|intros [= <- _]; eauto].
    destruct (pdfText f c); intros [= <- _]; eauto. }
  destruct (fileContent f); intros [= <- _]; eauto.
Qed.

(** X3: whatever the format (text, spreadsheet, document, PDF, unknown), a
    name that the extraction returns is never empty and carries no white
    space at either end. *)
Theorem extracted_names_trimmed (f : listFile) (ns log : list string) (t : string) :
  extractNamesFromFile f = (Returned ns, log) ->
  In t ns -> t <> EmptyString /\ trim t = t.
Proof.
  intros H Hin.
  apply extract_returned in H as [-> | [(c & ->) | (c & rows & _ & _ & _ & ->)]].
  - destruct Hin.
  - apply parse_clean, cleanName_parts in Hin. tauto.
  - apply filter_In in Hin as [Hin Hne].
    apply in_map_iff in Hin as (x & <- & _). split; [|apply trim_idem].
    intros E. rewrite E in Hne. discriminate Hne.
Qed.

Lemma extracted_names_trimmed_witness :
  trim "Alice" = "Alice".
Proof.
  apply (extracted_names_trimmed
           {| fileExt := ".csv"; fileContent := Some scenario1;
              sheetCells := fun _ => None; rawText := fun _ => None;
              pdfImport := false; pdfText := fun _ => None |}
           ["Alice"; "Bob"] [] "Alice").
  - vm_compute. reflexivity.
  - simpl. tauto.
Defined.

(** X4: the header filter is applied to text only.  For every extension but
    .xlsx and .xls, no returned name is the header or holds a separator; for
    a spreadsheet every cell that is not null and not blank is returned,
    trimmed, a cell that reads [Liste] included. *)
Theorem header_filter_by_format (f : listFile) (ns log : list string) :
  extractNamesFromFile f = (Returned ns, log) ->
  (fileExt f <> ".xlsx" -> fileExt f <> ".xls" ->
     forall t, In t ns -> isHeader t = false /\ allChars notListSep t = true) /\
  (fileExt f = ".xlsx" \/ fileExt f = ".xls" ->
     forall c rows row cell,
       fileContent f = Some c -> sheetCells f c = Some rows ->
       In row rows -> In (Some cell) row -> trim cell <> EmptyString ->
       In (trim cell) ns).
Proof.
  intros H. split.
  - intros Hx1 Hx2 t Hin.
    apply extract_returned in H as [-> | [(c & ->) | (c & rows & _ & _ & [E|E] & _)]];
      [destruct Hin| |contradiction..].
    apply parse_clean, cleanName_parts in Hin. tauto.
  - intros Hext c rows row cell Hc Hrows Hrow Hcell Hne.
    unfold extractNamesFromFile in H.
    assert (Hcsv : String.eqb (fileExt f) ".csv" = false)
      by (destruct Hext as [-> | ->]; reflexivity).
    assert (Hxl : String.eqb (fileExt f) ".xlsx" || String.eqb (fileExt f) ".xls" = true)
      by (destruct Hext as [-> | ->]; reflexivity).
    rewrite Hcsv, Hxl, Hc, Hrows in H. injection H as <- _.
    apply filter_In. split.
    + apply in_map. apply list_elem_of_In, list_elem_of_omap.
      exists (Some cell). split; [|reflexivity].
      apply list_elem_of_In, in_concat. eauto.
    + destruct (trim cell); [contradiction|reflexivity].
Qed.

Lemma header_filter_by_format_witness :
  In "Liste"
     (List.filter (fun s => negb (isEmpty s)) (map trim (omap id (concat [[Some " Liste"; None]])))).
Proof.
  pose (f := {| fileExt := ".xlsx"; fileContent := Some "bytes";
                sheetCells := fun _ => Some [[Some " Liste"; None]];
                rawText := fun _ => None; pdfImport := false;
                pdfText := fun _ => None |}).
  refine (proj2 (header_filter_by_format f _ [] eq_refl) _ "bytes" [[Some " Liste"; None]]
            [Some " Liste"; None] " Liste" eq_refl eq_refl _ _ _).
  - left. reflexivity.
  - simpl. tauto.
  - simpl. tauto.
  - vm_compute. discriminate.
Defined.

(** ** The text of the layer *)

Lemma replaceChar_app c r a b :
  replaceChar c r (a +:+ b) = replaceChar c r a +:+ replaceChar c r b.
Proof.
  induction a as [|x a IH]; [reflexivity|]. rewrite app_cons. simpl.
  destruct (Ascii.eqb x c); rewrite IH; [rewrite app_assoc|]; reflexivity.
Qed.

Lemma escapeText_each t : escapeText (Some t) = escapeEach t.
Proof.
  unfold escapeText, orEmpty. simpl default.
  induction t as [|c t IH]; [reflexivity|].
  simpl replaceChar at 3. simpl escapeEach. unfold escapeChar.
  destruct (Ascii.eqb_spec c "&") as [->|Hamp].
  - rewrite !replaceChar_app, IH. reflexivity.
  - simpl replaceChar at 2. destruct (Ascii.eqb_spec c "<") as [->|Hlt].
    + rewrite replaceChar_app, IH. reflexivity.
    + simpl replaceChar at 1. destruct (Ascii.eqb_spec c ">") as [->|Hgt].
      * rewrite IH. reflexivity.
      * rewrite IH. reflexivity.
Qed.

Lemma escapeChar_notAngle c : allChars notAngle (escapeChar c) = true.
Proof.
  unfold escapeChar.
  destruct (Ascii.eqb_spec c "&"); [reflexivity|].
  destruct (Ascii.eqb c "<") eqn:Hlt; [reflexivity|].
  destruct (Ascii.eqb c ">") eqn:Hgt; [reflexivity|].
  simpl. unfold notAngle. rewrite Hlt, Hgt. reflexivity.
Qed.

Lemma escapeEach_notAngle t : allChars notAngle (escapeEach t) = true.
Proof.
  induction t as [|c t IH]; [reflexivity|]. simpl.
  rewrite allChars_app, escapeChar_notAngle, IH. reflexivity.
Qed.

Lemma escapeChar_head c :
  exists r, escapeChar c = String (if Ascii.eqb c "<" || Ascii.eqb c ">" then "&"%char else c) r.
Proof.
  unfold escapeChar.
  destruct (Ascii.eqb_spec c "&") as [->|]; [eexists; reflexivity|].
  destruct (Ascii.eqb c "<"); [eexists; reflexivity|].
  destruct (Ascii.eqb c ">"); eexists; reflexivity.
Qed.

Lemma escapeEach_inj a b : escapeEach a = escapeEach b -> a = b.
Proof.
  revert b. induction a as [|x a IH]; intros [|y b] E.
  - reflexivity.
  - simpl in E. destruct (escapeChar_head y) as [r Hr]. rewrite Hr in E. discriminate E.
  - simpl in E. destruct (escapeChar_head x) as [r Hr]. rewrite Hr in E. discriminate E.
  - simpl in E. destruct (ascii_dec x y) as [->|Hne].
    + apply String.app_inj in E. f_equal. exact (IH b E).
    + exfalso. unfold escapeChar in E.
      destruct (Ascii.eqb_spec x "&") as [->|Hx1];
      destruct (Ascii.eqb_spec y "&") as [->|Hy1];
      try destruct (Ascii.eqb_spec x "<") as [->|Hx2];
      try destruct (Ascii.eqb_spec y "<") as [->|Hy2];
      try destruct (Ascii.eqb_spec x ">") as [->|Hx3];
      try destruct (Ascii.eqb_spec y ">") as [->|Hy3];
      try contradiction; rewrite ?app_cons in E; try discriminate E;
      injection E as E1 _; congruence.
Qed.

(** X5: the three replacements of [buildSVGText], [&] first, amount to
    escaping each character of the text once (nothing is escaped twice); the
    escaped text holds no [<] and no [>], and two different texts never get
    the same escaped text. *)
Theorem text_escaped_once (t t' : string) :
  escapeText (Some t) = escapeEach t /\
  allChars notAngle (escapeText (Some t)) = true /\
  (escapeText (Some t) = escapeText (Some t') -> t = t').
Proof.
  rewrite !escapeText_each. split; [reflexivity|]. split.
  - apply escapeEach_notAngle.
  - apply escapeEach_inj.
Qed.

Lemma text_escaped_once_witness :
  escapeText (Some "a<b&c") = "a&lt;b&amp;c".
Proof.
  rewrite (proj1 (text_escaped_once "a<b&c" "a<b&c")). reflexivity.
Defined.

(** ** The window and the list *)

(** X6: the loop of the generation derives a name only inside the list:
    every index of the window is at least 0 and below the number of names,
    so [names[idx]] is a name, and the offset is then an integer.  The one
    way out of the list is an offset that is not an integer: when it lies
    inside a list of fewer than 2^32 names, the first turn reads
    [names[offset]], which is no name, and the request is answered 500 with
    the session store as it was. *)
Theorem window_indices_in_bounds (L : libs) (req : generateRequest) (s : server)
    (sess : session) :
  let total := Z.of_nat (length (names sess)) in
  let start := windowStart (gOffset req) in
  (forall idx, idx ∈ windowIndices total (gOffset req) (gLimit req) ->
     0 <= idx < total /\ is_Some (nameAt (names sess) idx) /\
     is_Some (asInteger start)) /\
  (sessions s !! gSessionId req = Some sess -> is_Some (usableModel sess) ->
   total < 2 ^ 32 -> asInteger start = None -> (start < inject_Z total)%Q ->
   (generateHandler L req s).2 = Status 500 "Generation failed." /\
   sessions (generateHandler L req s).1 = sessions s).
Proof.
  intros total start. split.
  - intros idx Hin. pose proof (windowIndices_elem _ _ _ _ Hin) as Hb.
    split; [exact Hb|]. split.
    + unfold nameAt. destruct (Z.ltb_spec idx 0); [lia|].
      apply lookup_lt_is_Some. lia.
    + destruct (asInteger start) eqn:Hz; [eexists; reflexivity|].
      unfold start in Hz. rewrite windowIndices_fraction in Hin by exact Hz.
      apply elem_of_nil in Hin. contradiction.
  - intros Hs [m Hm] Ht Hz Hlt. unfold generateHandler. rewrite Hs, Hm.
    fold total. rewrite (loopTurns_fraction total _ _ ltac:(lia) Hz Hlt).
    split; reflexivity.
Qed.

Lemma window_indices_in_bounds_witness :
  is_Some (nameAt ["Alice"; "Bob"; "Chloe"] 2) /\
  (generateHandler workingLibs
     {| gSessionId := "s1"; gStyle := sampleStyle (Fin 48); gFormat := None;
        gOffset := Fin (1 # 2); gLimit := NaN |}
     (sampleServer ["Alice"; "Bob"; "Chloe"])).2 = Status 500 "Generation failed.".
Proof.
  pose proof (window_indices_in_bounds workingLibs
                {| gSessionId := "s1"; gStyle := sampleStyle (Fin 48); gFormat := None;
                   gOffset := Fin (1 # 2); gLimit := NaN |}
                (sampleServer ["Alice"; "Bob"; "Chloe"])
                (sampleSession "s1" ["Alice"; "Bob"; "Chloe"])) as [_ Hthrow].
  pose proof (window_indices_in_bounds workingLibs
                {| gSessionId := "s1"; gStyle := sampleStyle (Fin 48); gFormat := None;
                   gOffset := Fin 1; gLimit := Fin 7 |}
                (sampleServer ["Alice"; "Bob"; "Chloe"])
                (sampleSession "s1" ["Alice"; "Bob"; "Chloe"])) as [Hin _].
  split.
  - apply (Hin 2). apply list_elem_of_In. vm_compute. tauto.
  - apply Hthrow; [reflexivity | eexists; reflexivity | reflexivity | reflexivity
                  | reflexivity].
Defined.

Lemma windowIndices_integers total o l :
  0 <= total < 2 ^ 32 -> 0 <= o -> l <> 0 ->
  windowIndices total (Fin (inject_Z o)) (Fin (inject_Z l))
  = seqZ o (Z.min total (o + Z.max 1 (Z.min maxBatch l)) - o).
Proof.
  intros Ht Ho Hl.
  assert (Hstart : (windowStart (Fin (inject_Z o)) == inject_Z o)%Q).
  { unfold windowStart, finiteOr. apply Q.max_r.
    change 0%Q with (inject_Z 0). rewrite <- Zle_Qle. exact Ho. }
  rewrite (windowIndices_integer _ _ _ o Hstart).
  destruct (Z_lt_le_dec o total) as [Hin|Hout].
  - rewrite (Qceiling_comp _ _
               (endExclusive_integers total _ _ o l ltac:(lia) Hl Hstart (Qeq_refl _))).
    rewrite Qceiling_Z. reflexivity.
  - pose proof (endExclusive_le total (windowStart (Fin (inject_Z o)))
                  (batchSize (Fin (inject_Z l)))) as Hle.
    apply Qceiling_le_Z in Hle.
    rewrite !seqZ_nil by lia. reflexivity.
Qed.

(** X7: successive batches tile the list.  For a list of fewer than 2^32
    names, an integer offset [o] that is not negative and an integer limit
    that is not zero, with the batch size [b = max(1, min(50, limit))], the
    window at offset [o] followed by the window at offset [o + b] is the run
    of indices from [o] up to [min(total, o + 2b)]: nothing is skipped and
    nothing is done twice. *)
Theorem consecutive_windows_tile (total o l : Z) :
  0 <= total < 2 ^ 32 -> 0 <= o -> l <> 0 ->
  let b := Z.max 1 (Z.min maxBatch l) in
  windowIndices total (Fin (inject_Z o)) (Fin (inject_Z l))
  ++ windowIndices total (Fin (inject_Z (o + b))) (Fin (inject_Z l))
  = seqZ o (Z.min total (o + 2 * b) - o).
Proof.
  intros Ht Ho Hl b.
  assert (Hb : 1 <= b) by (unfold b; lia).
  rewrite !windowIndices_integers by lia. fold b.
  destruct (Z_le_gt_dec total (o + b)) as [Hle|Hgt].
  - rewrite (seqZ_nil (o + b)) by lia. rewrite app_nil_r. f_equal. lia.
  - replace (Z.min total (o + b) - o) with b by lia.
    replace (Z.min total (o + 2 * b) - o) with (b + (Z.min total (o + b + b) - (o + b))) by lia.
    rewrite seqZ_app by lia. reflexivity.
Qed.

Lemma consecutive_windows_tile_witness :
  windowIndices 120 (Fin 0) (Fin 80) ++ windowIndices 120 (Fin 50) (Fin 80)
  = seqZ 0 100.
Proof.
  apply (consecutive_windows_tile 120 0 80); [split; [discriminate | reflexivity] | lia | lia].
Defined.

(** ** The session store *)

Lemma server_eta s : {| sessions := sessions s; disk := disk s |} = s.
Proof. destruct s; reflexivity. Qed.

(** X8: destroying a session that does not exist changes nothing, so
    destroying twice is destroying once; and it leaves every other session's
    entry as it was. *)
Theorem cleanup_idempotent_and_local (L : libs) (id id' : string) (s : server) :
  (sessions s !! id = None -> cleanupSession L id s = s) /\
  cleanupSession L id (cleanupSession L id s) = cleanupSession L id s /\
  (id' <> id -> sessions (cleanupSession L id s) !! id' = sessions s !! id').
Proof.
  assert (Hnone : forall s0, sessions s0 !! id = None -> cleanupSession L id s0 = s0).
  { intros s0 H. unfold cleanupSession. rewrite H. reflexivity. }
  split; [apply Hnone|]. split.
  - apply Hnone. unfold cleanupSession.
    destruct (sessions s !! id) eqn:E; [apply lookup_delete_eq|exact E].
  - intros Hne. unfold cleanupSession.
    destruct (sessions s !! id); [|reflexivity]. simpl.
    apply lookup_delete_ne. congruence.
Qed.

Lemma cleanup_idempotent_and_local_witness :
  cleanupSession lockedLibs "s2" (sampleServer ["Alice"]) = sampleServer ["Alice"].
Proof.
  apply (proj1 (cleanup_idempotent_and_local lockedLibs "s2" "s1" (sampleServer ["Alice"]))).
  vm_compute. reflexivity.
Defined.

Lemma removePath_frame L d p k :
  under p k = false -> removePath L d p !! k = d !! k.
Proof.
  intros Hu. unfold removePath.
  destruct (negb (isEmpty p) && existsSync d p); [|reflexivity].
  destruct (rmOk L p); [|reflexivity].
  unfold rmSync. destruct (d !! k) as [x|] eqn:Hk.
  - apply map_lookup_filter_Some. split; [exact Hk|exact Hu].
  - apply map_lookup_filter_None. left. exact Hk.
Qed.

Lemma cleanup_fold_frame L l d k :
  Forall (fun p => under p k = false) l -> foldl (removePath L) d l !! k = d !! k.
Proof.
  revert d. induction l as [|p l IH]; intros d H; [reflexivity|].
  inversion H as [|? ? Hp Hl]; subst. simpl.
  rewrite (IH _ Hl). apply removePath_frame, Hp.
Qed.

(** X9: destroying a session removes nothing but what lies at or below one
    of its registered paths: a path of the disk that is under none of them
    holds after the destruction what it held before. *)
Theorem cleanup_only_registered (L : libs) (id : string) (s : server) (sess : session)
    (k : string) :
  sessions s !! id = Some sess ->
  Forall (fun p => under p k = false) (cleanup sess) ->
  disk (cleanupSession L id s) !! k = disk s !! k.
Proof.
  intros Hs Hk. unfold cleanupSession. rewrite Hs. simpl.
  apply cleanup_fold_frame, Hk.
Qed.

Lemma cleanup_only_registered_witness :
  disk (cleanupSession workingLibs "s1" (sampleServer ["Alice"])) !! "/srv/uploads/1-list.csv.bak"
  = disk (sampleServer ["Alice"]) !! "/srv/uploads/1-list.csv.bak".
Proof.
  apply (cleanup_only_registered workingLibs "s1" (sampleServer ["Alice"])
           (sampleSession "s1" ["Alice"])).
  - vm_compute. reflexivity.
  - repeat constructor.
Defined.

(** X10: a session that was just created, on an identifier that was free,
    is destroyed without a trace: the session map and the disk are those of
    before the creation. *)
Theorem new_session_destroyed (L : libs) (id : string) (now : Z) (s : server) :
  sessions s !! id = None ->
  cleanupSession L id (newSession id now s) = s.
Proof.
  intros H. unfold cleanupSession, newSession. simpl.
  rewrite lookup_insert_eq. simpl.
  rewrite delete_insert_id by exact H. apply server_eta.
Qed.

Lemma new_session_destroyed_witness :
  cleanupSession lockedLibs "s2" (newSession "s2" 7 (sampleServer ["Alice"]))
  = sampleServer ["Alice"].
Proof.
  apply (new_session_destroyed lockedLibs "s2" 7 (sampleServer ["Alice"])).
  vm_compute. reflexivity.
Defined.

(** ** Directories *)

Lemma prefix_iff a b : String.prefix a b = true <-> exists c, b = a +:+ c.
Proof.
  revert b. induction a as [|x a IH]; intros b.
  - split; [intros _; exists b; reflexivity|]. intros _. destruct b; reflexivity.
  - destruct b as [|y b]; simpl.
    + split; [discriminate|]. intros [c E]. rewrite app_cons in E. discriminate E.
    + destruct (ascii_dec x y) as [->|Hne].
      * rewrite IH. split; intros [c E]; exists c.
        -- rewrite app_cons, E. reflexivity.
        -- rewrite app_cons in E. injection E as E. exact E.
      * split; [discriminate|]. intros [c E]. rewrite app_cons in E.
        injection E as E _. congruence.
Qed.

Lemma under_iff p k : under p k = true <-> k = p \/ exists c, k = p +:+ String "/" c.
Proof.
  unfold under. rewrite orb_true_iff, String.eqb_eq, prefix_iff.
  split; intros [H|[c H]]; auto; right; exists c; rewrite H.
  - rewrite app_assoc. reflexivity.
  - rewrite app_assoc. reflexivity.
Qed.

Lemma under_trans q p k : under q p = true -> under p k = true -> under q k = true.
Proof.
  rewrite !under_iff. intros [Hp | [c Hp]] [Hk | [c' Hk]]; subst.
  - left. reflexivity.
  - right. exists c'. reflexivity.
  - right. exists c. reflexivity.
  - right. exists (c +:+ String "/" c'). rewrite app_assoc. reflexivity.
Qed.

Lemma removePath_gone_stays L d p k :
  (d !! p = None -> forall k', under p k' = true -> d !! k' = None) ->
  forall q, removePath L d q !! p = None -> under p k = true ->
  removePath L d q !! k = None.
Proof.
  intros Hclosed q Hp Hk. unfold removePath in *.
  destruct (negb (isEmpty q) && existsSync d q); [|exact (Hclosed Hp k Hk)].
  destruct (rmOk L q); [|exact (Hclosed Hp k Hk)].
  unfold rmSync in *. apply map_lookup_filter_None in Hp as [Hp|Hp].
  - apply map_lookup_filter_None. left. exact (Hclosed Hp k Hk).
  - apply map_lookup_filter_None. right. intros x Hx. simpl.
    destruct (d !! p) as [y|] eqn:E.
    + specialize (Hp y eq_refl). simpl in Hp.
      apply not_false_is_true in Hp. rewrite (under_trans q p k Hp Hk). discriminate.
    + rewrite (Hclosed eq_refl k Hk) in Hx. discriminate Hx.
Qed.

Lemma removePath_below L d p k :
  p <> EmptyString -> rmOk L p = true ->
  (d !! p = None -> forall k', under p k' = true -> d !! k' = None) ->
  under p k = true -> removePath L d p !! k = None.
Proof.
  intros Hne Hrm Hclosed Hk. unfold removePath, existsSync.
  destruct p as [|c p]; [contradiction|]. simpl.
  case_bool_decide as He.
  - rewrite Hrm. unfold rmSync. apply map_lookup_filter_None. right.
    intros x _. simpl. rewrite Hk. discriminate.
  - apply Hclosed; [|exact Hk].
    destruct (d !! String c p) eqn:E; [|reflexivity]. exfalso. apply He. eauto.
Qed.

Lemma cleanup_fold_below L l d p k :
  In p l -> p <> EmptyString -> rmOk L p = true ->
  (d !! p = None -> forall k', under p k' = true -> d !! k' = None) ->
  under p k = true -> foldl (removePath L) d l !! k = None.
Proof.
  revert d. induction l as [|q l IH]; intros d Hin Hne Hrm Hclosed Hk; [destruct Hin|].
  simpl. destruct Hin as [-> | Hin].
  - apply cleanup_fold_none, removePath_below; assumption.
  - apply IH; try assumption.
    intros Hp k' Hk'. exact (removePath_gone_stays L d p k' Hclosed q Hp Hk').
Qed.

(** X11: destroying a session empties its registered directories.  If a
    registered path exists when the destruction starts and its removal does
    not throw, then after the destruction nothing is left at that path or
    anywhere below it, wherever the path stands in the registry and whatever
    the other removals did. *)
Theorem cleanup_removes_directory (L : libs) (id : string) (s : server) (sess : session)
    (p k : string) :
  sessions s !! id = Some sess ->
  In p (cleanup sess) -> p <> EmptyString -> rmOk L p = true ->
  is_Some (disk s !! p) ->
  under p k = true ->
  disk (cleanupSession L id s) !! k = None.
Proof.
  intros Hs Hin Hne Hrm [n Hn] Hk. unfold cleanupSession. rewrite Hs. simpl.
  apply (cleanup_fold_below L _ _ p k Hin Hne Hrm); [|exact Hk].
  intros Hnone. rewrite Hn in Hnone. discriminate Hnone.
Qed.

Lemma cleanup_removes_directory_witness :
  disk (cleanupSession workingLibs "s1"
          (generateHandler workingLibs (sampleRequest "png") (sampleServer ["Alice"])).1)
    !! "/srv/work/s1/all/001-Alice.png" = None.
Proof.
  apply (cleanup_removes_directory workingLibs "s1" _
           (pushCleanup (sampleSession "s1" ["Alice"]) "/srv/work/s1")
           "/srv/work/s1" "/srv/work/s1/all/001-Alice.png").
  - vm_compute. reflexivity.
  - simpl. tauto.
  - discriminate.
  - reflexivity.
  - vm_compute. eauto.
  - reflexivity.
Defined.

(** ** What a generation touches *)

Lemma artifactName_length idx name ext :
  (5 <= String.length (artifactName idx name ext))%nat.
Proof.
  unfold artifactName. rewrite !app_length, padStart0_length. simpl. lia.
Qed.

Lemma out_below outDir file : below outDir (pathJoin outDir file) = true.
Proof.
  unfold below, pathJoin. apply prefix_iff. exists file.
  rewrite app_assoc. reflexivity.
Qed.

Lemma tmp_below outDir file :
  (4 <= String.length file)%nat -> below outDir (jpgToPng (pathJoin outDir file)) = true.
Proof.
  intros Hlen. unfold below, pathJoin. apply prefix_iff.
  exists (jpgToPng file).
  rewrite jpgToPng_app by (rewrite app_length; simpl; lia).
  rewrite app_assoc. reflexivity.
Qed.

Ltac run_generateOne :=
  unfold generateOne, composeImageWithText, writeFile, unlinkSync, readFile,
    ioBind, ioSome, ioGuard, ioModify, ioRet, ioThrow;
  repeat match goal with
    | |- context [match nameAt ?l ?i with _ => _ end] => destruct (nameAt l i) eqn:?
    | |- context [if String.eqb ?e "png" then _ else _] => destruct (String.eqb e "png") eqn:?
    | |- context [match sharpMeta ?L ?m with _ => _ end] => destruct (sharpMeta L m) eqn:?
    | |- context [if compositeOk ?L ?m ?v then _ else _] =>
        destruct (compositeOk L m v) eqn:?
    | |- context [if writeOk ?L ?p then _ else _] => destruct (writeOk L p) eqn:?
    | |- context [if jpegOk ?L ?p then _ else _] => destruct (jpegOk L p) eqn:?
    | |- context [if unlinkOk ?L ?p then _ else _] => destruct (unlinkOk L p) eqn:?
    | |- context [<[?p := ?n]> ?d !! ?p] => rewrite (lookup_insert_eq d p n)
    | _ => progress cbn [fst snd]
    end.

Lemma generateOne_touches L sess m outDir ext st idx :
  touchesOnly (below outDir) (generateOne L sess m outDir ext st idx).
Proof.
  intros d k Hk.
  assert (Hout : forall name, pathJoin outDir (artifactName idx name ext) <> k).
  { intros name E. rewrite <- E, out_below in Hk. discriminate Hk. }
  assert (Htmp : forall name, jpgToPng (pathJoin outDir (artifactName idx name ext)) <> k).
  { intros name E. rewrite <- E, tmp_below in Hk; [discriminate Hk|].
    pose proof (artifactName_length idx name ext). lia. }
  run_generateOne; simpl;
    rewrite ?lookup_delete_ne, ?lookup_insert_ne by auto; reflexivity.
Qed.

Lemma forEach_touches {A} P (body : A -> io unit) l :
  (forall a, touchesOnly P (body a)) -> touchesOnly P (forEach body l).
Proof.
  intros Hb. induction l as [|a l IH]; intros d k Hk; [reflexivity|].
  simpl. unfold ioBind. pose proof (Hb a d k Hk) as Ha.
  destruct (body a d) as [d' [[]|]]; simpl in *; [|exact Ha].
  rewrite (IH d' k Hk). exact Ha.
Qed.

Lemma mkdirOne_keeps d p k n : d !! k = Some n -> mkdirOne d p !! k = Some n.
Proof.
  intros H. unfold mkdirOne. destruct (d !! p) eqn:E; [exact H|].
  rewrite lookup_insert_ne; [exact H|]. intros ->. rewrite H in E. discriminate E.
Qed.

Lemma mkdirs_keep l d k n : d !! k = Some n -> foldl mkdirOne d l !! k = Some n.
Proof.
  revert d. induction l as [|p l IH]; intros d H; [exact H|].
  simpl. apply IH, mkdirOne_keeps, H.
Qed.

Lemma ensureDir_keeps d p k n : d !! k = Some n -> ensureDir d p !! k = Some n.
Proof.
  intros H. unfold ensureDir. destruct (existsSync d p); [exact H|].
  apply mkdirs_keep, H.
Qed.

Lemma below_under sessDir k : below (pathJoin sessDir "all") k = true -> under sessDir k = true.
Proof.
  unfold below, pathJoin. rewrite prefix_iff, under_iff. intros [c ->]. right.
  exists ("all/" +:+ c). rewrite !app_assoc. reflexivity.
Qed.

Lemma zip_under sessDir : under sessDir (pathJoin sessDir "invitations.zip") = true.
Proof. apply under_iff. right. exists "invitations.zip". reflexivity. Qed.

(** What a successful generation went through. *)
Lemma generate_success L req s s1 url processed offset total :
  generateHandler L req s = (s1, GenerateJson url processed offset total) ->
  let sessDir := pathJoin (workDir L) (gSessionId req) in
  let outDir := pathJoin sessDir "all" in
  let zipPath := pathJoin sessDir "invitations.zip" in
  exists sess m d2,
    sessions s !! gSessionId req = Some sess /\
    usableModel sess = Some m /\
    forEach (generateOne L sess m outDir (outputExt (gFormat req)) (gStyle req))
            (windowIndices (Z.of_nat (length (names sess))) (gOffset req) (gLimit req))
            (ensureDir (disk s) outDir) = (d2, Some tt) /\
    s1 = {| sessions := <[gSessionId req := pushCleanup sess sessDir]> (sessions s);
            disk := <[zipPath := File (Zip 9 (archiveEntries d2 outDir))]> d2 |} /\
    processed = roundDouble
                  (endExclusive (Z.of_nat (length (names sess))) (windowStart (gOffset req))
                     (batchSize (gLimit req)) - windowStart (gOffset req)) /\
    offset = windowStart (gOffset req) /\
    total = Z.of_nat (length (names sess)).
Proof.
  intros H sessDir outDir zipPath. unfold generateHandler in H.
  fold sessDir outDir zipPath in H.
  destruct (sessions s !! gSessionId req) as [sess|] eqn:Hs; [|discriminate].
  destruct (usableModel sess) as [m|] eqn:Hm; [|discriminate].
  destruct (loopTurns _ _) as [turns|] eqn:Hturns; [|discriminate H].
  change (ioBind (ioSome (Some turns)) ?k) with (k turns) in H. cbv beta in H.
  unfold ioBind in H.
  destruct (forEach _ _ (ensureDir (disk s) outDir)) as [d2 [[]|]] eqn:Hloop;
    [|discriminate H].
  unfold zipDirectory, ioBind, ioGuard in H.
  destruct (zipOk L zipPath); [|discriminate H]. simpl in H.
  injection H as <- _ <- <- <-. exists sess, m, d2.
  unfold windowIndices. rewrite Hturns.
  repeat split; assumption || reflexivity.
Qed.

(** X12: a generation request, whether it succeeds or fails, leaves every
    other session's entry as it was and leaves in place, with what it held,
    every path of the disk that is not the session's work directory or below
    it. *)
Theorem generate_isolated (L : libs) (req : generateRequest) (s : server) :
  let s' := (generateHandler L req s).1 in
  let sessDir := pathJoin (workDir L) (gSessionId req) in
  (forall id', id' <> gSessionId req -> sessions s' !! id' = sessions s !! id') /\
  (forall k n, under sessDir k = false -> disk s !! k = Some n -> disk s' !! k = Some n).
Proof.
  intros s' sessDir. subst s'. unfold generateHandler. fold sessDir.
  destruct (sessions s !! gSessionId req) as [sess|]; [|split; auto].
  destruct (usableModel sess) as [m|]; [|split; auto].
  set (outDir := pathJoin sessDir "all"). set (zipPath := pathJoin sessDir "invitations.zip").
  destruct (loopTurns _ _) as [turns|].
  2: { split; [reflexivity|]. intros k n Hk Hn. apply ensureDir_keeps, Hn. }
  change (ioBind (ioSome (Some turns)) ?k) with (k turns). cbv beta.
  set (loop := forEach _ _).
  assert (Hframe : forall k n, under sessDir k = false -> disk s !! k = Some n ->
            forall d r, ioBind loop (fun _ => zipDirectory L outDir zipPath)
                          (ensureDir (disk s) outDir) = (d, r) -> d !! k = Some n).
  { intros k n Hk Hn d r Hrun.
    assert (Hb : below outDir k = false).
    { destruct (below outDir k) eqn:E; [|reflexivity].
      apply below_under in E. congruence. }
    assert (Hz : zipPath <> k).
    { intros <-. unfold zipPath in Hk. rewrite zip_under in Hk. discriminate Hk. }
    pose proof (forEach_touches (below outDir) _ turns
                  (generateOne_touches L sess m outDir (outputExt (gFormat req)) (gStyle req))
                  (ensureDir (disk s) outDir) k Hb) as Hloop.
    fold loop in Hloop. unfold ioBind in Hrun.
    destruct (loop (ensureDir (disk s) outDir)) as [d2 [[]|]]; simpl in Hloop.
    - unfold zipDirectory, ioBind, ioGuard in Hrun.
      destruct (zipOk L zipPath); simpl in Hrun; injection Hrun as <- _.
      + rewrite lookup_insert_ne by exact Hz. rewrite Hloop. apply ensureDir_keeps, Hn.
      + rewrite Hloop. apply ensureDir_keeps, Hn.
    - injection Hrun as <- _. rewrite Hloop. apply ensureDir_keeps, Hn. }
  destruct (ioBind loop _ (ensureDir (disk s) outDir)) as [d [[]|]] eqn:Hrun; simpl.
  - split; [intros id' Hne; apply lookup_insert_ne; congruence|].
    intros k n Hk Hn. exact (Hframe k n Hk Hn d _ eq_refl).
  - split; [reflexivity|]. intros k n Hk Hn. exact (Hframe k n Hk Hn d _ eq_refl).
Qed.

Lemma generate_isolated_witness :
  disk (generateHandler failingJpegLibs (sampleRequest "jpg") (sampleServer ["Alice"])).1
    !! "/srv/uploads/1-list.csv" = Some (File (Uploaded "list")).
Proof.
  apply (generate_isolated failingJpegLibs (sampleRequest "jpg") (sampleServer ["Alice"]));
    reflexivity.
Defined.

(** ** What a successful generation leaves *)

Lemma dropChars_app a b : dropChars (String.length a) (a +:+ b) = b.
Proof. induction a as [|c a IH]; [destruct b; reflexivity|]. rewrite app_cons. exact IH. Qed.

Lemma dropChars_dir dir x :
  dropChars (S (String.length dir)) ((dir +:+ "/") +:+ x) = x.
Proof.
  replace (S (String.length dir)) with (String.length (dir +:+ "/"))
    by (rewrite app_length; simpl; lia).
  apply dropChars_app.
Qed.

(** The archive lists the files below the directory, each under its path
    relative to the directory. *)
Lemma archiveEntries_lookup d dir r c :
  archiveEntries d dir !! r = Some c <-> d !! pathJoin dir r = Some (File c).
Proof.
  unfold archiveEntries.
  set (strip := fun kv : string * node =>
                  match kv.2 with
                  | File c0 => Some (dropChars (S (String.length dir)) kv.1, c0)
                  | Dir => None
                  end).
  set (P := fun kv : string * node => String.prefix (dir +:+ "/") kv.1 = true).
  assert (Hmem : forall r0 c0, (r0, c0) ∈ omap strip (map_to_list (filter P d)) <->
                               d !! pathJoin dir r0 = Some (File c0)).
  { intros r0 c0. rewrite list_elem_of_omap. split.
    - intros ([k n] & Hkn & Hs). apply elem_of_map_to_list in Hkn.
      apply map_lookup_filter_Some in Hkn as [Hk Hp]. unfold P in Hp. simpl in Hp.
      apply prefix_iff in Hp as [x ->]. unfold strip in Hs. cbn [fst snd] in Hs.
      rewrite dropChars_dir in Hs.
      destruct n as [|c1]; [discriminate Hs|]. injection Hs as <- <-.
      unfold pathJoin. rewrite <- app_assoc. exact Hk.
    - intros Hk. exists (pathJoin dir r0, File c0). split.
      + apply elem_of_map_to_list, map_lookup_filter_Some. split; [exact Hk|].
        unfold P. simpl. apply prefix_iff. exists r0. unfold pathJoin.
        rewrite app_assoc. reflexivity.
      + unfold strip. cbn [fst snd]. f_equal. f_equal.
        unfold pathJoin. rewrite <- app_assoc. apply dropChars_dir. }
  split.
  - intros H. apply elem_of_list_to_map_2 in H. apply Hmem, H.
  - intros H.
    destruct (list_to_map (omap strip (map_to_list (filter P d))) !! r) as [c'|] eqn:E.
    + apply elem_of_list_to_map_2 in E. apply Hmem in E. congruence.
    + apply not_elem_of_list_to_map_2 in E. exfalso. apply E.
      apply list_elem_of_fmap. exists (r, c). split; [reflexivity|]. apply Hmem, H.
Qed.

Lemma outputExt_cases fmt : outputExt fmt = "png" \/ outputExt fmt = "jpg".
Proof.
  unfold outputExt. destruct fmt as [f|]; [|by left].
  destruct (String.eqb f "jpg" || String.eqb f "jpeg"); [by right|by left].
Qed.

Lemma pathJoin_inj dir a b : pathJoin dir a = pathJoin dir b -> a = b.
Proof.
  unfold pathJoin. intros E. apply String.app_inj in E.
  rewrite !app_cons, !app_empty_l in E. injection E as E. exact E.
Qed.

Lemma nameAt_nonneg l idx name : nameAt l idx = Some name -> 0 <= idx.
Proof. unfold nameAt. destruct (Z.ltb_spec idx 0); [discriminate|lia]. Qed.

Lemma generateOne_puts L sess m outDir fmt st idx name wh :
  nameAt (names sess) idx = Some name -> sharpMeta L m = Some wh ->
  puts (pathJoin outDir (artifactName idx name (outputExt fmt)))
       (File (artifactImage m (outputExt fmt) st wh name))
       (generateOne L sess m outDir (outputExt fmt) st idx).
Proof.
  intros Hn Hm d. unfold artifactImage.
  destruct (outputExt_cases fmt) as [-> | ->].
  - run_generateOne; simpl; try discriminate; simplify_eq. intros _.
    apply lookup_insert_eq.
  - run_generateOne; simpl; try discriminate; simplify_eq. intros _.
    rewrite lookup_delete_ne by (intros E; symmetry in E; revert E; apply jpgPath_not_tmp).
    apply lookup_insert_eq.
Qed.

Lemma generateOne_keepsNode L sess m outDir fmt st idx name wh j :
  nameAt (names sess) idx = Some name -> sharpMeta L m = Some wh ->
  keepsNode (pathJoin outDir (artifactName idx name (outputExt fmt)))
            (File (artifactImage m (outputExt fmt) st wh name))
            (generateOne L sess m outDir (outputExt fmt) st j).
Proof.
  intros Hn Hm d Hd. unfold artifactImage in *.
  assert (Hsame : forall nj, nameAt (names sess) j = Some nj ->
            pathJoin outDir (artifactName j nj (outputExt fmt))
            = pathJoin outDir (artifactName idx name (outputExt fmt)) ->
            nj = name).
  { intros nj Hj E. apply pathJoin_inj in E.
    apply artifactName_index in E; [|eapply nameAt_nonneg; eauto..].
    subst j. congruence. }
  destruct (outputExt_cases fmt) as [Hext|Hext]; rewrite Hext in *.
  - run_generateOne; simpl; try discriminate; simplify_eq. intros _.
    match goal with |- <[?p := _]> _ !! ?k = _ => destruct (decide (p = k)) as [E|E] end.
    + rewrite E, lookup_insert_eq. rewrite (Hsame _ eq_refl E). reflexivity.
    + rewrite lookup_insert_ne by exact E. exact Hd.
  - run_generateOne; simpl; try discriminate; simplify_eq. intros _.
    rewrite lookup_delete_ne by (intros E; symmetry in E; revert E; apply jpgPath_not_tmp).
    match goal with |- <[?p := _]> _ !! ?k = _ => destruct (decide (p = k)) as [E|E] end.
    + rewrite E, lookup_insert_eq. rewrite (Hsame _ eq_refl E). reflexivity.
    + rewrite lookup_insert_ne by exact E.
      rewrite lookup_insert_ne by (intros E'; symmetry in E'; revert E'; apply jpgPath_not_tmp).
      exact Hd.
Qed.

Lemma forEach_keepsNode {A} k n (body : A -> io unit) l :
  (forall a, keepsNode k n (body a)) -> keepsNode k n (forEach body l).
Proof.
  intros Hb. induction l as [|a l IH]; intros d Hd Hok; [exact Hd|].
  simpl in *. unfold ioBind in *.
  destruct (body a d) as [d' [[]|]] eqn:E; [|discriminate Hok].
  apply IH; [|exact Hok].
  pose proof (Hb a d Hd) as H. rewrite E in H. apply H. reflexivity.
Qed.

Lemma forEach_puts {A} k n (body : A -> io unit) l j :
  (forall a, keepsNode k n (body a)) -> In j l -> puts k n (body j) ->
  puts k n (forEach body l).
Proof.
  intros Hb Hin Hj. induction l as [|a l IH]; [destruct Hin|].
  intros d Hok. simpl in *. unfold ioBind in *.
  destruct (body a d) as [d' [[]|]] eqn:E; [|discriminate Hok].
  destruct Hin as [-> | Hin].
  - apply (forEach_keepsNode k n body l Hb d'); [|exact Hok].
    pose proof (Hj d) as H. rewrite E in H. apply H. reflexivity.
  - apply (IH Hin d' Hok).
Qed.

Lemma forEach_fails {A} (body : A -> io unit) l j :
  In j l -> (forall d, (body j d).2 = None) -> forall d, (forEach body l d).2 = None.
Proof.
  intros Hin Hj. induction l as [|a l IH]; [destruct Hin|]. intros d.
  simpl. unfold ioBind. destruct (body a d) as [d' [[]|]] eqn:E; [|reflexivity].
  destruct Hin as [-> | Hin]; [|apply (IH Hin)].
  specialize (Hj d). rewrite E in Hj. discriminate Hj.
Qed.

Lemma generateOne_needs_template L sess m outDir ext st idx d :
  sharpMeta L m = None -> (generateOne L sess m outDir ext st idx d).2 = None.
Proof. intros Hm. run_generateOne; simpl; congruence. Qed.

(** X13: after a generation that succeeded, every name of the window has its
    artifact on disk, at the derived file name in the output directory, and
    in the archive under that file name: the template composed with the text
    layer of that very name and the style of the request, converted to JPEG
    at quality 90 when jpg was asked for. *)
Theorem generated_artifacts (L : libs) (req : generateRequest) (s s1 : server)
    (sess : session) (url : string) (processed offset : Q) (total idx : Z)
    (name : string) :
  generateHandler L req s = (s1, GenerateJson url processed offset total) ->
  sessions s !! gSessionId req = Some sess ->
  In idx (windowIndices (Z.of_nat (length (names sess))) (gOffset req) (gLimit req)) ->
  nameAt (names sess) idx = Some name ->
  let sessDir := pathJoin (workDir L) (gSessionId req) in
  let outDir := pathJoin sessDir "all" in
  let ext := outputExt (gFormat req) in
  exists m wh entries,
    modelPath sess = Some m /\ sharpMeta L m = Some wh /\
    disk s1 !! pathJoin outDir (artifactName idx name ext)
      = Some (File (artifactImage m ext (gStyle req) wh name)) /\
    disk s1 !! pathJoin sessDir "invitations.zip" = Some (File (Zip 9 entries)) /\
    entries !! artifactName idx name ext
      = Some (artifactImage m ext (gStyle req) wh name).
Proof.
  intros H Hs Hin Hn sessDir outDir ext.
  apply generate_success in H as (sess' & m & d2 & Hs' & Hm & Hloop & -> & _).
  fold sessDir outDir ext in Hloop |- *. rewrite Hs in Hs'. injection Hs' as <-.
  destruct (sharpMeta L m) as [wh|] eqn:Hmeta.
  2:{ pose proof (forEach_fails _ _ idx Hin
                    (fun d => generateOne_needs_template L sess m outDir ext (gStyle req)
                                idx d Hmeta) (ensureDir (disk s) outDir)) as Hf.
      rewrite Hloop in Hf. discriminate Hf. }
  assert (Hout : d2 !! pathJoin outDir (artifactName idx name ext)
                 = Some (File (artifactImage m ext (gStyle req) wh name))).
  { pose proof (forEach_puts _ _ _ _ idx
                  (fun j => generateOne_keepsNode L sess m outDir (gFormat req) (gStyle req)
                              idx name wh j Hn Hmeta)
                  Hin
                  (generateOne_puts L sess m outDir (gFormat req) (gStyle req) idx name wh
                     Hn Hmeta)
                  (ensureDir (disk s) outDir)) as Hp.
    fold ext in Hp. rewrite Hloop in Hp. apply Hp. reflexivity. }
  exists m, wh, (archiveEntries d2 outDir). simpl.
  apply usableModel_Some in Hm as (Hm & _).
  split; [exact Hm|]. split; [exact Hmeta|]. split; [|split].
  - rewrite lookup_insert_ne; [exact Hout|].
    intros E. symmetry in E. revert E. apply outPath_not_zip.
  - apply lookup_insert_eq.
  - apply archiveEntries_lookup, Hout.
Qed.

Lemma generated_artifacts_witness :
  exists m wh entries,
    modelPath (sampleSession "s1" ["Alice"; "Bob"]) = Some m /\
    sharpMeta workingLibs m = Some wh /\
    disk (generateHandler workingLibs (sampleRequest "jpg")
            (sampleServer ["Alice"; "Bob"])).1
      !! "/srv/work/s1/all/002-Bob.jpg"
      = Some (File (artifactImage m "jpg" (sampleStyle (Fin 48)) wh "Bob")) /\
    disk (generateHandler workingLibs (sampleRequest "jpg")
            (sampleServer ["Alice"; "Bob"])).1
      !! "/srv/work/s1/invitations.zip" = Some (File (Zip 9 entries)) /\
    entries !! "002-Bob.jpg"
      = Some (artifactImage m "jpg" (sampleStyle (Fin 48)) wh "Bob").
Proof.
  refine (generated_artifacts workingLibs (sampleRequest "jpg")
            (sampleServer ["Alice"; "Bob"]) _ (sampleSession "s1" ["Alice"; "Bob"])
            "/api/download/s1" 2 0 2 1 "Bob" _ _ _ _).
  - vm_compute. reflexivity.
  - vm_compute. reflexivity.
  - vm_compute. tauto.
  - reflexivity.
Defined.

Lemma generateOne_png_keepsFiles L sess m outDir st idx :
  keepsFiles (generateOne L sess m outDir "png" st idx).
Proof.
  intros d k c Hk. run_generateOne; simpl; eauto; try discriminate.
  all: match goal with
       | |- exists _, <[?p := _]> _ !! _ = _ => destruct (decide (p = k)) as [->|E]
       end.
  all: rewrite ?lookup_insert_eq, ?lookup_insert_ne by assumption; eauto.
Qed.

Lemma forEach_keepsFiles {A} (body : A -> io unit) l :
  (forall a, keepsFiles (body a)) -> keepsFiles (forEach body l).
Proof.
  intros Hb. induction l as [|a l IH]; intros d k c Hk; [simpl; eauto|].
  simpl. unfold ioBind. destruct (Hb a d k c Hk) as [c' Ha].
  destruct (body a d) as [d' [[]|]]; simpl in *; [|eauto].
  apply (IH d' k c' Ha).
Qed.

(** X14: the output directory is never emptied, so batches pile up.  After a
    png generation that succeeded, every file that was on disk is still a
    file, and every file that was in the output directory before the call,
    an artifact of an earlier batch for instance, is listed in the new
    archive. *)
Theorem png_batches_accumulate (L : libs) (req : generateRequest) (s s1 : server)
    (url : string) (processed offset : Q) (total : Z) :
  generateHandler L req s = (s1, GenerateJson url processed offset total) ->
  outputExt (gFormat req) = "png" ->
  let sessDir := pathJoin (workDir L) (gSessionId req) in
  let outDir := pathJoin sessDir "all" in
  (forall k c, disk s !! k = Some (File c) -> exists c', disk s1 !! k = Some (File c')) /\
  (forall r c, disk s !! pathJoin outDir r = Some (File c) ->
     exists entries c',
       disk s1 !! pathJoin sessDir "invitations.zip" = Some (File (Zip 9 entries)) /\
       entries !! r = Some c').
Proof.
  intros H Hext sessDir outDir.
  apply generate_success in H as (sess & m & d2 & _ & _ & Hloop & -> & _).
  fold sessDir outDir in Hloop. rewrite Hext in Hloop. simpl.
  assert (Hkeep : forall k c, disk s !! k = Some (File c) -> exists c', d2 !! k = Some (File c')).
  { intros k c Hk.
    pose proof (forEach_keepsFiles _
                  (windowIndices (Z.of_nat (length (names sess))) (gOffset req) (gLimit req))
                  (generateOne_png_keepsFiles L sess m outDir (gStyle req))
                  (ensureDir (disk s) outDir) k c (ensureDir_keeps _ _ _ _ Hk)) as Hf.
    rewrite Hloop in Hf. exact Hf. }
  split.
  - intros k c Hk. destruct (Hkeep k c Hk) as [c' Hc'].
    destruct (decide (pathJoin sessDir "invitations.zip" = k)) as [<-|E].
    + rewrite lookup_insert_eq. eauto.
    + rewrite lookup_insert_ne by exact E. eauto.
  - intros r c Hr. destruct (Hkeep _ c Hr) as [c' Hc'].
    exists (archiveEntries d2 outDir), c'. split; [apply lookup_insert_eq|].
    apply archiveEntries_lookup, Hc'.
Qed.

Lemma png_batches_accumulate_witness :
  let s1 := (generateHandler workingLibs
               {| gSessionId := "s1"; gStyle := sampleStyle (Fin 48); gFormat := None;
                  gOffset := Fin 0; gLimit := Fin 1 |}
               (sampleServer ["Alice"; "Bob"])).1 in
  let s2 := (generateHandler workingLibs
               {| gSessionId := "s1"; gStyle := sampleStyle (Fin 48); gFormat := None;
                  gOffset := Fin 1; gLimit := Fin 1 |} s1).1 in
  exists entries c',
    disk s2 !! "/srv/work/s1/invitations.zip" = Some (File (Zip 9 entries)) /\
    entries !! "001-Alice.png" = Some c'.
Proof.
  intros s1 s2.
  refine (proj2 (png_batches_accumulate workingLibs
                   {| gSessionId := "s1"; gStyle := sampleStyle (Fin 48); gFormat := None;
                      gOffset := Fin 1; gLimit := Fin 1 |} s1 s2
                   "/api/download/s1" 1 1 2 _ eq_refl) "001-Alice.png"
            (artifactImage "/srv/uploads/1-model.png" "png" (sampleStyle (Fin 48))
               (800, 600) "Alice") _).
  - vm_compute. reflexivity.
  - vm_compute. reflexivity.
Defined.

Lemma pngPath_is_tmp outDir idx name :
  pathJoin outDir (artifactName idx name "png")
  = jpgToPng (pathJoin outDir (artifactName idx name "jpg")).
Proof.
  rewrite jpgPath_split, jpgToPng_suffix.
  unfold pathJoin, artifactName. rewrite !app_assoc. reflexivity.
Qed.

(** X15: a jpg generation uses, as its temporary file, the path of the png
    artifact of the same index and name, and removes it.  So after a jpg
    generation that succeeded, no name of the window has a png artifact left
    in the output directory, even if an earlier png generation had made one;
    its jpg artifact is there. *)
Theorem jpg_replaces_png (L : libs) (req : generateRequest) (s s1 : server)
    (sess : session) (url : string) (processed offset : Q) (total idx : Z)
    (name : string) :
  generateHandler L req s = (s1, GenerateJson url processed offset total) ->
  outputExt (gFormat req) = "jpg" ->
  sessions s !! gSessionId req = Some sess ->
  In idx (windowIndices (Z.of_nat (length (names sess))) (gOffset req) (gLimit req)) ->
  nameAt (names sess) idx = Some name ->
  let outDir := pathJoin (pathJoin (workDir L) (gSessionId req)) "all" in
  disk s1 !! pathJoin outDir (artifactName idx name "png") = None /\
  is_Some (disk s1 !! pathJoin outDir (artifactName idx name "jpg")).
Proof.
  intros H Hext Hs Hin Hn outDir. split.
  - rewrite pngPath_is_tmp.
    exact (successful_jpg_leaves_no_temporary L req s s1 sess url processed offset total
             idx name H Hext Hs Hin Hn).
  - apply generate_success in H as (sess' & m & d2 & Hs' & _ & Hloop & -> & _).
    rewrite Hs in Hs'. injection Hs' as <-. fold outDir in Hloop.
    destruct (sharpMeta L m) as [wh|] eqn:Hmeta.
    2:{ pose proof (forEach_fails _ _ idx Hin
                      (fun d => generateOne_needs_template L sess m outDir
                                  (outputExt (gFormat req)) (gStyle req)
                                  idx d Hmeta) (ensureDir (disk s) outDir)) as Hf.
        rewrite Hloop in Hf. discriminate Hf. }
    pose proof (forEach_puts _ _ _ _ idx
                  (fun j => generateOne_keepsNode L sess m outDir (gFormat req) (gStyle req)
                              idx name wh j Hn Hmeta)
                  Hin
                  (generateOne_puts L sess m outDir (gFormat req) (gStyle req) idx name wh
                     Hn Hmeta)
                  (ensureDir (disk s) outDir)) as Hp.
    rewrite Hloop in Hp. specialize (Hp eq_refl). rewrite Hext in Hp. simpl.
    rewrite lookup_insert_ne by (intros E; symmetry in E; revert E; apply outPath_not_zip).
    simpl in Hp. rewrite Hp. eauto.
Qed.

Lemma jpg_replaces_png_witness :
  let s1 := (generateHandler workingLibs (sampleRequest "png")
               (sampleServer ["Alice"; "Bob"])).1 in
  let s2 := (generateHandler workingLibs (sampleRequest "jpg") s1).1 in
  is_Some (disk s1 !! "/srv/work/s1/all/001-Alice.png") /\
  disk s2 !! "/srv/work/s1/all/001-Alice.png" = None.
Proof.
  intros s1 s2. split; [vm_compute; eauto|].
  refine (proj1 (jpg_replaces_png workingLibs (sampleRequest "jpg") s1 s2
            (pushCleanup (sampleSession "s1" ["Alice"; "Bob"]) "/srv/work/s1")
            "/api/download/s1" 2 0 2 0 "Alice" _ eq_refl _ _ eq_refl)).
  - vm_compute. reflexivity.
  - vm_compute. reflexivity.
  - vm_compute. tauto.
Defined.

(** X16: the count in the answer of a successful generation is the double
    nearest to [endExclusive - start].  For a list of fewer than 2^32 names,
    an integer offset below 2^52 and a limit that is absent, zero, not finite
    or an integer: when the offset is within the list the count is the number
    of artifacts made; when it is past the end of the list no artifact is
    made, the call still succeeds, and the count it reports is the negative
    number [total - offset]. *)
Theorem processed_count (L : libs) (req : generateRequest) (s s1 : server)
    (url : string) (processed offset : Q) (total o : Z) :
  generateHandler L req s = (s1, GenerateJson url processed offset total) ->
  total < 2 ^ 32 -> o < 2 ^ 52 ->
  (windowStart (gOffset req) == inject_Z o)%Q ->
  (batchSize (gLimit req) = None \/
   exists requested l, gLimit req = Fin requested /\ (requested == inject_Z l)%Q /\ l <> 0) ->
  exists sess,
    sessions s !! gSessionId req = Some sess /\
    total = Z.of_nat (length (names sess)) /\
    offset = windowStart (gOffset req) /\
    (o <= total ->
       processed = inject_Z (windowLength total (gOffset req) (gLimit req))) /\
    (total < o ->
       processed = inject_Z (total - o) /\ (processed < 0)%Q /\
       windowIndices total (gOffset req) (gLimit req) = []).
Proof.
  intros H Ht Ho Hz Hlimit.
  apply generate_success in H as (sess & m & d2 & Hs & _ & _ & _ & -> & -> & ->).
  exists sess. split; [exact Hs|]. split; [reflexivity|]. split; [reflexivity|].
  set (total := Z.of_nat (length (names sess))) in *.
  assert (Ht0 : 0 <= total) by (unfold total; lia).
  pose proof (windowStart_nonneg (gOffset req)) as H0.
  assert (Ho0 : 0 <= o) by (rewrite Zle_Qle; literals; lra).
  set (start := windowStart (gOffset req)) in *.
  assert (Hstop : exists stopZ,
            (endExclusive total start (batchSize (gLimit req)) == inject_Z stopZ)%Q /\
            stopZ <= total /\ (o <= total -> o <= stopZ) /\ (total < o -> stopZ = total)).
  { destruct Hlimit as [Hb|(requested & l & Hl & Hr & Hne)].
    - exists total. rewrite Hb. cbn [endExclusive]. split; [reflexivity|lia].
    - exists (Z.min total (o + Z.max 1 (Z.min maxBatch l))). rewrite Hl. split.
      + apply (endExclusive_integers total _ _ o l); [lia | exact Hne | exact Hz | exact Hr].
      + unfold maxBatch. lia. }
  destruct Hstop as (stopZ & Hstop & Hle & Hin & Hout).
  set (stop := endExclusive total start (batchSize (gLimit req))) in *.
  assert (Hproc : roundDouble (stop - start) = inject_Z (stopZ - o)).
  { apply roundDouble_integer.
    - rewrite Hstop, Hz. unfold Qminus. rewrite <- inject_Z_opp, <- inject_Z_plus.
      reflexivity.
    - assert (- 2 ^ 52 < stopZ - o < 2 ^ 32) by lia. lia. }
  assert (Hlen : windowLength total (gOffset req) (gLimit req) = Z.max 0 (stopZ - o)).
  { rewrite (windowLength_integer _ _ _ o Hz). fold start stop.
    rewrite (Qceiling_comp _ _ Hstop), Qceiling_Z. reflexivity. }
  rewrite Hproc. split.
  - intros Hw. rewrite Hlen. f_equal. specialize (Hin Hw). lia.
  - intros Hp. rewrite (Hout Hp). split; [reflexivity|]. split.
    + change 0%Q with (inject_Z 0). rewrite <- Zlt_Qlt. lia.
    + rewrite (windowIndices_integer _ _ _ o Hz). fold start stop.
      rewrite (Qceiling_comp _ _ Hstop), Qceiling_Z. apply seqZ_nil. lia.
Qed.

Lemma processed_count_witness :
  (generateHandler workingLibs
     {| gSessionId := "s1"; gStyle := sampleStyle (Fin 48); gFormat := None;
        gOffset := Fin 5; gLimit := Fin 10 |}
     (sampleServer ["Alice"; "Bob"])).2
  = GenerateJson "/api/download/s1" (-3) 5 2.
Proof.
  pose (req := {| gSessionId := "s1"; gStyle := sampleStyle (Fin 48); gFormat := None;
                  gOffset := Fin 5; gLimit := Fin 10 |}).
  destruct (processed_count workingLibs req (sampleServer ["Alice"; "Bob"])
              (generateHandler workingLibs req (sampleServer ["Alice"; "Bob"])).1
              "/api/download/s1" (-3) 5 2 5 ltac:(vm_compute; reflexivity)
              ltac:(reflexivity) ltac:(reflexivity) ltac:(reflexivity)
              ltac:(right; exists 10%Q, 10; repeat split; discriminate))
    as (sess & _ & _ & _ & _ & _).
  vm_compute. reflexivity.
Defined.

(** ** The work directory, from generation to download *)

Lemma rev_app_rev_app a b c :
  String.rev_app (String.rev_app a b) c = String.rev_app b (a +:+ c).
Proof.
  revert b c. induction a as [|x a IH]; intros b c; [reflexivity|].
  simpl. rewrite IH. reflexivity.
Qed.

Lemma app_empty_r (a : string) : a +:+ EmptyString = a.
Proof. induction a as [|x a IH]; [reflexivity|]. rewrite app_cons, IH. reflexivity. Qed.

Lemma parentDirs_dir seen a b :
  isEmpty seen = false \/ isEmpty a = false ->
  In (String.rev (String.rev_app a seen)) (parentDirs seen (a +:+ String "/" b)).
Proof.
  revert seen. induction a as [|c a IH]; intros seen Hne.
  - rewrite app_empty_l. simpl. destruct Hne as [Hs|Ha]; [|discriminate Ha].
    rewrite Hs. simpl. left. reflexivity.
  - rewrite app_cons. simpl parentDirs. apply in_or_app. right.
    apply (IH (String c seen)). left. reflexivity.
Qed.

Lemma parentDirs_parent dir seg :
  dir <> EmptyString -> In dir (parentDirs EmptyString (pathJoin dir seg)).
Proof.
  intros Hne. unfold pathJoin.
  pose proof (parentDirs_dir EmptyString dir seg) as H.
  unfold String.rev in H. rewrite rev_app_rev_app in H. simpl in H.
  rewrite app_empty_r in H. apply H. right. destruct dir; [contradiction|reflexivity].
Qed.

Lemma mkdirs_exist l d p : In p l -> is_Some (foldl mkdirOne d l !! p).
Proof.
  revert d. induction l as [|q l IH]; intros d Hin; [destruct Hin|].
  simpl. destruct Hin as [-> | Hin]; [|apply IH, Hin].
  destruct (mkdirOne_exists d p) as [n Hn]. exists n. apply mkdirs_keep, Hn.
Qed.

Lemma ensureDir_parent d dir seg :
  dir <> EmptyString ->
  (is_Some (d !! pathJoin dir seg) -> is_Some (d !! dir)) ->
  is_Some (ensureDir d (pathJoin dir seg) !! dir).
Proof.
  intros Hne Hwf. unfold ensureDir, existsSync. case_bool_decide as He.
  - apply Hwf, He.
  - unfold mkdirSync. apply mkdirs_exist, in_or_app. left.
    apply parentDirs_parent, Hne.
Qed.

Lemma pathJoin_nonempty a b : pathJoin a b <> EmptyString.
Proof.
  unfold pathJoin. intros E. apply (f_equal String.length) in E.
  rewrite app_length in E. simpl in E. lia.
Qed.

Lemma sessDir_not_below sessDir : below (pathJoin sessDir "all") sessDir = false.
Proof.
  destruct (below (pathJoin sessDir "all") sessDir) eqn:E; [|reflexivity].
  unfold below, pathJoin in E. apply prefix_iff in E as [c E].
  apply (f_equal String.length) in E. rewrite !app_length in E. simpl in E. lia.
Qed.

(** X17: from generation to download.  After a generation that succeeded, a
    download request sends the archive that the generation built, evicts the
    session and, when the removal of the session's work directory does not
    throw, leaves nothing at or below that directory: artifacts, archive and
    preview are gone.  (The directory is taken to exist whenever the output
    directory inside it does.) *)
Theorem download_after_generate (L : libs) (req : generateRequest) (s s1 : server)
    (url : string) (processed offset : Q) (total : Z) :
  generateHandler L req s = (s1, GenerateJson url processed offset total) ->
  let sessDir := pathJoin (workDir L) (gSessionId req) in
  let outDir := pathJoin sessDir "all" in
  (is_Some (disk s !! outDir) -> is_Some (disk s !! sessDir)) ->
  rmOk L sessDir = true ->
  exists entries s2,
    downloadHandler L (gSessionId req) s1 = (s2, Download (Some (Zip 9 entries))) /\
    disk s1 !! pathJoin sessDir "invitations.zip" = Some (File (Zip 9 entries)) /\
    sessions s2 !! gSessionId req = None /\
    (forall k, under sessDir k = true -> disk s2 !! k = None).
Proof.
  intros H sessDir outDir Hwf Hrm.
  apply generate_success in H as (sess & m & d2 & Hs & _ & Hloop & -> & _).
  fold sessDir outDir in Hloop.
  exists (archiveEntries d2 outDir). unfold downloadHandler. simpl. fold sessDir.
  rewrite !lookup_insert_eq. eexists. split; [reflexivity|]. split; [reflexivity|].
  unfold cleanupSession. simpl. rewrite lookup_insert_eq. simpl.
  split; [apply lookup_delete_eq|]. intros k Hk.
  apply (cleanup_fold_below L _ _ sessDir k); try assumption.
  - apply in_or_app. right. left. reflexivity.
  - apply pathJoin_nonempty.
  - intros Hnone. exfalso.
    assert (Hd2 : is_Some (d2 !! sessDir)).
    { pose proof (forEach_touches (below outDir) _
                    (windowIndices (Z.of_nat (length (names sess))) (gOffset req) (gLimit req))
                    (generateOne_touches L sess m outDir (outputExt (gFormat req)) (gStyle req))
                    (ensureDir (disk s) outDir) sessDir (sessDir_not_below sessDir)) as Hf.
      rewrite Hloop in Hf. simpl in Hf. rewrite Hf.
      apply ensureDir_parent; [apply pathJoin_nonempty|exact Hwf]. }
    destruct Hd2 as [n Hn]. destruct (decide (pathJoin sessDir "invitations.zip" = sessDir)) as [E|E].
    + apply (f_equal String.length) in E. unfold pathJoin in E.
      rewrite app_length in E. simpl in E. lia.
    + rewrite lookup_insert_ne in Hnone by exact E. congruence.
Qed.

Lemma download_after_generate_witness :
  exists entries s2,
    downloadHandler workingLibs "s1"
      (generateHandler workingLibs (sampleRequest "png") (sampleServer ["Alice"])).1
    = (s2, Download (Some (Zip 9 entries))) /\
    sessions s2 !! "s1" = None /\
    disk s2 !! "/srv/work/s1/all/001-Alice.png" = None.
Proof.
  destruct (download_after_generate workingLibs (sampleRequest "png")
              (sampleServer ["Alice"])
              (generateHandler workingLibs (sampleRequest "png") (sampleServer ["Alice"])).1
              "/api/download/s1" 1 0 1 ltac:(vm_compute; reflexivity)
              ltac:(vm_compute; intros [x Hx]; discriminate Hx) eq_refl)
    as (entries & s2 & Hd & _ & Hs & Hk).
  exists entries, s2. split; [exact Hd|]. split; [exact Hs|].
  apply Hk. reflexivity.
Defined.

(** X18: a download is served once.  After a download attempt that found
    the archive path, served or not, the same request is answered 400 (the
    session is gone) and changes nothing; and a download asked before any
    archive exists is answered 404 and destroys nothing. *)
Theorem download_once (L : libs) (sid : string) (s : server) :
  (forall s2 sent, downloadHandler L sid s = (s2, Download sent) ->
     downloadHandler L sid s2 = (s2, Status 400 "Invalid session")) /\
  (is_Some (sessions s !! sid) ->
   disk s !! pathJoin (pathJoin (workDir L) sid) "invitations.zip" = None ->
     downloadHandler L sid s = (s, Status 404 "ZIP not found")).
Proof.
  split.
  - intros s2 sent H. unfold downloadHandler in H.
    destruct (sessions s !! sid) as [sess|] eqn:Hs; [|discriminate H].
    assert (Hgone : sessions (cleanupSession L sid s) !! sid = None).
    { unfold cleanupSession. rewrite Hs. apply lookup_delete_eq. }
    destruct (disk s !! _) as [[|c]|]; [| |discriminate H];
      injection H as <- _; unfold downloadHandler; rewrite Hgone; reflexivity.
  - intros [sess Hs] Hz. unfold downloadHandler. rewrite Hs, Hz. reflexivity.
Qed.

Lemma download_once_witness :
  downloadHandler workingLibs "s1" (sampleServer ["Alice"])
  = (sampleServer ["Alice"], Status 404 "ZIP not found").
Proof.
  apply (download_once workingLibs "s1" (sampleServer ["Alice"])).
  - vm_compute. eauto.
  - vm_compute. reflexivity.
Defined.

(** ** Stored names of uploads *)

Lemma ofInt_inj a b : 0 <= a -> 0 <= b -> ofInt a = ofInt b -> a = b.
Proof.
  intros Ha Hb E. apply (f_equal decimalValue) in E.
  rewrite !ofInt_value in E by assumption. injection E as E. lia.
Qed.

Lemma digit_notSpace c : isDigit c = true -> notSpace c = true.
Proof.
  unfold isDigit, notSpace, isWhiteSpace, between. intros H.
  apply andb_true_iff in H as [H1 H2]. apply N.leb_le in H1, H2.
  apply negb_true_iff. repeat (apply orb_false_iff; split).
  - apply andb_false_iff. right. apply N.leb_gt. lia.
  - apply N.eqb_neq. lia.
  - apply N.eqb_neq. lia.
Qed.

Lemma allChars_impl (p q : ascii -> bool) s :
  (forall c, p c = true -> q c = true) -> allChars p s = true -> allChars q s = true.
Proof.
  intros Hpq. induction s as [|c s IH]; [reflexivity|]. simpl. intros H.
  apply andb_true_iff in H as [Hc Hs]. rewrite (Hpq c Hc), (IH Hs). reflexivity.
Qed.

Lemma replaceSpaceRuns_notSpace b s : allChars notSpace (replaceSpaceRuns b s) = true.
Proof.
  revert b. induction s as [|c s IH]; intros b; [reflexivity|]. simpl.
  destruct (isWhiteSpace c) eqn:Hc.
  - destruct b; simpl; apply IH.
  - simpl. unfold notSpace at 1. rewrite Hc. apply IH.
Qed.

(** X19: the name under which an upload is stored holds no white space, and
    it tells the two numbers it was made of: two uploads stored under the
    same name have the same time stamp, the same random number and the same
    original name up to white space. *)
Theorem storage_filename_unambiguous (now rnd now' rnd' : Z) (name name' : string) :
  0 <= now -> 0 <= rnd -> 0 <= now' -> 0 <= rnd' ->
  allChars notSpace (storageFilename now rnd name) = true /\
  (storageFilename now rnd name = storageFilename now' rnd' name' ->
     now = now' /\ rnd = rnd' /\
     replaceSpaceRuns false name = replaceSpaceRuns false name').
Proof.
  intros Hn Hr Hn' Hr'. unfold storageFilename. split.
  - rewrite !allChars_app.
    rewrite (allChars_impl _ _ _ digit_notSpace (ofInt_digits now Hn)).
    rewrite (allChars_impl _ _ _ digit_notSpace (ofInt_digits rnd Hr)).
    rewrite replaceSpaceRuns_notSpace. reflexivity.
  - change ("-" +:+ ?r) with (String "-" r). intros E.
    pose proof (digits_before_hyphen _ _ _ _ (ofInt_digits now Hn) (ofInt_digits now' Hn') E)
      as E1.
    rewrite E1 in E. apply String.app_inj in E. injection E as E.
    pose proof (digits_before_hyphen _ _ _ _ (ofInt_digits rnd Hr) (ofInt_digits rnd' Hr') E)
      as E2.
    rewrite E2 in E. apply String.app_inj in E. injection E as E.
    split; [apply ofInt_inj; assumption|]. split; [apply ofInt_inj; assumption|exact E].
Qed.

Lemma storage_filename_unambiguous_witness :
  allChars notSpace (storageFilename 1700000000000 42 "my list.csv") = true.
Proof.
  apply (storage_filename_unambiguous 1700000000000 42 0 0 "my list.csv" "x"); lia.
Defined.

(** ** Uploads *)

Lemma upload_both id now req s model lst :
  upFiles req = true -> upModel req = Some model -> upList req = Some lst ->
  exists ns,
    (uploadHandler id now req s).1
    = {| sessions := <[id := {| sessId := id; createdAt := now; modelPath := Some model;
                                listPath := Some lst; names := ns;
                                cleanup := [model; lst] |}]> (sessions s);
         disk := disk s |} /\
    ((extractNamesFromFile (upListFile req)).1 = Returned ns /\
     (uploadHandler id now req s).2 = UploadJson id (take 50 ns) (Z.of_nat (length ns))
     \/ (exists e, (extractNamesFromFile (upListFile req)).1 = Thrown e) /\ ns = [] /\
        (uploadHandler id now req s).2 = UploadStatus 500 "Upload failed.").
Proof.
  intros Hf Hm Hl. unfold uploadHandler, newSession. rewrite Hf, Hm, Hl. simpl.
  destruct (extractNamesFromFile (upListFile req)).1 as [ns|e] eqn:E.
  - exists ns. simpl. rewrite insert_insert_eq. split; [reflexivity|]. left. split; reflexivity.
  - exists []. simpl. rewrite insert_insert_eq. split; [reflexivity|]. right. eauto.
Qed.

(** X20: the two uploaded files are registered before the names are
    extracted.  After an upload that brought both files, destroying the
    session removes both (when their removal does not throw) and evicts the
    session, whether the extraction returned names or threw. *)
Theorem upload_then_destroy (L : libs) (id : string) (now : Z) (req : uploadRequest)
    (s : server) (model lst : string) :
  upFiles req = true -> upModel req = Some model -> upList req = Some lst ->
  model <> EmptyString -> lst <> EmptyString ->
  rmOk L model = true -> rmOk L lst = true ->
  let s1 := (uploadHandler id now req s).1 in
  let s2 := cleanupSession L id s1 in
  (exists sess, sessions s1 !! id = Some sess /\ cleanup sess = [model; lst]) /\
  sessions s2 !! id = None /\ disk s2 !! model = None /\ disk s2 !! lst = None.
Proof.
  intros Hf Hm Hl Hm0 Hl0 Hrm Hrl s1 s2. subst s2 s1.
  destruct (upload_both id now req s model lst Hf Hm Hl) as (ns & -> & _).
  unfold cleanupSession. simpl. rewrite lookup_insert_eq. simpl.
  split; [eexists; split; reflexivity|]. split; [apply lookup_delete_eq|].
  split.
  - apply (cleanup_fold_gone L [model; lst]); [simpl; tauto|assumption..].
  - apply (cleanup_fold_gone L [model; lst]); [simpl; tauto|assumption..].
Qed.

Lemma upload_then_destroy_witness :
  disk (cleanupSession workingLibs "s1"
          (uploadHandler "s1" 7 (sampleUpload (unreadable ".csv")) uploadedDisk).1)
    !! "/srv/uploads/1-list.csv" = None.
Proof.
  apply (upload_then_destroy workingLibs "s1" 7 (sampleUpload (unreadable ".csv"))
           uploadedDisk "/srv/uploads/1-model.png" "/srv/uploads/1-list.csv");
    reflexivity || discriminate.
Defined.

(** X21: an upload that lacks the template or the list is answered 400, yet
    it has created a session, with an empty cleanup registry: destroying
    that session removes nothing, so the one file that did arrive is not
    cleaned up with it. *)
Theorem upload_missing_file (L : libs) (id : string) (now : Z) (req : uploadRequest)
    (s : server) :
  upFiles req = true -> upModel req = None \/ upList req = None ->
  let s1 := (uploadHandler id now req s).1 in
  (uploadHandler id now req s).2
    = UploadStatus 400 "Model image and list file are required." /\
  (exists sess, sessions s1 !! id = Some sess /\ cleanup sess = [] /\ names sess = []) /\
  disk (cleanupSession L id s1) = disk s.
Proof.
  intros Hf Hmiss s1. subst s1. unfold uploadHandler. rewrite Hf.
  assert (E : match upModel req, upList req with
              | Some _, Some _ => False
              | _, _ => True
              end).
  { destruct Hmiss as [-> | ->]; [exact I|]. destruct (upModel req); exact I. }
  destruct (upModel req), (upList req); try contradiction; simpl;
    (split; [reflexivity|]; split;
     [eexists; split; [apply lookup_insert_eq|split; reflexivity]|];
     unfold cleanupSession, newSession; simpl; rewrite lookup_insert_eq; reflexivity).
Qed.

Lemma upload_missing_file_witness :
  disk (cleanupSession workingLibs "s1"
          (uploadHandler "s1" 7
             {| upFiles := true; upModel := Some "/srv/uploads/1-model.png";
                upList := None; upListFile := unreadable ".csv" |} uploadedDisk).1)
  = disk uploadedDisk.
Proof.
  apply (upload_missing_file workingLibs "s1" 7
           {| upFiles := true; upModel := Some "/srv/uploads/1-model.png";
              upList := None; upListFile := unreadable ".csv" |} uploadedDisk).
  - reflexivity.
  - right. reflexivity.
Defined.

(** X22: the answer of a successful upload and the session it stores agree:
    the total is the number of stored names, the preview is their first 50
    (all of them when there are fewer), in order, and every stored name is
    non-empty and trimmed. *)
Theorem upload_answer (id : string) (now : Z) (req : uploadRequest) (s s1 : server)
    (sid : string) (preview : list string) (total : Z) :
  uploadHandler id now req s = (s1, UploadJson sid preview total) ->
  sid = id /\
  exists sess,
    sessions s1 !! id = Some sess /\
    total = Z.of_nat (length (names sess)) /\
    preview = take 50 (names sess) /\
    Z.of_nat (length preview) = Z.min 50 total /\
    (forall t, In t (names sess) -> t <> EmptyString /\ trim t = t).
Proof.
  unfold uploadHandler. intros H.
  destruct (upFiles req); [|discriminate H].
  destruct (upModel req) as [model|]; [|discriminate H].
  destruct (upList req) as [lst|]; [|discriminate H].
  destruct (extractNamesFromFile (upListFile req)) as [[ns|e] log] eqn:E;
    simpl in H; [|discriminate H].
  injection H as <- <- <- <-. split; [reflexivity|].
  eexists. split; [apply lookup_insert_eq|]. simpl.
  split; [reflexivity|]. split; [reflexivity|]. split.
  - rewrite length_take. lia.
  - intros t Ht.
    apply extract_returned in E as [-> | [(c & ->) | (c & rows & _ & _ & _ & ->)]].
    + destruct Ht.
    + apply parse_clean, cleanName_parts in Ht. tauto.
    + apply filter_In in Ht as [Ht Hne].
      apply in_map_iff in Ht as (x & <- & _). split; [|apply trim_idem].
      intros E. rewrite E in Hne. discriminate Hne.
Qed.

Lemma upload_answer_witness :
  exists sess,
    sessions (uploadHandler "s1" 7 (sampleUpload (csvOf scenario1)) uploadedDisk).1 !! "s1"
      = Some sess /\
    2 = Z.of_nat (length (names sess)) /\
    ["Alice"; "Bob"] = take 50 (names sess).
Proof.
  destruct (upload_answer "s1" 7 (sampleUpload (csvOf scenario1)) uploadedDisk
              (uploadHandler "s1" 7 (sampleUpload (csvOf scenario1)) uploadedDisk).1
              "s1" ["Alice"; "Bob"] 2 ltac:(vm_compute; reflexivity))
    as (_ & sess & Hs & Ht & Hp & _).
  exists sess. split; [exact Hs|]. split; [exact Ht|exact Hp].
Defined.

(** X23: a session whose list gave no name is stuck.  After an upload whose
    extraction returned no name or threw, the preview and the generation are
    answered 400 and the download 404 (no archive was ever built), and none
    of the three changes the state: the session and its two uploaded files
    stay, and no request destroys them. *)
Theorem empty_list_session_stuck (L : libs) (id : string) (now : Z) (req : uploadRequest)
    (s : server) (model lst : string) (st : style) (fmt : option string)
    (offset limit : jsnum) :
  upFiles req = true -> upModel req = Some model -> upList req = Some lst ->
  (extractNamesFromFile (upListFile req)).1 = Returned [] \/
    (exists e, (extractNamesFromFile (upListFile req)).1 = Thrown e) ->
  disk s !! pathJoin (pathJoin (workDir L) id) "invitations.zip" = None ->
  let s1 := (uploadHandler id now req s).1 in
  testHandler L {| tSessionId := id; tStyle := st |} s1
    = (s1, Status 400 "Missing model or names") /\
  generateHandler L {| gSessionId := id; gStyle := st; gFormat := fmt;
                       gOffset := offset; gLimit := limit |} s1
    = (s1, Status 400 "Missing model or names") /\
  downloadHandler L id s1 = (s1, Status 404 "ZIP not found").
Proof.
  intros Hf Hm Hl Hex Hz s1. subst s1.
  destruct (upload_both id now req s model lst Hf Hm Hl) as (ns & -> & Hns).
  assert (ns = []) as ->.
  { destruct Hns as [[Hr _]|(_ & -> & _)]; [|reflexivity].
    destruct Hex as [Hex|[e Hex]]; congruence. }
  unfold testHandler, generateHandler, downloadHandler. simpl.
  rewrite !lookup_insert_eq. simpl.
  assert (Hu : forall m, (if isEmpty m || bool_decide ([] = @nil string) then None else Some m)
                         = None).
  { intros m. rewrite bool_decide_eq_true_2 by reflexivity. rewrite orb_true_r. reflexivity. }
  unfold usableModel. simpl. rewrite Hu, Hz. repeat split.
Qed.

Lemma empty_list_session_stuck_witness :
  downloadHandler workingLibs "s1"
    (uploadHandler "s1" 7 (sampleUpload (unreadable ".pdf")) uploadedDisk).1
  = ((uploadHandler "s1" 7 (sampleUpload (unreadable ".pdf")) uploadedDisk).1,
     Status 404 "ZIP not found").
Proof.
  apply (empty_list_session_stuck workingLibs "s1" 7 (sampleUpload (unreadable ".pdf"))
           uploadedDisk "/srv/uploads/1-model.png" "/srv/uploads/1-list.csv"
           (sampleStyle NaN) None NaN NaN);
    try reflexivity.
  left. reflexivity.
Defined.

(** ** The preview and the rest of the state *)

(** X24: a preview request, whether it succeeds or fails, leaves every other
    session's entry as it was, leaves the names and the template of its own
    session as they were, and leaves in place, with what it held, every path
    of the disk but [test.png] in the session's work directory. *)
Theorem preview_isolated (L : libs) (req : testRequest) (s : server) :
  let s' := (testHandler L req s).1 in
  let outPath := pathJoin (pathJoin (workDir L) (tSessionId req)) "test.png" in
  (forall id', id' <> tSessionId req -> sessions s' !! id' = sessions s !! id') /\
  (forall sess, sessions s !! tSessionId req = Some sess ->
     exists sess', sessions s' !! tSessionId req = Some sess' /\
                   names sess' = names sess /\ modelPath sess' = modelPath sess) /\
  (forall k n, k <> outPath -> disk s !! k = Some n -> disk s' !! k = Some n).
Proof.
  intros s' outPath. subst s'. unfold testHandler. fold outPath.
  destruct (sessions s !! tSessionId req) as [sess|] eqn:Hs.
  2:{ split; [reflexivity|]. split; [intros ? [=]|auto]. }
  destruct (usableModel sess) as [m|].
  2:{ split; [reflexivity|]. split; [intros ? [= <-]; eauto|auto]. }
  destruct (names sess) as [|first rest] eqn:Hn.
  { split; [reflexivity|]. split; [intros ? [= <-]; eauto|auto]. }
  rewrite compose_run.
  destruct (sharpMeta L m) as [wh|];
    [cbv zeta; destruct (compositeOk L m _); [destruct (writeOk L outPath)|]|]; simpl.
  - unfold readFile. rewrite lookup_insert_eq. simpl.
    split; [intros id' Hne; apply lookup_insert_ne; congruence|].
    split.
    + intros ? [= <-]. eexists. split; [apply lookup_insert_eq|]. simpl. auto.
    + intros k n Hk Hd. rewrite lookup_insert_ne by congruence.
      apply ensureDir_keeps, Hd.
  - split; [reflexivity|]. split; [intros ? [= <-]; eauto|].
    intros k n _ Hd. apply ensureDir_keeps, Hd.
  - split; [reflexivity|]. split; [intros ? [= <-]; eauto|].
    intros k n _ Hd. apply ensureDir_keeps, Hd.
  - split; [reflexivity|]. split; [intros ? [= <-]; eauto|].
    intros k n _ Hd. apply ensureDir_keeps, Hd.
Qed.

Lemma preview_isolated_witness :
  disk (testHandler workingLibs {| tSessionId := "s1"; tStyle := sampleStyle NaN |}
          (sampleServer ["Alice"])).1 !! "/srv/uploads/1-model.png"
  = Some (File (Uploaded "template")).
Proof.
  apply (preview_isolated workingLibs {| tSessionId := "s1"; tStyle := sampleStyle NaN |}
           (sampleServer ["Alice"])).
  - discriminate.
  - reflexivity.
Defined.

(** ** File names that stay in the output directory *)

Lemma digit_slug c : isDigit c = true -> isSlugChar c = true.
Proof.
  unfold isDigit, isSlugChar. intros ->.
  rewrite orb_true_r. reflexivity.
Qed.

Lemma replaceRuns_fixed b s : allChars isSlugChar s = true -> replaceRuns b s = s.
Proof.
  revert b. induction s as [|c s IH]; intros b H; [reflexivity|].
  simpl in *. apply andb_true_iff in H as [Hc Hs]. rewrite Hc, (IH false Hs). reflexivity.
Qed.

(** X25: whatever the name, the artifact file name is made of letters,
    digits, [_], [-] and [.] only, so it holds no path separator and the
    artifact is written in the output directory itself; and sanitizing a
    sanitized name changes nothing. *)
Theorem artifact_name_safe (idx : Z) (name ext : string) :
  0 <= idx -> allChars isSlugChar ext = true ->
  allChars slugOrDot (artifactName idx name ext) = true /\
  allChars (fun c => negb (Ascii.eqb c "/")) (artifactName idx name ext) = true /\
  sanitize (sanitize name) = sanitize name.
Proof.
  intros Hidx Hext.
  assert (Hslug : forall c, isSlugChar c = true -> slugOrDot c = true).
  { intros c Hc. unfold slugOrDot. rewrite Hc. reflexivity. }
  assert (Hsafe : allChars slugOrDot (artifactName idx name ext) = true).
  { unfold artifactName, sanitize. rewrite !allChars_app.
    rewrite (allChars_impl isDigit slugOrDot _
               (fun c Hc => Hslug c (digit_slug c Hc))
               (padStart0_digits 3 _ (ofInt_digits (idx + 1) ltac:(lia)))).
    rewrite (allChars_impl _ _ _ Hslug (replaceRuns_slug false name)).
    rewrite (allChars_impl _ _ _ Hslug Hext). reflexivity. }
  split; [exact Hsafe|]. split.
  - revert Hsafe. apply allChars_impl. intros c Hc.
    destruct (Ascii.eqb_spec c "/") as [->|]; [discriminate Hc|reflexivity].
  - unfold sanitize. apply replaceRuns_fixed, replaceRuns_slug.
Qed.

Lemma artifact_name_safe_witness :
  artifactName 0 "../../etc/passwd" "png" = "001-_etc_passwd.png" /\
  allChars (fun c => negb (Ascii.eqb c "/")) (artifactName 0 "../../etc/passwd" "png") = true.
Proof.
  split; [reflexivity|].
  apply (artifact_name_safe 0 "../../etc/passwd" "png"); [lia|reflexivity].
Defined.

(** ** The SVG source *)

Lemma scan_outside a rest :
  opensNoText a = true -> scanText Outside (a +:+ rest) = scanText Outside rest.
Proof.
  induction a as [|c a IH]; intros Ha; [reflexivity|].
  rewrite app_cons. cbn [opensNoText] in Ha. apply andb_true_iff in Ha as [Hc Ha].
  cbn [scanText]. rewrite <- (app_cons c a rest).
  destruct (String.prefix "<text" (String c a +:+ rest)) eqn:E; [|apply IH, Ha].
  exfalso. apply prefix_iff in E as [x E]. rewrite !app_cons in E.
  injection E as -> E. cbn in Hc. destruct a as [|c' a]; [discriminate Hc|].
  rewrite app_cons in E. injection E as -> _. discriminate Hc.
Qed.

Lemma notAngle_opens a : allChars notAngle a = true -> opensNoText a = true.
Proof.
  induction a as [|c a IH]; [reflexivity|]. cbn [allChars opensNoText].
  intros H. apply andb_true_iff in H as [Hc Ha]. rewrite (IH Ha), andb_true_r.
  unfold notAngle in Hc. destruct (Ascii.eqb c "<"); [discriminate Hc|reflexivity].
Qed.

Lemma quoted_notAngle a : allChars notAngle a = true -> allChars notAngle (quoted a) = true.
Proof.
  intros H. unfold quoted. cbn [allChars]. rewrite allChars_app, H. reflexivity.
Qed.

Lemma scan_tag a seen rest :
  allChars notAngle a = true ->
  scanText (InTag seen) (a +:+ rest) = scanText (InTag (String.rev_app a seen)) rest.
Proof.
  revert seen. induction a as [|c a IH]; intros seen Ha; [reflexivity|].
  rewrite app_cons. cbn [allChars] in Ha. apply andb_true_iff in Ha as [Hc Ha].
  cbn [scanText String.rev_app].
  unfold notAngle in Hc. destruct (Ascii.eqb c ">").
  - rewrite orb_true_r in Hc. discriminate Hc.
  - apply IH, Ha.
Qed.

Lemma scan_text a tag seen rest :
  allChars notAngle a = true ->
  scanText (InText tag seen) (a +:+ rest)
  = scanText (InText tag (String.rev_app a seen)) rest.
Proof.
  revert seen. induction a as [|c a IH]; intros seen Ha; [reflexivity|].
  rewrite app_cons. cbn [allChars] in Ha. apply andb_true_iff in Ha as [Hc Ha].
  cbn [scanText String.rev_app]. rewrite <- (app_cons c a rest).
  destruct (String.prefix "</text>" (String c a +:+ rest)) eqn:E; [|apply IH, Ha].
  exfalso. apply prefix_iff in E as [x E]. rewrite !app_cons in E.
  injection E as -> _. discriminate Hc.
Qed.


Lemma rev_app_spec a b : String.rev_app a b = String.rev a +:+ b.
Proof.
  revert b. induction a as [|c a IH]; intros b; [reflexivity|].
  unfold String.rev. cbn [String.rev_app]. rewrite (IH (String c b)), (IH (String c EmptyString)).
  rewrite app_assoc. reflexivity.
Qed.

Lemma rev_rev_app a b : String.rev (String.rev_app a b) = String.rev b +:+ a.
Proof.
  unfold String.rev at 1. rewrite rev_app_rev_app, app_empty_r. apply rev_app_spec.
Qed.

Lemma digit_notAngle c : isDigit c = true -> notAngle c = true.
Proof.
  unfold isDigit, between, notAngle. intros H.
  destruct (Ascii.eqb_spec c "<") as [->|_]; [discriminate H|].
  destruct (Ascii.eqb_spec c ">") as [->|_]; [discriminate H|]. reflexivity.
Qed.

Lemma ofInt_notAngle n : allChars notAngle (ofInt n) = true.
Proof.
  unfold ofInt. destruct (Z.to_int n) as [d|d]; cbn [NilEmpty.string_of_int allChars].
  - apply (allChars_impl isDigit), string_of_uint_digits. apply digit_notAngle.
  - rewrite (allChars_impl isDigit notAngle _ digit_notAngle (string_of_uint_digits d)).
    reflexivity.
Qed.

Lemma substring_allChars p n m s :
  allChars p s = true -> allChars p (String.substring n m s) = true.
Proof.
  revert n m. induction s as [|c s IH]; intros n m H.
  - destruct n, m; reflexivity.
  - cbn [allChars] in H. apply andb_true_iff in H as [Hc Hs].
    destruct n as [|n]; cbn [String.substring].
    + destruct m as [|m]; [reflexivity|]. cbn [allChars]. rewrite Hc, (IH 0%nat m Hs).
      reflexivity.
    + apply IH, Hs.
Qed.

Lemma stripZeros_allChars p s : allChars p s = true -> allChars p (stripZeros s) = true.
Proof.
  induction s as [|c s IH]; [reflexivity|]. cbn [allChars stripZeros].
  intros H. apply andb_true_iff in H as [Hc Hs]. specialize (IH Hs).
  destruct (stripZeros s) as [|c' t].
  - destruct (Ascii.eqb c "0"); [reflexivity|]. cbn [allChars]. rewrite Hc. reflexivity.
  - cbn [allChars] in *. rewrite Hc, IH. reflexivity.
Qed.

Lemma repeat0_notAngle k : allChars notAngle (repeat0 k) = true.
Proof. apply (allChars_impl isDigit), repeat0_digits. apply digit_notAngle. Qed.

Lemma showPositive_notAngle q : allChars notAngle (showPositive q) = true.
Proof.
  unfold showPositive. destruct (shortestDecimal q _ _) as [s k0].
  set (digits := stripZeros (ofInt s)).
  assert (Hd : allChars notAngle digits = true)
    by apply stripZeros_allChars, ofInt_notAngle.
  repeat match goal with
    | |- context [if ?b then _ else _] => destruct b
    end;
    rewrite ?allChars_app, ?Hd, ?repeat0_notAngle, ?ofInt_notAngle,
      ?(substring_allChars _ _ _ _ Hd); reflexivity.
Qed.

Lemma showNumber_notAngle n : allChars notAngle (showNumber n) = true.
Proof.
  destruct n as [| | |q]; try reflexivity. unfold showNumber.
  destruct (Qnum q); [reflexivity | apply showPositive_notAngle |].
  rewrite allChars_app, showPositive_notAngle. reflexivity.
Qed.

Lemma strOr_notAngle v d :
  allChars notAngle (orEmpty v) = true -> allChars notAngle d = true ->
  allChars notAngle (strOr v d) = true.
Proof.
  intros Hv Hd. unfold strOr. destruct v as [s|]; [|exact Hd].
  destruct (isEmpty s); [exact Hd|exact Hv].
Qed.

Ltac plain :=
  solve [ reflexivity
        | assumption
        | apply notAngle_opens; plain
        | apply quoted_notAngle; plain
        | apply ofInt_notAngle
        | apply showNumber_notAngle
        | rewrite !allChars_app; repeat (apply andb_true_iff; split); plain ].

Lemma scan_open rest :
  scanText Outside ("  <text x=" +:+ rest) = scanText (InTag "=x txet") rest.
Proof. rewrite !app_cons, app_empty_l. reflexivity. Qed.

Lemma scan_tag_end seen rest :
  scanText (InTag seen) (">" +:+ rest) = scanText (InText seen EmptyString) rest.
Proof. rewrite app_cons, app_empty_l. reflexivity. Qed.

Lemma scan_text_end tag seen :
  scanText (InText tag seen) ("</text>" +:+ newline +:+ "</svg>")
  = [(dropChars 4 (String.rev tag), String.rev seen)].
Proof. reflexivity. Qed.

(** The text elements of the SVG source when the spliced fields hold no angle
    bracket. *)
Lemma svgTemplate_elements width height ff fsPx fill x y safeText :
  allChars notAngle width = true -> allChars notAngle height = true ->
  allChars notAngle ff = true -> allChars notAngle fsPx = true ->
  allChars notAngle fill = true -> allChars notAngle x = true ->
  allChars notAngle y = true -> allChars notAngle safeText = true ->
  textElements (svgTemplate width height ff fsPx fill x y safeText)
  = [(" x=" +:+ quoted x +:+ " y=" +:+ quoted y +:+ " class=" +:+ quoted "t", safeText)].
Proof.
  intros Hw Hh Hff Hfs Hfill Hx Hy Ht. unfold textElements, svgTemplate.
  repeat (rewrite scan_outside by plain).
  rewrite scan_open.
  repeat (rewrite scan_tag by plain).
  rewrite scan_tag_end, (scan_text _ _ _ _ Ht), scan_text_end.
  rewrite !rev_rev_app. change (String.rev "=x txet") with "text x=".
  change (String.rev EmptyString) with EmptyString.
  rewrite !app_assoc, !app_cons, !app_empty_l. reflexivity.
Qed.

Lemma plainStyle_fields st :
  plainStyle st = true ->
  allChars notAngle (stX st) = true /\ allChars notAngle (stY st) = true /\
  allChars notAngle (strOr (stFontFamily st) "Arial") = true /\
  allChars notAngle (strOr (stColor st) "#000000") = true.
Proof.
  unfold plainStyle. intros H.
  apply andb_true_iff in H as [H Hc]. apply andb_true_iff in H as [H Hf].
  apply andb_true_iff in H as [Hx Hy].
  repeat split; [assumption | assumption | |]; apply strOr_notAngle; assumption || reflexivity.
Qed.

(** X26: without an angle bracket in the style, no text element can be added
    to the preview.  Whenever the preview handler answers with a preview for
    a request whose x, y, fontFamily and color hold neither [<] nor [>], the
    SVG source composed over the template has exactly one text element: its
    tag is the one of the template with the x and the y of the request
    spliced in (a quote in them can still add attributes to it), and its
    content is the first name of the session, escaped. *)
Theorem plain_style_previews_first_name (L : libs) (req : testRequest) (s s' : server)
    (c : content) :
  testHandler L req s = (s', PreviewJson c) ->
  plainStyle (tStyle req) = true ->
  exists sess first rest m layer,
    sessions s !! tSessionId req = Some sess /\
    names sess = first :: rest /\
    modelPath sess = Some m /\
    c = Png m layer /\
    textElements (svgSource layer)
    = [(" x=" +:+ quoted (stX (tStyle req)) +:+ " y=" +:+ quoted (stY (tStyle req)) +:+
        " class=" +:+ quoted "t", escapeText (Some first))].
Proof.
  intros H Hplain. unfold testHandler in H.
  destruct (sessions s !! tSessionId req) as [sess|] eqn:Hs; [|discriminate].
  destruct (usableModel sess) as [m|] eqn:Hm; [|discriminate].
  destruct (names sess) as [|first rest] eqn:Hn; [discriminate|].
  rewrite compose_run in H.
  destruct (sharpMeta L m) as [wh|]; [|discriminate]. cbv zeta in H.
  destruct (compositeOk L m _); [|discriminate].
  destruct (writeOk L _); [|discriminate].
  unfold readFile in H. rewrite lookup_insert_eq in H. injection H as _ <-.
  apply usableModel_Some in Hm as (Hm & _ & _).
  destruct (plainStyle_fields _ Hplain) as (Hx & Hy & Hff & Hfill).
  eexists sess, first, rest, m, _. repeat split; try eassumption || reflexivity.
  unfold buildSVGText. cbn [svgSource overlayOf ovX ovY ovText ovFontFamily ovColor ovFontSize].
  apply svgTemplate_elements; try assumption.
  - apply ofInt_notAngle.
  - apply ofInt_notAngle.
  - apply showNumber_notAngle.
  - rewrite escapeText_each. apply escapeEach_notAngle.
Qed.

Lemma plain_style_previews_first_name_witness :
  exists sess first rest m layer,
    sessions (sampleServer ["Alice"; "Bob"]) !! "s1" = Some sess /\
    names sess = first :: rest /\
    modelPath sess = Some m /\
    Png "/srv/uploads/1-model.png"
      (buildSVGText (overlayOf (sampleStyle (Fin 48)) "Alice") 800 600) = Png m layer /\
    textElements (svgSource layer)
    = [(" x=" +:+ quoted "100" +:+ " y=" +:+ quoted "200" +:+ " class=" +:+ quoted "t",
        escapeText (Some first))].
Proof.
  apply (plain_style_previews_first_name workingLibs
           {| tSessionId := "s1"; tStyle := sampleStyle (Fin 48) |}
           (sampleServer ["Alice"; "Bob"])
           (testHandler workingLibs {| tSessionId := "s1"; tStyle := sampleStyle (Fin 48) |}
              (sampleServer ["Alice"; "Bob"])).1
           (Png "/srv/uploads/1-model.png"
              (buildSVGText (overlayOf (sampleStyle (Fin 48)) "Alice") 800 600))).
  - vm_compute. reflexivity.
  - reflexivity.
Defined.

(** ** Numbers that are not small integers *)

(** X27: the limit and the offset are used as the numbers they are.  A limit
    of 2.5 on four names makes three artifacts (the indices 0, 1 and 2 are
    below 2.5) and the answer reports a count of 2.5; an offset of 10^17 is
    past the end, no artifact is made, and the count reported is the double
    nearest to 4 - 10^17, which is -10^17. *)
Theorem fractional_limit_and_large_offset :
  let half := generateHandler workingLibs (windowRequest NaN (Fin (5 # 2)))
                (sampleServer fourNames) in
  let far := generateHandler workingLibs (windowRequest (Fin 100000000000000000) NaN)
               (sampleServer fourNames) in
  windowIndices 4 NaN (Fin (5 # 2)) = [0; 1; 2] /\
  half.2 = GenerateJson "/api/download/s1" (5 # 2) 0 4 /\
  existsSync (disk half.1) "/srv/work/s1/all/003-Chloe.png" = true /\
  existsSync (disk half.1) "/srv/work/s1/all/004-Dan.png" = false /\
  windowIndices 4 (Fin 100000000000000000) NaN = [] /\
  far.2 = GenerateJson "/api/download/s1" (-100000000000000000) 100000000000000000 4 /\
  ~ (- 100000000000000000 == inject_Z (4 - 100000000000000000))%Q.
Proof. vm_compute. repeat split. discriminate. Qed.
